(** * Universal Offline OCR: job orchestration and language-pack cache

  A shallow embedding of

  - [ocr-app/src/app/page.tsx] (the [Home] component: job table, intake,
    the [processFile] driver, the pending-dispatch effect, language
    selection and import, and [combineSegments]), and
  - the custom service worker (the [fetch] listener that caches
    [/tesseract/] requests in the [ocr-language-cache] cache),

  together with the properties of the job orchestrator and of the cache
  that are checked against them.

  Conventions.  JavaScript numbers that the code only ever uses as
  counters (page indices, sizes, timestamps) are [nat]; numbers that carry
  fractions (progress, confidence, durations) are rationals [Q], the
  values of finite doubles.  Comparisons and [toFixed] are exact on these
  values, as they are in JavaScript; a quotient that is printed is rounded
  to the nearest double first ([Js.divide]); progress values are only
  compared with one another and are kept unrounded, rounding being
  monotone.  A string is the sequence of bytes of the UTF-8 encoding of
  the JavaScript string: concatenation, equality, prefixes and suffixes
  are the same on both sides; white space is recognised by its encoding,
  and the case mappings are those of the ASCII letters ([Js.isAscii]).
  React state is passed explicitly; every [setJobs (prev => ...)] call is
  an [Action] applied to the latest state, so the sequence of states a
  component can observe is the sequence of states between actions.  A
  collaborator is given by the settlement of the promise it returns: what
  is stated of a run is stated of a run whose awaited promises settle. *)

From Stdlib Require Import Ascii String QArith Qround Qabs Lqa.
From Stdlib Require Import Sorted Permutation.
From stdpp Require Import gmap strings list sorting pretty.

Local Open Scope string_scope.
Local Open Scope list_scope.

(** ** JavaScript built-ins used by the sources *)

Module Js.

(** The line feed written [\n] in string and template literals. *)
Definition LF : string := String "010"%char EmptyString.

(** [s.startsWith(p)] *)
Definition startsWith (s p : string) : bool := String.prefix p s.

(** [s.endsWith(p)] *)
Definition endsWith (s p : string) : bool :=
  String.prefix (String.rev p) (String.rev s).

(** The string with the given bytes. *)
Definition ofBytes (bytes : list nat) : string :=
  string_of_list_ascii (map ascii_of_nat bytes).

(** The code points [String.prototype.trim] removes, by their encoding:
    the white space of ECMAScript (TAB, VT, FF, SP, U+00A0, U+FEFF and the
    other space separators U+1680, U+2000 to U+200A, U+202F, U+205F,
    U+3000) and its line terminators (LF, CR, U+2028, U+2029). *)
Definition whiteSpace : list string :=
  [ ofBytes [9]; ofBytes [10]; ofBytes [11]; ofBytes [12]; ofBytes [13];
    ofBytes [32];
    ofBytes [194; 160];
    ofBytes [225; 154; 128];
    ofBytes [226; 128; 128]; ofBytes [226; 128; 129]; ofBytes [226; 128; 130];
    ofBytes [226; 128; 131]; ofBytes [226; 128; 132]; ofBytes [226; 128; 133];
    ofBytes [226; 128; 134]; ofBytes [226; 128; 135]; ofBytes [226; 128; 136];
    ofBytes [226; 128; 137]; ofBytes [226; 128; 138];
    ofBytes [226; 128; 168]; ofBytes [226; 128; 169];
    ofBytes [226; 128; 175];
    ofBytes [226; 129; 159];
    ofBytes [227; 128; 128];
    ofBytes [239; 187; 191] ].

(** [l] without the prefix [p], when it starts with it. *)
Fixpoint dropPrefix (p l : list ascii) : option (list ascii) :=
  match p, l with
  | [], _ => Some l
  | a :: p', b :: l' => if Ascii.eqb a b then dropPrefix p' l' else None
  | _ :: _, [] => None
  end.

(** [l] without the first of the [marks] it starts with. *)
Fixpoint stripAny (marks : list (list ascii)) (l : list ascii)
  : option (list ascii) :=
  match marks with
  | [] => None
  | w :: rest =>
      match dropPrefix w l with
      | Some r => Some r
      | None => stripAny rest l
      end
  end.

(** Strip [marks] from the front of [l] for as long as there is one; a
    mark is not empty, so [length l] rounds are enough. *)
Fixpoint stripAll (marks : list (list ascii)) (rounds : nat) (l : list ascii)
  : list ascii :=
  match rounds with
  | O => l
  | S n =>
      match stripAny marks l with
      | Some r => stripAll marks n r
      | None => l
      end
  end.

(** [s.trim()]: white space and line terminators are removed from both
    ends.  A suffix is a reversed prefix of the reversed string. *)
Definition trimStart (s : string) : string :=
  let l := list_ascii_of_string s in
  string_of_list_ascii
    (stripAll (map list_ascii_of_string whiteSpace) (length l) l).

Definition trimEnd (s : string) : string :=
  let l := reverse (list_ascii_of_string s) in
  string_of_list_ascii
    (reverse
       (stripAll (map (fun w => reverse (list_ascii_of_string w)) whiteSpace)
          (length l) l)).

Definition trim (s : string) : string := trimEnd (trimStart s).

(** A string of white space only, and a string with no white space at
    either end. *)
Definition blank (s : string) : Prop :=
  exists parts,
    Forall (fun w => w ∈ whiteSpace) parts /\ s = foldr String.append "" parts.

Definition trimmed (s : string) : Prop :=
  forall w, w ∈ whiteSpace -> forall r, s <> w +:+ r /\ s <> r +:+ w.

(** Every character is an ASCII character. *)
Fixpoint isAscii (s : string) : bool :=
  match s with
  | EmptyString => true
  | String a s' => (nat_of_ascii a <? 128)%nat && isAscii s'
  end.

(** [arr.join(sep)] *)
Definition join (sep : string) (arr : list string) : string :=
  String.concat sep arr.

(** [arr.includes(x)] on an array of strings *)
Definition includes (arr : list string) (x : string) : bool :=
  bool_decide (x ∈ arr).

(** [s.toUpperCase()] / [s.toLowerCase()]: the mappings of the ASCII
    letters, which are the whole of the case mappings on a string that
    [isAscii]; the other characters are left as they are. *)
Definition upperChar (a : ascii) : ascii :=
  let n := nat_of_ascii a in
  if (97 <=? n)%nat && (n <=? 122)%nat then ascii_of_nat (n - 32) else a.

Definition lowerChar (a : ascii) : ascii :=
  let n := nat_of_ascii a in
  if (65 <=? n)%nat && (n <=? 90)%nat then ascii_of_nat (n + 32) else a.

Fixpoint mapChars (f : ascii → ascii) (s : string) : string :=
  match s with
  | EmptyString => EmptyString
  | String a s' => String (f a) (mapChars f s')
  end.

Definition toUpperCase : string → string := mapChars upperChar.
Definition toLowerCase : string → string := mapChars lowerChar.

(** Template-literal rendering of a non-negative integer. *)
Definition numberToString (n : nat) : string := pretty n.

Fixpoint zeros (k : nat) : string :=
  match k with
  | O => EmptyString
  | S k' => String "0" (zeros k')
  end.

(** [x.toFixed(digits)] (ECMAScript, Number.prototype.toFixed, for
    |x| < 10^21): [n] is the integer closest to [|x| * 10^digits], the
    larger one on a tie; its decimal digits are left-padded with zeros to
    [digits + 1] places and a point is put before the last [digits]. *)
Definition toFixed (x : Q) (digits : nat) : string :=
  let a := Qabs x in
  let n := Qfloor (a * inject_Z (10 ^ Z.of_nat digits) + (1 # 2)) in
  let m := pretty (Z.to_N n) in
  let m := zeros (S digits - String.length m) +:+ m in
  let k := (String.length m - digits)%nat in
  let body :=
    match digits with
    | O => m
    | _ => String.substring 0 k m +:+ "." +:+ String.substring k digits m
    end in
  (if Qlt_le_dec x 0 then "-" else "") +:+ body.

(** The double nearest to a rational (IEEE 754 binary64, round to nearest,
    ties to even), in the finite range: with [2^e <= |q| < 2^(e+1)] the
    doubles around [q] are the multiples of [2^p], [p] being [e - 52], or
    [-1074] among the subnormals. *)
Definition roundToDouble (q : Q) : Q :=
  let n := Qnum q in
  let d := Zpos (Qden q) in
  if (n =? 0)%Z then 0%Q
  else
    let a := Z.abs n in
    let e0 := (Z.log2 a - Z.log2 d)%Z in
    let e :=
      if (a * 2 ^ Z.max 0 (- e0) <? d * 2 ^ Z.max 0 e0)%Z
      then (e0 - 1)%Z else e0 in
    let p := Z.max (e - 52) (-1074) in
    let num := (a * 2 ^ Z.max 0 (- p))%Z in
    let den := (d * 2 ^ Z.max 0 p)%Z in
    let below := (num / den)%Z in
    let rest := (num mod den)%Z in
    let m :=
      if (2 * rest <? den)%Z then below
      else if (den <? 2 * rest)%Z then (below + 1)%Z
      else if Z.even below then below else (below + 1)%Z in
    Qred (inject_Z (Z.sgn n * m)
          * (if (0 <=? p)%Z then inject_Z (2 ^ p) else / inject_Z (2 ^ (- p)))).

(** [x / y] on doubles. *)
Definition divide (x y : Q) : Q := roundToDouble (x / y).

End Js.

(** ** [page.tsx] *)

Module Home.

Inductive JobStatus := pending | processing | completed | error.

#[global] Instance JobStatus_eq_dec : EqDecision JobStatus.
Proof. solve_decision. Defined.

Record RecognizedSegment := {
  pageIndex : nat;
  text : string;
  confidence : Q;
}.

(** Job ids are the strings drawn from [uuid()]; a draw is identified
    here with its sequence number. *)
Abbreviation JobId := nat (only parsing).

(** [error_] is the field [error]; the name [error] is the status. *)
Record OcrJob := {
  id : JobId;
  name : string;
  type : string;
  size : nat;
  status : JobStatus;
  languages : list string;
  progress : Q;
  startedAt : nat;
  completedAt : option nat;
  error_ : option string;
  segments : list RecognizedSegment;
  extractedText : string;
  warnings : list string;
}.

Definition SUPPORTED_FILE_TYPES : list string :=
  [ "image/png"; "image/jpeg"; "image/webp"; "image/gif"; "image/bmp";
    "application/pdf";
    "application/vnd.openxmlformats-officedocument.wordprocessingml.document" ].

(** The fields of a browser [File] that the component reads; [blob]
    stands for its content, which only the decoders look at. *)
Record File := {
  fileName : string;
  fileType : string;
  fileSize : nat;
  blob : nat;
}.

Definition readableFileType (mimeType fileName : string) : string :=
  if Js.startsWith mimeType "image/" then "Image"
  else if bool_decide (mimeType = "application/pdf") || Js.endsWith fileName ".pdf"
  then "PDF"
  else if Js.endsWith fileName ".docx" then "Word Document"
  else if bool_decide (mimeType = "") then "Unknown" else mimeType.

Definition isImage (file : File) : bool :=
  Js.startsWith (fileType file) "image/".

Definition isPdf (file : File) : bool :=
  bool_decide (fileType file = "application/pdf")
  || Js.endsWith (fileName file) ".pdf".

Definition isDocx (file : File) : bool :=
  bool_decide (fileType file =
    "application/vnd.openxmlformats-officedocument.wordprocessingml.document")
  || Js.endsWith (fileName file) ".docx".

(** *** [combineSegments] *)

(** The comparator handed to [sort]. *)
Definition compareSegments (a b : RecognizedSegment) : Z :=
  (Z.of_nat (pageIndex a) - Z.of_nat (pageIndex b))%Z.

(** [Array.prototype.sort] is a stable sort; on a comparator that is a
    consistent ordering the result of a stable sort is unique, and it is
    the one insertion from the right computes.  The sort is in place, on
    the array of the job: the array holds the same segments afterwards,
    and sorting it again changes nothing, so the order returned is all
    there is to model. *)
Fixpoint insertSegment (s : RecognizedSegment) (l : list RecognizedSegment)
  : list RecognizedSegment :=
  match l with
  | [] => [s]
  | h :: t =>
      if (compareSegments s h <=? 0)%Z then s :: h :: t
      else h :: insertSegment s t
  end.

Definition sortSegments (l : list RecognizedSegment) : list RecognizedSegment :=
  foldr insertSegment [] l.

(** [${index + 1}]: the page number written in a segment's header. *)
Definition pageLabel (index : nat) : string := Js.numberToString (index + 1).

(** The callback of [.map((segment, index) => ...)]. *)
Definition segmentBlock (index : nat) (segment : RecognizedSegment) : string :=
  let confidence := Js.toFixed (confidence segment) 2 in
  "--- Page " +:+ pageLabel index
    +:+ " (Confidence: " +:+ confidence +:+ "%) ---" +:+ Js.LF +:+ Js.trim (text segment) +:+ Js.LF.

Definition segmentBlocks (segments : list RecognizedSegment) : list string :=
  imap segmentBlock (sortSegments segments).

Definition combineSegments (segments : list RecognizedSegment) : string :=
  Js.join Js.LF (segmentBlocks segments).

(** *** Collaborators from [@/lib]

    [lib/languages], [lib/cacheLanguage], [lib/fileProcessors] and
    [lib/ocrWorker] are the application's other modules; the component
    only calls them.  Their types are given by the way [page.tsx] uses
    them, and the functions themselves are the fields of [Collaborators],
    so every statement below holds whatever they do. *)

(** [LanguageOption]: the fields read ([code], [label], [path],
    [builtIn]) and written ([code], [label], [path]) by the component. *)
Record LanguageOption := {
  code : string;
  label : string;
  path : string;
  builtIn : option bool;
}.

#[global] Instance LanguageOption_eq_dec : EqDecision LanguageOption.
Proof. solve_decision. Defined.

(** A canvas and an image blob are handles. *)
Definition Canvas := nat.
Definition Blob := nat.

(** [RenderedPage]: only [canvas] is read. *)
Record RenderedPage := { canvas : Canvas }.

(** What a [throw] or a rejected promise carries: an [Error] with its
    [message], or any other value. *)
Inductive Thrown :=
| ErrorObject (message : string)
| OtherValue.

(** The settlement of an awaited promise. *)
Inductive Outcome (A : Type) :=
| Resolved (a : A)
| Rejected (e : Thrown).
Arguments Resolved {A} a.
Arguments Rejected {A} e.

(** A promise handed to [Promise.all]: its settlement, and the time at
    which it settles. *)
Record Timed (A : Type) := {
  settlesAt : nat;
  settlement : Outcome A;
}.
Arguments settlesAt {A} _.
Arguments settlement {A} _.

Record RecognitionResult := {
  resultText : string;
  resultConfidence : Q;
}.

(** One call of [recognizeImage(canvas, languages, onProgress)]: the
    arguments it passes to [onProgress], in order of arrival, then its
    settlement, and the [performance.now()] difference measured around the
    call, in milliseconds. *)
Record Recognition := {
  reported : list Q;
  outcome : Outcome RecognitionResult;
  elapsed : Q;
}.

Record Collaborators := {
  ensureLanguageCached : LanguageOption -> Timed unit;
  importLanguageFromFile : string -> File -> Outcome (string * string);
  processImageFile : File -> Outcome (list RenderedPage);
  processPdfFile : File -> Outcome (list RenderedPage);
  extractDocxText : File -> Outcome string;
  extractDocxImages : File -> Outcome (list Blob);
  blobsToRenderedPages : list Blob -> Outcome (list RenderedPage);
  recognizeImage : Canvas -> list string -> Recognition;
}.

(** *** Component state *)

Record AppState := {
  availableLanguages : list LanguageOption;
  selectedLanguages : list string;
  jobs : list OcrJob;
  isImportingLanguage : bool;
  languageCodeInput : string;
  languageFile : option File;
  fileMap : gmap JobId File;
  (** number of [uuid()] draws so far *)
  uuidDraws : nat;
}.

(** [useState] initial values; [builtInLanguages] comes from
    [lib/languages]. *)
Definition initialState (builtInLanguages : list LanguageOption) : AppState :=
  {| availableLanguages := builtInLanguages;
     selectedLanguages := ["eng"];
     jobs := [];
     isImportingLanguage := false;
     languageCodeInput := "";
     languageFile := None;
     fileMap := ∅;
     uuidDraws := 0 |}.

(** [Partial<OcrJob>], restricted to the keys the component ever passes.
    A key that is present overrides the job's field under
    [{ ...job, ...partial }]; [error: undefined] is the present key whose
    value is [None]. *)
Record JobPatch := {
  setStatus : option JobStatus;
  setProgress : option Q;
  setError : option (option string);
  setCompletedAt : option nat;
  setExtractedText : option string;
  setWarnings : option (list string);
}.

Definition noPatch : JobPatch :=
  {| setStatus := None; setProgress := None; setError := None;
     setCompletedAt := None; setExtractedText := None; setWarnings := None |}.

Definition spread (job : OcrJob) (partial : JobPatch) : OcrJob :=
  {| id := id job;
     name := name job;
     type := type job;
     size := size job;
     status := default (status job) (setStatus partial);
     languages := languages job;
     progress := default (progress job) (setProgress partial);
     startedAt := startedAt job;
     completedAt :=
       match setCompletedAt partial with
       | Some t => Some t
       | None => completedAt job
       end;
     error_ := default (error_ job) (setError partial);
     segments := segments job;
     extractedText := default (extractedText job) (setExtractedText partial);
     warnings := default (warnings job) (setWarnings partial) |}.

Definition withSegment (job : OcrJob) (segment : RecognizedSegment) : OcrJob :=
  {| id := id job;
     name := name job;
     type := type job;
     size := size job;
     status := status job;
     languages := languages job;
     progress := progress job;
     startedAt := startedAt job;
     completedAt := completedAt job;
     error_ := error_ job;
     segments := segments job ++ [segment];
     extractedText := extractedText job;
     warnings := warnings job |}.

(** The state writes [processFile] performs.  Each is a functional update
    of the latest state. *)
Inductive Action :=
| UpdateJob (jobId : JobId) (partial : JobPatch)
| AppendSegment (jobId : JobId) (segment : RecognizedSegment)
| ReleaseFile (jobId : JobId).

(** [updateJob]: [prev.map(job => job.id === id ? {...job, ...partial} : job)] *)
Definition updateJob (jobId : JobId) (partial : JobPatch) (prev : list OcrJob)
  : list OcrJob :=
  map (fun job => if decide (id job = jobId) then spread job partial else job) prev.

(** [appendSegment] *)
Definition appendSegment (jobId : JobId) (segment : RecognizedSegment)
  (prev : list OcrJob) : list OcrJob :=
  map (fun job => if decide (id job = jobId) then withSegment job segment else job)
    prev.

Definition withJobs (st : AppState) (js : list OcrJob) : AppState :=
  {| availableLanguages := availableLanguages st;
     selectedLanguages := selectedLanguages st;
     jobs := js;
     isImportingLanguage := isImportingLanguage st;
     languageCodeInput := languageCodeInput st;
     languageFile := languageFile st;
     fileMap := fileMap st;
     uuidDraws := uuidDraws st |}.

Definition withFileMap (st : AppState) (m : gmap JobId File) : AppState :=
  {| availableLanguages := availableLanguages st;
     selectedLanguages := selectedLanguages st;
     jobs := jobs st;
     isImportingLanguage := isImportingLanguage st;
     languageCodeInput := languageCodeInput st;
     languageFile := languageFile st;
     fileMap := m;
     uuidDraws := uuidDraws st |}.

Definition applyAction (a : Action) (st : AppState) : AppState :=
  match a with
  | UpdateJob jobId partial => withJobs st (updateJob jobId partial (jobs st))
  | AppendSegment jobId segment => withJobs st (appendSegment jobId segment (jobs st))
  | ReleaseFile jobId => withFileMap st (delete jobId (fileMap st))
  end.

(** The states between the writes: the state before, then the state after
    each action. *)
Fixpoint snapshots (acts : list Action) (st : AppState) : list AppState :=
  match acts with
  | [] => [st]
  | a :: rest => st :: snapshots rest (applyAction a st)
  end.

Definition finalState (acts : list Action) (st : AppState) : AppState :=
  foldl (fun s a => applyAction a s) st acts.

(** [jobs.find(entry => entry.id === jobId)] *)
Definition findJob (jobId : JobId) (js : list OcrJob) : option OcrJob :=
  List.find (fun entry => bool_decide (id entry = jobId)) js.

Definition getJob (jobId : JobId) (st : AppState) : option OcrJob :=
  findJob jobId (jobs st).

(** *** The body of an [async] function

    A [Task] is what an asynchronous body has done when it settles: the
    state writes it issued, in order, and its settlement.  [bind] is
    sequencing through [await]; a rejection skips what follows, up to the
    enclosing [catch]. *)

Definition Task (A : Type) : Type := (list Action * Outcome A)%type.

Definition ret {A} (a : A) : Task A := ([], Resolved a).

Definition bind {A B} (m : Task A) (k : A -> Task B) : Task B :=
  match m with
  | (w, Resolved a) => let '(w', r) := k a in (w ++ w', r)
  | (w, Rejected e) => (w, Rejected e)
  end.

Definition await {A} (o : Outcome A) : Task A := ([], o).
Definition throw {A} (e : Thrown) : Task A := ([], Rejected e).
Definition emit (a : Action) : Task unit := ([a], Resolved tt).
Definition emitAll (l : list Action) : Task unit := (l, Resolved tt).

Notation "'let*' x ':=' m 'in' k" := (bind m (fun x => k))
  (at level 10, x binder, m at level 100, k at level 200, only parsing).

(** [Promise.all].  It is rejected as soon as one of the promises is,
    with the reason of that promise: the first rejection in time, which
    need not be the first in the array (of two promises rejected at the
    same time the reactions run in array order).  It is resolved with all
    the values when every promise is resolved. *)
Fixpoint firstRejected {A} (l : list (Timed A)) : option (nat * Thrown) :=
  match l with
  | [] => None
  | p :: rest =>
      match settlement p, firstRejected rest with
      | Rejected e, Some (t', e') =>
          if (t' <? settlesAt p)%nat then Some (t', e') else Some (settlesAt p, e)
      | Rejected e, None => Some (settlesAt p, e)
      | Resolved _, later => later
      end
  end.

Fixpoint resolvedValues {A} (l : list (Timed A)) : list A :=
  match l with
  | [] => []
  | p :: rest =>
      match settlement p with
      | Resolved a => a :: resolvedValues rest
      | Rejected _ => resolvedValues rest
      end
  end.

Definition promiseAll {A} (l : list (Timed A)) : Outcome (list A) :=
  match firstRejected l with
  | Some (_, e) => Rejected e
  | None => Resolved (resolvedValues l)
  end.

(** [error instanceof Error ? error.message : "Unexpected error"] *)
Definition errorMessage (e : Thrown) : string :=
  match e with
  | ErrorObject message => message
  | OtherValue => "Unexpected error"
  end.

Definition ofNat (n : nat) : Q := inject_Z (Z.of_nat n).

(** [canvases.length || 1] *)
Definition orOne (n : nat) : nat :=
  match n with
  | O => 1
  | _ => n
  end.

(** [(index + progress) / (canvases.length || 1)] *)
Definition pageProgress (index : nat) (progress : Q) (total : nat) : Q :=
  ((ofNat index + progress) / ofNat (orOne total))%Q.

Definition progressPatch (q : Q) : JobPatch :=
  {| setStatus := None; setProgress := Some q; setError := None;
     setCompletedAt := None; setExtractedText := None; setWarnings := None |}.

(** The warning pushed when a page took more than 15 seconds. *)
Definition durationWarning (index : nat) (duration : Q) : option string :=
  if Qlt_le_dec 15000 duration then
    Some ("Page " +:+ Js.numberToString (index + 1) +:+ " took "
          +:+ Js.toFixed (Js.divide duration 1000) 1
          +:+ "s to process. Consider splitting large documents.")
  else None.

Definition pushWarning (warnings : list string) (w : option string) : list string :=
  match w with
  | Some message => warnings ++ [message]
  | None => warnings
  end.

(** [availableLanguages.find(lang => lang.code === code)], the lookup
    [processFile] uses to resolve a language code. *)
Definition findLanguage (c : string) (available : list LanguageOption)
  : option LanguageOption :=
  List.find (fun lang => bool_decide (code lang = c)) available.

Section ProcessFile.

Variable env : Collaborators.

(** [job.languages.map(code => availableLanguages.find(...)).filter(Boolean)] *)
Definition languageEntries (available : list LanguageOption) (job : OcrJob)
  : list LanguageOption :=
  omap (fun c => findLanguage c available) (languages job).

(** The [if (isImage(file)) ... else throw] chain: the rendered pages, the
    extracted text and the warnings pushed so far. *)
Definition resolveDocument (file : File)
  : Task (list RenderedPage * string * list string) :=
  if isImage file then
    let* canvases := await (processImageFile env file) in
    ret (canvases, "", [])
  else if isPdf file then
    let* canvases := await (processPdfFile env file) in
    ret (canvases, "", [])
  else if isDocx file then
    let* extracted := await (extractDocxText env file) in
    let* imageBlobs := await (extractDocxImages env file) in
    match imageBlobs with
    | [] =>
        ret ([], extracted,
             ["No embedded images found in the document; OCR is limited to textual extraction."])
    | _ =>
        let* canvases := await (blobsToRenderedPages env imageBlobs) in
        ret (canvases, extracted, [])
    end
  else throw (ErrorObject "Unsupported file type").

(** The [for] loop, from [index] on: [pages] are the canvases still to be
    recognised and [total] is [canvases.length].  It returns the
    [warnings] array as the loop leaves it. *)
Fixpoint recognizePages (jobId : JobId) (languageList : list string)
  (total index : nat) (pages : list RenderedPage) (warnings : list string)
  : Task (list string) :=
  match pages with
  | [] => ret warnings
  | page :: rest =>
      let call := recognizeImage env (canvas page) languageList in
      let* _ :=
        emitAll (map (fun progress =>
                        UpdateJob jobId (progressPatch (pageProgress index progress total)))
                     (reported call)) in
      let* result := await (outcome call) in
      let* _ :=
        emit (AppendSegment jobId
                {| pageIndex := index;
                   text := resultText result;
                   confidence := resultConfidence result |}) in
      let warnings := pushWarning warnings (durationWarning index (elapsed call)) in
      let* _ :=
        emit (UpdateJob jobId
                {| setStatus := None;
                   setProgress := Some (ofNat (index + 1) / ofNat (orOne total))%Q;
                   setError := None; setCompletedAt := None;
                   setExtractedText := None;
                   setWarnings := Some warnings |}) in
      recognizePages jobId languageList total (S index) rest warnings
  end.

(** [if (canvases.length === 0 && !extractedText) warnings.push(...)] *)
Definition noteEmptyContent (canvases : list RenderedPage) (extracted : string)
  (warnings : list string) : list string :=
  match canvases, extracted with
  | [], EmptyString => warnings ++ ["No visual content found for OCR."]
  | _, _ => warnings
  end.

(** The [try] block; [now] is what [Date.now()] returns at its end. *)
Definition tryBlock (available : list LanguageOption) (job : OcrJob)
  (file : File) (now : nat) : Task unit :=
  let jobId := id job in
  let* _ :=
    await (promiseAll (map (ensureLanguageCached env) (languageEntries available job))) in
  let* '(canvases, extracted, warnings) := resolveDocument file in
  let warnings := noteEmptyContent canvases extracted warnings in
  let languageList := languages job in
  let* warnings := recognizePages jobId languageList (length canvases) 0 canvases warnings in
  emit (UpdateJob jobId
          {| setStatus := Some completed;
             setProgress := Some 1%Q;
             setError := None;
             setCompletedAt := Some now;
             setExtractedText := Some extracted;
             setWarnings := Some warnings |}).

(** [try { ... } catch (error) { ... } finally { ... }] *)
Definition tryCatchFinally (jobId : JobId) (body : Task unit) : list Action :=
  let '(writes, settled) := body in
  writes
  ++ match settled with
     | Resolved _ => []
     | Rejected e =>
         [UpdateJob jobId
            {| setStatus := Some error;
               setProgress := None;
               setError := Some (Some (errorMessage e));
               setCompletedAt := None; setExtractedText := None;
               setWarnings := None |}]
     end
  ++ [ReleaseFile jobId].

(** [processFile(jobId)], called in a render whose closure holds [js] and
    [available], with [files] the content of [fileMap.current]: the writes
    it performs, in order. *)
Definition processFile (js : list OcrJob) (available : list LanguageOption)
  (files : gmap JobId File) (now : nat) (jobId : JobId) : list Action :=
  match findJob jobId js, files !! jobId with
  | Some job, Some file =>
      UpdateJob jobId
        {| setStatus := Some processing;
           setProgress := Some 0%Q;
           setError := Some None;
           setCompletedAt := None; setExtractedText := None;
           setWarnings := None |}
      :: tryCatchFinally jobId (tryBlock available job file now)
  | _, _ => []
  end.

(** A run of the driver from state [st]. *)
Definition run (st : AppState) (now : nat) (jobId : JobId) : list Action :=
  processFile (jobs st) (availableLanguages st) (fileMap st) now jobId.

(** The pending-dispatch effect: one [processFile] call per job whose
    status is [pending]. *)
Definition pendingJobs (js : list OcrJob) : list OcrJob :=
  filter (fun job => status job = pending) js.

Definition dispatchPending (st : AppState) (now : nat) : list (JobId * list Action) :=
  map (fun job => (id job, run st now (id job))) (pendingJobs (jobs st)).

End ProcessFile.

(** *** Intake: [handleFiles] *)

(** The acceptance test of [handleFiles]. *)
Definition acceptable (file : File) : bool :=
  Js.includes SUPPORTED_FILE_TYPES (fileType file)
  || isImage file || isPdf file || isDocx file.

(** The entry that reports the rejected files of one intake. *)
Definition unsupportedJob (jobId : JobId) (selected : list string)
  (rejected : list string) (now : nat) : OcrJob :=
  {| id := jobId;
     name := "Unsupported files";
     type := "System";
     size := 0;
     status := error;
     languages := selected;
     progress := 0;
     startedAt := now;
     completedAt := None;
     error_ := Some ("Unsupported files: " +:+ Js.join ", " rejected);
     segments := [];
     extractedText := "";
     warnings := [] |}.

(** The entry created for an accepted file. *)
Definition pendingJob (jobId : JobId) (selected : list string) (file : File)
  (now : nat) : OcrJob :=
  {| id := jobId;
     name := fileName file;
     type := readableFileType (fileType file) (fileName file);
     size := fileSize file;
     status := pending;
     languages := selected;
     progress := 0;
     startedAt := now;
     completedAt := None;
     error_ := None;
     segments := [];
     extractedText := "";
     warnings := [] |}.

(** One iteration of [accepted.forEach]: draw an id, keep the file under
    it, put the new job in front. *)
Definition enqueue (selected : list string) (now : nat) (st : AppState)
  (file : File) : AppState :=
  let jobId := uuidDraws st in
  {| availableLanguages := availableLanguages st;
     selectedLanguages := selectedLanguages st;
     jobs := pendingJob jobId selected file now :: jobs st;
     isImportingLanguage := isImportingLanguage st;
     languageCodeInput := languageCodeInput st;
     languageFile := languageFile st;
     fileMap := <[jobId := file]> (fileMap st);
     uuidDraws := S jobId |}.

(** The [if (rejected.length > 0)] block. *)
Definition reportRejected (selected : list string) (now : nat)
  (rejected : list string) (st : AppState) : AppState :=
  match rejected with
  | [] => st
  | _ =>
      let jobId := uuidDraws st in
      {| availableLanguages := availableLanguages st;
         selectedLanguages := selectedLanguages st;
         jobs := unsupportedJob jobId selected rejected now :: jobs st;
         isImportingLanguage := isImportingLanguage st;
         languageCodeInput := languageCodeInput st;
         languageFile := languageFile st;
         fileMap := fileMap st;
         uuidDraws := S jobId |}
  end.

(** [handleFiles(fileList)]; [None] is the [null] file list. *)
Definition handleFiles (st : AppState) (fileList : option (list File))
  (now : nat) : AppState :=
  match fileList with
  | None => st
  | Some files =>
      let accepted := List.filter acceptable files in
      let rejected :=
        map fileName (List.filter (fun file => negb (acceptable file)) files) in
      let selected := selectedLanguages st in
      foldl (enqueue selected now) (reportRejected selected now rejected st) accepted
  end.

(** *** Language selection and import *)

(** The updater [handleLanguageToggle] passes to [setSelectedLanguages]. *)
Definition handleLanguageToggle (c : string) (prev : list string) : list string :=
  if Js.includes prev c then
    let next := List.filter (fun item => negb (bool_decide (item = c))) prev in
    match next with
    | [] => prev
    | _ => next
    end
  else prev ++ [c].

Definition toggleLanguage (c : string) (st : AppState) : AppState :=
  {| availableLanguages := availableLanguages st;
     selectedLanguages := handleLanguageToggle c (selectedLanguages st);
     jobs := jobs st;
     isImportingLanguage := isImportingLanguage st;
     languageCodeInput := languageCodeInput st;
     languageFile := languageFile st;
     fileMap := fileMap st;
     uuidDraws := uuidDraws st |}.

(** [handleLanguageImport()], from its call to its settlement. *)
Definition handleLanguageImport (env : Collaborators) (st : AppState) : AppState :=
  match languageFile st with
  | None => st
  | Some file =>
      if bool_decide (Js.trim (languageCodeInput st) = "") then st
      else
        match importLanguageFromFile env (Js.toLowerCase (languageCodeInput st)) file with
        | Resolved (c, p) =>
            let imported :=
              {| code := c; label := Js.toUpperCase c; path := p; builtIn := None |} in
            {| availableLanguages := availableLanguages st ++ [imported];
               selectedLanguages :=
                 if Js.includes (selectedLanguages st) c then selectedLanguages st
                 else selectedLanguages st ++ [c];
               jobs := jobs st;
               isImportingLanguage := false;
               languageCodeInput := "";
               languageFile := None;
               fileMap := fileMap st;
               uuidDraws := uuidDraws st |}
        | Rejected _ =>
            {| availableLanguages := availableLanguages st;
               selectedLanguages := selectedLanguages st;
               jobs := jobs st;
               isImportingLanguage := false;
               languageCodeInput := languageCodeInput st;
               languageFile := languageFile st;
               fileMap := fileMap st;
               uuidDraws := uuidDraws st |}
        end
  end.

(** *** Export text *)

Definition aggregatedText (job : OcrJob) : string :=
  (match extractedText job with
   | EmptyString => ""
   | extracted => Js.trim extracted +:+ Js.LF +:+ Js.LF
   end) +:+ combineSegments (segments job).

(** *** Notions used in the statements *)

(** What one write does to one job of the table. *)
Definition applyToJob (a : Action) (job : OcrJob) : OcrJob :=
  match a with
  | UpdateJob jobId partial =>
      if decide (id job = jobId) then spread job partial else job
  | AppendSegment jobId segment =>
      if decide (id job = jobId) then withSegment job segment else job
  | ReleaseFile _ => job
  end.

Definition jobAfter (acts : list Action) (job : OcrJob) : OcrJob :=
  foldl (fun j a => applyToJob a j) job acts.

(** The progress values of a job along a sequence of states. *)
Definition progressHistory (jobId : JobId) (states : list AppState) : list Q :=
  omap (fun st => progress <$> getJob jobId st) states.

Definition isResolved {A} (o : Outcome A) : bool :=
  match o with
  | Resolved _ => true
  | Rejected _ => false
  end.

Section Pages.

Variable env : Collaborators.
Variable languageList : list string.

(** How many pages, from the first on, are recognised before one fails. *)
Fixpoint recognizedCount (pages : list RenderedPage) : nat :=
  match pages with
  | [] => 0
  | page :: rest =>
      if isResolved (outcome (recognizeImage env (canvas page) languageList))
      then S (recognizedCount rest)
      else 0
  end.

(** The segments the loop appends for them. *)
Fixpoint recognizedSegments (index : nat) (pages : list RenderedPage)
  : list RecognizedSegment :=
  match pages with
  | [] => []
  | page :: rest =>
      match outcome (recognizeImage env (canvas page) languageList) with
      | Resolved result =>
          {| pageIndex := index;
             text := resultText result;
             confidence := resultConfidence result |}
          :: recognizedSegments (S index) rest
      | Rejected _ => []
      end
  end.

(** The duration warnings of [pages], the first of which has index
    [index]. *)
Fixpoint lateWarnings (index : nat) (pages : list RenderedPage) : list string :=
  match pages with
  | [] => []
  | page :: rest =>
      pushWarning []
        (durationWarning index
           (elapsed (recognizeImage env (canvas page) languageList)))
      ++ lateWarnings (S index) rest
  end.

(** Every page reports fractions between 0 and 1, in non-decreasing
    order. *)
Definition reportsFractions (pages : list RenderedPage) : Prop :=
  Forall (fun page =>
            let call := recognizeImage env (canvas page) languageList in
            Forall (fun q => 0 <= q /\ q <= 1)%Q (reported call)
            /\ StronglySorted Qle (reported call))
    pages.

End Pages.

(** The writes of one turn of the page loop: one per progress report, and
    the one that closes the page. *)
Definition callbackWrites (jobId : JobId) (total index : nat) (qs : list Q)
  : list Action :=
  map (fun progress =>
         UpdateJob jobId (progressPatch (pageProgress index progress total))) qs.

Definition pageDone (jobId : JobId) (total index : nat) (ws : list string)
  : Action :=
  UpdateJob jobId
    {| setStatus := None;
       setProgress := Some (ofNat (index + 1) / ofNat (orOne total))%Q;
       setError := None; setCompletedAt := None;
       setExtractedText := None;
       setWarnings := Some ws |}.

(** The three status writes of [processFile]. *)
Definition started : JobPatch :=
  {| setStatus := Some processing;
     setProgress := Some 0%Q;
     setError := Some None;
     setCompletedAt := None; setExtractedText := None;
     setWarnings := None |}.

Definition finished (now : nat) (extracted : string) (ws : list string) : JobPatch :=
  {| setStatus := Some completed;
     setProgress := Some 1%Q;
     setError := None;
     setCompletedAt := Some now;
     setExtractedText := Some extracted;
     setWarnings := Some ws |}.

Definition failed (e : Thrown) : JobPatch :=
  {| setStatus := Some error;
     setProgress := None;
     setError := Some (Some (errorMessage e));
     setCompletedAt := None; setExtractedText := None;
     setWarnings := None |}.

(** Ascending page index. *)
Definition indexLe (a b : RecognizedSegment) : Prop := pageIndex a <= pageIndex b.

(** The progress a write gives the job, if it sets it. *)
Definition progressSet (jobId : JobId) (a : Action) : option Q :=
  match a with
  | UpdateJob i partial => if decide (i = jobId) then setProgress partial else None
  | _ => None
  end.

(** Every progress written is at least [lo] and at least the one written
    before it. *)
Fixpoint ascending (jobId : JobId) (lo : Q) (acts : list Action) : Prop :=
  match acts with
  | [] => True
  | a :: rest =>
      match progressSet jobId a with
      | Some q => (lo <= q)%Q /\ ascending jobId q rest
      | None => ascending jobId lo rest
      end
  end.

(** The progress after the writes, [lo] being the progress before. *)
Fixpoint lastProgress (jobId : JobId) (lo : Q) (acts : list Action) : Q :=
  match acts with
  | [] => lo
  | a :: rest =>
      match progressSet jobId a with
      | Some q => lastProgress jobId q rest
      | None => lastProgress jobId lo rest
      end
  end.

(** A write that does not put a job back to [pending]. *)
Definition keepsStarted (a : Action) : Prop :=
  match a with
  | UpdateJob _ partial => setStatus partial <> Some pending
  | _ => True
  end.

(** The pages a file resolves to, when it does. *)
Definition documentPages (env : Collaborators) (file : File)
  : option (list RenderedPage * string * list string) :=
  match resolveDocument env file with
  | (_, Resolved r) => Some r
  | (_, Rejected _) => None
  end.

(** [Promise.all] over the [ensureLanguageCached] calls of a job resolves:
    every language pack it asks for is in the cache. *)
Definition languagesCached (env : Collaborators) (available : list LanguageOption)
  (job : OcrJob) : Prop :=
  isResolved
    (promiseAll (map (ensureLanguageCached env) (languageEntries available job)))
  = true.

(** *** Further notions *)

(** The job a write is for. *)
Definition targetOf (a : Action) : JobId :=
  match a with
  | UpdateJob jobId _ | AppendSegment jobId _ | ReleaseFile jobId => jobId
  end.

(** The status a write gives the job [jobId], if it sets it. *)
Definition statusSet (jobId : JobId) (a : Action) : option JobStatus :=
  match a with
  | UpdateJob i partial => if decide (i = jobId) then setStatus partial else None
  | _ => None
  end.

(** How far a status is along [pending], [processing], terminal. *)
Definition statusRank (s : JobStatus) : nat :=
  match s with
  | pending => 0
  | processing => 1
  | completed | error => 2
  end.

(** The statuses of a job along a sequence of states. *)
Definition statusHistory (jobId : JobId) (states : list AppState) : list JobStatus :=
  omap (fun st => status <$> getJob jobId st) states.

(** Every status written is at least as far along as [lo] and as the one
    written before it. *)
Fixpoint climbing (jobId : JobId) (lo : nat) (acts : list Action) : Prop :=
  match acts with
  | [] => True
  | a :: rest =>
      match statusSet jobId a with
      | Some s => lo <= statusRank s /\ climbing jobId (statusRank s) rest
      | None => climbing jobId lo rest
      end
  end.

(** The bookkeeping of ids: no two jobs share an id, every id in the table
    has been drawn, no file is held under an id that has not been drawn,
    and every pending job has its file. *)
Definition consistent (st : AppState) : Prop :=
  NoDup (map id (jobs st))
  /\ (forall job, job ∈ jobs st -> id job < uuidDraws st)
  /\ (forall k, uuidDraws st <= k -> fileMap st !! k = None)
  /\ (forall job, job ∈ jobs st -> status job = pending ->
        is_Some (fileMap st !! id job)).

(** The jobs [handleFiles] creates for the accepted files, the first
    accepted file first; [first] is the id drawn for it. *)
Definition admitted (selected : list string) (now : nat) (first : JobId)
  (accepted : list File) : list OcrJob :=
  imap (fun i file => pendingJob (first + i) selected file now) accepted.

(** [totalPending]: the number shown as "Processing n items". *)
Definition totalPending (js : list OcrJob) : nat :=
  length (filter (fun job => status job = processing) js).

End Home.

(** ** The service worker

    The [fetch] listener of the custom worker.  JavaScript runs one turn at
    a time, so several requests in flight interleave at the [await]s: a
    handler is a small state machine, and an [Event] is one turn.  The
    [cache.put] a handler starts is not awaited: the handler returns at
    once and the entry is written in a turn of its own, or never.  The
    cache storage itself is taken to work: [caches.open] and [cache.match]
    are resolved. *)

Module ServiceWorker.

Import Home.

Definition LANGUAGE_CACHE : string := "ocr-language-cache".

(** [event.request], a GET request as the loads of language packs are:
    its [url], under which the cache keeps and finds its response, and the
    [pathname] of [new URL(url)]. *)
Record Request := {
  url : string;
  pathname : string;
}.

Record Response := {
  body : string;
  statusCode : nat;
  statusText : string;
}.

#[global] Instance Response_eq_dec : EqDecision Response.
Proof. solve_decision. Defined.

(** What the page behind a [fetch] event receives from [respondWith]: the
    response the promise is resolved with, or a network error when the
    promise is rejected. *)
Inductive Reply :=
| Replied (response : Response)
| NetworkError.

#[global] Instance Reply_eq_dec : EqDecision Reply.
Proof. solve_decision. Defined.

(** A [statusText] the [Response] constructor accepts: a reason phrase,
    made of tabs, spaces and the characters U+0021 to U+007E and U+0080 to
    U+00FF (the bytes below are those of their encodings). *)
Fixpoint reasonPhrase (s : string) : bool :=
  match s with
  | EmptyString => true
  | String a s' =>
      let n := nat_of_ascii a in
      ((n =? 9) || ((32 <=? n) && (n <=? 126))
       || ((128 <=? n) && (n <=? 191)) || (n =? 194) || (n =? 195))%nat
      && reasonPhrase s'
  end.

(** The [catch] block: [new Response("Language data unavailable offline.",
    { status: 503, statusText })] with the message of the error as status
    text, the empty default when what was thrown is not an [Error].  The
    constructor throws a [TypeError] when the message is not a reason
    phrase; the handler's promise is then rejected. *)
Definition unavailable (e : Thrown) : Reply :=
  match e with
  | ErrorObject message =>
      if reasonPhrase message then
        Replied {| body := "Language data unavailable offline.";
                   statusCode := 503;
                   statusText := message |}
      else NetworkError
  | OtherValue =>
      Replied {| body := "Language data unavailable offline.";
                 statusCode := 503;
                 statusText := "" |}
  end.

(** Where the handler of one [fetch] event stands: not concerned, at one
    of its two [await]s, or returned -- with the cached response; with the
    response of the network, its [cache.put] being in flight ([Storing]),
    completed ([ReturnedFetched]) or rejected ([NotStored]); or from the
    [catch] block. *)
Inductive Handler :=
| Ignored (request : Request)
| Matching (request : Request)
| Fetching (request : Request)
| ReturnedCached (request : Request) (cached : Response)
| Storing (request : Request) (response : Response)
| ReturnedFetched (request : Request) (response : Response)
| NotStored (request : Request) (response : Response)
| ReturnedUnavailable (request : Request) (e : Thrown).

Definition requestOf (h : Handler) : Request :=
  match h with
  | Ignored request | Matching request | Fetching request
  | ReturnedCached request _ | Storing request _ | ReturnedFetched request _
  | NotStored request _ | ReturnedUnavailable request _ => request
  end.

(** The handler has called [fetch]. *)
Definition hasFetched (h : Handler) : bool :=
  match h with
  | Fetching _ | Storing _ _ | ReturnedFetched _ _ | NotStored _ _
  | ReturnedUnavailable _ _ => true
  | _ => false
  end.

(** The worker and what it shares between handlers: the content of the
    [ocr-language-cache] cache, keyed by request URL, the handlers in
    order of arrival, and the URLs handed to [fetch], in order. *)
Record World := {
  cache : gmap string Response;
  handlers : list Handler;
  fetches : list string;
}.

(** One turn of the event loop.  [Arrive]: a [fetch] event is dispatched
    to the listener.  [Lookup k]: [cache.match] of handler [k] completes
    and its continuation runs up to the next [await].  [Settle k o]: the
    [fetch] of handler [k] settles with [o] and its continuation runs to
    the end, starting [cache.put] when [o] is a response.  [Store k]: the
    [cache.put] of handler [k] has read the body and writes the entry; a
    partial response (status 206) is refused.  [StoreFails k]: that
    [cache.put] is rejected for another reason (the body cannot be read,
    the quota is exceeded); nobody listens. *)
Inductive Event :=
| Arrive (request : Request)
| Lookup (k : nat)
| Settle (k : nat) (o : Outcome Response)
| Store (k : nat)
| StoreFails (k : nat).

Definition arrive (request : Request) : Handler :=
  if Js.startsWith (pathname request) "/tesseract/" then Matching request
  else Ignored request.

Definition step (ev : Event) (w : World) : World :=
  match ev with
  | Arrive request =>
      {| cache := cache w;
         handlers := handlers w ++ [arrive request];
         fetches := fetches w |}
  | Lookup k =>
      match handlers w !! k with
      | Some (Matching request) =>
          match cache w !! url request with
          | Some cached =>
              {| cache := cache w;
                 handlers := <[k := ReturnedCached request cached]> (handlers w);
                 fetches := fetches w |}
          | None =>
              {| cache := cache w;
                 handlers := <[k := Fetching request]> (handlers w);
                 fetches := fetches w ++ [url request] |}
          end
      | _ => w
      end
  | Settle k o =>
      match handlers w !! k with
      | Some (Fetching request) =>
          match o with
          | Resolved response =>
              {| cache := cache w;
                 handlers := <[k := Storing request response]> (handlers w);
                 fetches := fetches w |}
          | Rejected e =>
              {| cache := cache w;
                 handlers := <[k := ReturnedUnavailable request e]> (handlers w);
                 fetches := fetches w |}
          end
      | _ => w
      end
  | Store k =>
      match handlers w !! k with
      | Some (Storing request response) =>
          if (statusCode response =? 206)%nat then
            {| cache := cache w;
               handlers := <[k := NotStored request response]> (handlers w);
               fetches := fetches w |}
          else
            {| cache := <[url request := response]> (cache w);
               handlers := <[k := ReturnedFetched request response]> (handlers w);
               fetches := fetches w |}
      | _ => w
      end
  | StoreFails k =>
      match handlers w !! k with
      | Some (Storing request response) =>
          {| cache := cache w;
             handlers := <[k := NotStored request response]> (handlers w);
             fetches := fetches w |}
      | _ => w
      end
  end.

Definition exec (events : list Event) (w : World) : World :=
  foldl (fun s ev => step ev s) w events.

(** The worker with no request in flight. *)
Definition idle (c : gmap string Response) : World :=
  {| cache := c; handlers := []; fetches := [] |}.

(** How many times [fetch] was called for a URL. *)
Definition fetchCount (u : string) (w : World) : nat :=
  length (List.filter (fun v => bool_decide (v = u)) (fetches w)).



(** What a handler has returned, and what the caller behind handler [k]
    has observed, once answered. *)
Definition returned (h : Handler) : option Reply :=
  match h with
  | ReturnedCached _ cached => Some (Replied cached)
  | Storing _ response | ReturnedFetched _ response | NotStored _ response =>
      Some (Replied response)
  | ReturnedUnavailable _ e => Some (unavailable e)
  | Ignored _ | Matching _ | Fetching _ => None
  end.

Definition observed (k : nat) (w : World) : option Reply :=
  match handlers w !! k with
  | Some h => returned h
  | None => None
  end.


(** The listener is concerned with the requests under [/tesseract/]. *)
Definition concerned (request : Request) : bool :=
  Js.startsWith (pathname request) "/tesseract/".

(** What the worker has done stays within these requests: a handler is
    [Ignored] exactly when its request is not concerned, every URL fetched
    is the URL of a handler that has fetched, and the cache differs from
    the initial content [c] only where a handler has stored the response
    it fetched. *)
Definition withinScope (c : gmap string Response) (w : World) : Prop :=
  Forall (fun h =>
            match h with
            | Ignored request => concerned request = false
            | _ => concerned (requestOf h) = true
            end)
    (handlers w)
  /\ (forall u, u ∈ fetches w ->
        exists k h,
          handlers w !! k = Some h /\ hasFetched h = true
          /\ url (requestOf h) = u)
  /\ (forall u,
        cache w !! u = c !! u
        \/ exists k request response,
             handlers w !! k = Some (ReturnedFetched request response)
             /\ url request = u).

End ServiceWorker.


(** * Sample inputs *)

Module Samples.

Import Home.

Definition eng : LanguageOption :=
  {| code := "eng"; label := "English";
     path := "/tesseract/eng.traineddata.gz"; builtIn := Some true |}.

(** A paginated document of three pages, one of two pages, an empty one,
    and a plain-text file. *)
Definition threePages : File :=
  {| fileName := "scan.pdf"; fileType := "application/pdf";
     fileSize := 4096; blob := 3 |}.

Definition twoPages : File :=
  {| fileName := "letter.pdf"; fileType := "application/pdf";
     fileSize := 2048; blob := 2 |}.

Definition blank : File :=
  {| fileName := "blank.pdf"; fileType := "application/pdf";
     fileSize := 128; blob := 0 |}.

Definition notes : File :=
  {| fileName := "notes.txt"; fileType := "text/plain";
     fileSize := 64; blob := 9 |}.

(** Collaborators: a decoder that renders [blob] pages, and an engine that
    reads "Hello" on canvas 0 and "World" on canvas 1 and fails on any
    other canvas; the second page of the three-page document is on
    canvas 2. *)
(** A language pack that is in the cache. *)
Definition cached : Timed unit :=
  {| settlesAt := 5; settlement := Resolved tt |}.

Definition pagesOf (file : File) : list RenderedPage :=
  match blob file with
  | 3 => [ {| canvas := 0 |}; {| canvas := 2 |}; {| canvas := 1 |} ]
  | 2 => [ {| canvas := 0 |}; {| canvas := 1 |} ]
  | _ => []
  end.

Definition engine (c : Canvas) (langs : list string) : Recognition :=
  match c with
  | 0 => {| reported := [1 # 2; 1]%Q;
            outcome := Resolved {| resultText := "Hello";
                                   resultConfidence := 962 # 10 |};
            elapsed := 120 |}
  | 1 => {| reported := [1 # 4; 3 # 4; 1]%Q;
            outcome := Resolved {| resultText := "World";
                                   resultConfidence := 91 |};
            elapsed := 95 |}
  | _ => {| reported := [1 # 4]%Q;
            outcome := Rejected (ErrorObject "engine failure");
            elapsed := 40 |}
  end.

Definition collaborators : Collaborators :=
  {| ensureLanguageCached := fun _ => cached;
     importLanguageFromFile := fun c _ => Resolved (c, "/tesseract/" +:+ c);
     processImageFile := fun file => Resolved (pagesOf file);
     processPdfFile := fun file => Resolved (pagesOf file);
     extractDocxText := fun _ => Resolved "";
     extractDocxImages := fun _ => Resolved [];
     blobsToRenderedPages := fun _ => Resolved [];
     recognizeImage := engine |}.

(** No network and an empty cache: no language pack can be cached. *)
Definition offline : Collaborators :=
  {| ensureLanguageCached := fun _ =>
       {| settlesAt := 30; settlement := Rejected (ErrorObject "Failed to fetch") |};
     importLanguageFromFile := fun c _ => Resolved (c, "/tesseract/" +:+ c);
     processImageFile := fun file => Resolved (pagesOf file);
     processPdfFile := fun file => Resolved (pagesOf file);
     extractDocxText := fun _ => Resolved "";
     extractDocxImages := fun _ => Resolved [];
     blobsToRenderedPages := fun _ => Resolved [];
     recognizeImage := engine |}.

(** Two packs that cannot be cached: the server answers for the German
    pack, asked for second, before the request for the English pack times
    out. *)
Definition deu : LanguageOption :=
  {| code := "deu"; label := "German";
     path := "/tesseract/deu.traineddata.gz"; builtIn := Some true |}.

Definition flaky : Collaborators :=
  {| ensureLanguageCached := fun language =>
       if bool_decide (code language = "eng")
       then {| settlesAt := 30;
               settlement := Rejected (ErrorObject "eng: timed out") |}
       else {| settlesAt := 10;
               settlement := Rejected (ErrorObject "deu: not found") |};
     importLanguageFromFile := fun c _ => Resolved (c, "/tesseract/" +:+ c);
     processImageFile := fun file => Resolved (pagesOf file);
     processPdfFile := fun file => Resolved (pagesOf file);
     extractDocxText := fun _ => Resolved "";
     extractDocxImages := fun _ => Resolved [];
     blobsToRenderedPages := fun _ => Resolved [];
     recognizeImage := engine |}.

(** A decoder that cannot read paginated documents. *)
Definition unreadable : Collaborators :=
  {| ensureLanguageCached := fun _ => cached;
     importLanguageFromFile := fun c _ => Resolved (c, "/tesseract/" +:+ c);
     processImageFile := fun file => Resolved (pagesOf file);
     processPdfFile := fun _ => Rejected (ErrorObject "Invalid PDF structure");
     extractDocxText := fun _ => Resolved "";
     extractDocxImages := fun _ => Resolved [];
     blobsToRenderedPages := fun _ => Resolved [];
     recognizeImage := engine |}.

(** A Word document with text and no picture, and its decoder; the text
    has a no-break space and a space in front, and a space, an em space
    and a line feed behind. *)
Definition memo : File :=
  {| fileName := "memo.docx"; fileType := ""; fileSize := 700; blob := 0 |}.

Definition greeting : string :=
  Js.ofBytes [194; 160] +:+ " Dear all, " +:+ Js.ofBytes [226; 128; 131; 10].

Definition textOnly : Collaborators :=
  {| ensureLanguageCached := fun _ => cached;
     importLanguageFromFile := fun c _ => Resolved (c, "/tesseract/" +:+ c);
     processImageFile := fun file => Resolved (pagesOf file);
     processPdfFile := fun file => Resolved (pagesOf file);
     extractDocxText := fun _ => Resolved greeting;
     extractDocxImages := fun _ => Resolved [];
     blobsToRenderedPages := fun _ => Resolved [];
     recognizeImage := engine |}.

(** An engine that needs 15 seconds for canvas 0 and 16.45 seconds for
    the others. *)
Definition slow : Collaborators :=
  {| ensureLanguageCached := fun _ => cached;
     importLanguageFromFile := fun c _ => Resolved (c, "/tesseract/" +:+ c);
     processImageFile := fun file => Resolved (pagesOf file);
     processPdfFile := fun file => Resolved (pagesOf file);
     extractDocxText := fun _ => Resolved "";
     extractDocxImages := fun _ => Resolved [];
     blobsToRenderedPages := fun _ => Resolved [];
     recognizeImage := fun c _ =>
       {| reported := [1%Q];
          outcome := Resolved {| resultText := "Hello";
                                 resultConfidence := 90 |};
          elapsed := match c with 0 => 15000 | _ => 16450 end |} |}.

(** An engine whose progress reports go backwards. *)
Definition erratic : Collaborators :=
  {| ensureLanguageCached := fun _ => cached;
     importLanguageFromFile := fun c _ => Resolved (c, "/tesseract/" +:+ c);
     processImageFile := fun file => Resolved (pagesOf file);
     processPdfFile := fun file => Resolved (pagesOf file);
     extractDocxText := fun _ => Resolved "";
     extractDocxImages := fun _ => Resolved [];
     blobsToRenderedPages := fun _ => Resolved [];
     recognizeImage := fun _ _ =>
       {| reported := [8 # 10; 2 # 10]%Q;
          outcome := Resolved {| resultText := "Hello";
                                 resultConfidence := 962 # 10 |};
          elapsed := 120 |} |}.

(** A Word document whose name has no extension. *)
Definition report : File :=
  {| fileName := "report";
     fileType :=
       "application/vnd.openxmlformats-officedocument.wordprocessingml.document";
     fileSize := 900; blob := 0 |}.

(** A language pack picked in the import form, and the form filled in
    with the code of a language that is already registered. *)
Definition pack : File :=
  {| fileName := "eng.traineddata"; fileType := "";
     fileSize := 512; blob := 7 |}.

Definition importing : AppState :=
  {| availableLanguages := [eng];
     selectedLanguages := ["eng"];
     jobs := [];
     isImportingLanguage := false;
     languageCodeInput := "ENG";
     languageFile := Some pack;
     fileMap := ∅;
     uuidDraws := 0 |}.

(** The same form filled in with a code that is not registered. *)
Definition importingJpn : AppState :=
  {| availableLanguages := [eng];
     selectedLanguages := ["eng"];
     jobs := [];
     isImportingLanguage := false;
     languageCodeInput := "JPN";
     languageFile := Some pack;
     fileMap := ∅;
     uuidDraws := 0 |}.

(** A state with no language selected; no sequence of toggles and imports
    leads to it. *)
Definition unselected : AppState :=
  {| availableLanguages := [eng];
     selectedLanguages := [];
     jobs := [];
     isImportingLanguage := false;
     languageCodeInput := "";
     languageFile := None;
     fileMap := ∅;
     uuidDraws := 0 |}.

(** The request for the English pack and a response carrying it. *)
Definition engRequest : ServiceWorker.Request :=
  {| ServiceWorker.url := "https://ocr.example/tesseract/eng.traineddata.gz";
     ServiceWorker.pathname := "/tesseract/eng.traineddata.gz" |}.

Definition engPack : ServiceWorker.Response :=
  {| ServiceWorker.body := "traineddata";
     ServiceWorker.statusCode := 200;
     ServiceWorker.statusText := "OK" |}.

(** The state after dropping one file on the fresh component. *)
Definition dropped (file : File) : AppState :=
  handleFiles (initialState [eng]) (Some [file]) 1000.

(** The same with English and German registered and selected. *)
Definition bilingual (file : File) : AppState :=
  handleFiles (toggleLanguage "deu" (initialState [eng; deu])) (Some [file]) 1000.

End Samples.

(** * Properties of the job orchestrator *)

Module JobFacts.

Import Home.

(** ** Writes, seen from one job *)

Lemma id_applyToJob a job : id (applyToJob a job) = id job.
Proof. destruct a; simpl; try case_decide; reflexivity. Qed.

Lemma id_jobAfter acts job : id (jobAfter acts job) = id job.
Proof.
  revert job; induction acts as [|a acts IH]; intros job; simpl; [reflexivity|].
  unfold jobAfter in *. simpl. rewrite IH. apply id_applyToJob.
Qed.

Lemma jobAfter_app acts1 acts2 job :
  jobAfter (acts1 ++ acts2) job = jobAfter acts2 (jobAfter acts1 job).
Proof. unfold jobAfter. apply foldl_app. Qed.

Lemma jobAfter_cons a acts job :
  jobAfter (a :: acts) job = jobAfter acts (applyToJob a job).
Proof. reflexivity. Qed.

Lemma jobs_applyAction a st :
  jobs (applyAction a st) = map (applyToJob a) (jobs st).
Proof.
  destruct a; simpl; unfold updateJob, appendSegment; try reflexivity.
  symmetry. apply map_id.
Qed.

Lemma jobs_finalState acts st :
  jobs (finalState acts st) = map (jobAfter acts) (jobs st).
Proof.
  revert st; induction acts as [|a acts IH]; intros st.
  - simpl. symmetry. apply map_id.
  - change (finalState (a :: acts) st) with (finalState acts (applyAction a st)).
    rewrite IH, jobs_applyAction, map_map. reflexivity.
Qed.

Lemma findJob_map (f : OcrJob -> OcrJob) jobId js :
  (forall j, id (f j) = id j) ->
  findJob jobId (map f js) = f <$> findJob jobId js.
Proof.
  intros Hid. unfold findJob.
  induction js as [|j js IH]; simpl; [reflexivity|].
  rewrite Hid. destruct (bool_decide (id j = jobId)); [reflexivity|apply IH].
Qed.

Lemma getJob_applyAction a jobId st :
  getJob jobId (applyAction a st) = applyToJob a <$> getJob jobId st.
Proof.
  unfold getJob. rewrite jobs_applyAction.
  apply findJob_map. intros j; apply id_applyToJob.
Qed.

Lemma getJob_finalState acts jobId st :
  getJob jobId (finalState acts st) = jobAfter acts <$> getJob jobId st.
Proof.
  unfold getJob. rewrite jobs_finalState.
  apply findJob_map. intros j; apply id_jobAfter.
Qed.

Lemma findJob_id jobId js job : findJob jobId js = Some job -> id job = jobId.
Proof.
  unfold findJob. intros H. apply find_some in H as [_ H].
  apply bool_decide_eq_true in H. exact H.
Qed.

Lemma fileMap_finalState_updates acts st :
  (forall a, a ∈ acts -> forall j, a <> ReleaseFile j) ->
  fileMap (finalState acts st) = fileMap st.
Proof.
  revert st; induction acts as [|a acts IH]; intros st Hno; [reflexivity|].
  change (finalState (a :: acts) st) with (finalState acts (applyAction a st)).
  rewrite IH.
  - destruct a; simpl; try reflexivity.
    exfalso. eapply (Hno (ReleaseFile jobId)); [left|reflexivity].
  - intros b Hb. apply Hno. right. exact Hb.
Qed.

Lemma finalState_app acts1 acts2 st :
  finalState (acts1 ++ acts2) st = finalState acts2 (finalState acts1 st).
Proof. unfold finalState. apply foldl_app. Qed.

(** ** The page loop *)

Lemma pushWarning_app ws w : pushWarning ws w = ws ++ pushWarning [] w.
Proof. destruct w; simpl; [reflexivity|]. rewrite app_nil_r. reflexivity. Qed.

Section PageLoop.

Variable env : Collaborators.
Variable jobId : JobId.
Variable languageList : list string.
Variable total : nat.

(** One turn of the loop, with the [await]s unfolded. *)
Lemma recognizePages_cons index page rest ws :
  recognizePages env jobId languageList total index (page :: rest) ws =
  let call := recognizeImage env (canvas page) languageList in
  match outcome call with
  | Rejected e => (callbackWrites jobId total index (reported call), Rejected e)
  | Resolved result =>
      let ws' := pushWarning ws (durationWarning index (elapsed call)) in
      let '(acts, r) :=
        recognizePages env jobId languageList total (S index) rest ws' in
      (callbackWrites jobId total index (reported call)
         ++ AppendSegment jobId
              {| pageIndex := index;
                 text := resultText result;
                 confidence := resultConfidence result |}
         :: pageDone jobId total index ws' :: acts, r)
  end.
Proof.
  cbn [recognizePages]. unfold bind, emitAll, emit, await, callbackWrites, pageDone.
  cbv zeta.
  destruct (outcome (recognizeImage env (canvas page) languageList)) as [result|e].
  - destruct (recognizePages env jobId languageList total (S index) rest _)
      as [acts r]. reflexivity.
  - rewrite app_nil_r. reflexivity.
Qed.

Lemma jobAfter_callbackWrites index qs job :
  let job' := jobAfter (callbackWrites jobId total index qs) job in
  segments job' = segments job /\ status job' = status job
  /\ error_ job' = error_ job /\ warnings job' = warnings job
  /\ extractedText job' = extractedText job
  /\ completedAt job' = completedAt job.
Proof.
  revert job; induction qs as [|q qs IH]; intros job; [simpl; tauto|].
  cbn zeta. unfold callbackWrites. cbn [map]. rewrite jobAfter_cons.
  fold (callbackWrites jobId total index qs).
  destruct (IH (applyToJob
    (UpdateJob jobId (progressPatch (pageProgress index q total))) job))
    as (-> & -> & -> & -> & -> & ->).
  simpl. case_decide; simpl; tauto.
Qed.

Lemma recognizedSegments_indices index pages :
  map pageIndex (recognizedSegments env languageList index pages)
  = seq index (recognizedCount env languageList pages).
Proof.
  revert index; induction pages as [|page rest IH]; intros index; simpl.
  - reflexivity.
  - destruct (outcome (recognizeImage env (canvas page) languageList)); simpl.
    + rewrite IH. reflexivity.
    + reflexivity.
Qed.

Lemma recognizedCount_le pages :
  recognizedCount env languageList pages <= length pages.
Proof.
  induction pages as [|page rest IH]; simpl; [lia|].
  destruct (isResolved _); lia.
Qed.

(** What the loop has done to the job when it settles: the segments of the
    pages recognised before the first failure are appended, the warnings
    are those of the last finished page, and nothing else than progress
    has changed. *)
Lemma recognizePages_effect pages : forall index ws job,
  id job = jobId ->
  exists acts r,
    recognizePages env jobId languageList total index pages ws = (acts, r)
    /\ (forall a, a ∈ acts -> forall j, a <> ReleaseFile j)
    /\ let job' := jobAfter acts job in
       let n := recognizedCount env languageList pages in
       segments job' = segments job ++ recognizedSegments env languageList index pages
       /\ status job' = status job
       /\ error_ job' = error_ job
       /\ extractedText job' = extractedText job
       /\ completedAt job' = completedAt job
       /\ warnings job' =
            match n with
            | O => warnings job
            | _ => ws ++ lateWarnings env languageList index (take n pages)
            end
       /\ match r with
          | Resolved ws' =>
              n = length pages
              /\ ws' = ws ++ lateWarnings env languageList index pages
          | Rejected e =>
              exists page,
                pages !! n = Some page
                /\ outcome (recognizeImage env (canvas page) languageList)
                   = Rejected e
          end.
Proof.
  induction pages as [|page rest IH]; intros index ws job Hid.
  - exists [], (Resolved ws). simpl. rewrite !app_nil_r.
    repeat split; try reflexivity. intros a Ha. inversion Ha.
  - rewrite recognizePages_cons. cbv zeta.
    cbn [recognizedCount recognizedSegments lateWarnings].
    destruct (outcome (recognizeImage env (canvas page) languageList))
      as [result|e] eqn:Hout.
    + set (ws' := pushWarning ws (durationWarning index
                    (elapsed (recognizeImage env (canvas page) languageList)))).
      set (seg := {| pageIndex := index; text := resultText result;
                     confidence := resultConfidence result |}).
      pose proof (jobAfter_callbackWrites index
                    (reported (recognizeImage env (canvas page) languageList)) job)
        as (Hs0 & Hst0 & He0 & Hw0 & Ht0 & Hc0).
      pose proof (id_jobAfter (callbackWrites jobId total index
                    (reported (recognizeImage env (canvas page) languageList)))
                    job) as Hid0.
      rewrite Hid in Hid0.
      set (job0 := jobAfter (callbackWrites jobId total index
                    (reported (recognizeImage env (canvas page) languageList)))
                    job) in *.
      set (job1 := applyToJob (pageDone jobId total index ws')
                     (applyToJob (AppendSegment jobId seg) job0)).
      assert (Hj1 : segments job1 = segments job ++ [seg]
                    /\ status job1 = status job /\ error_ job1 = error_ job
                    /\ extractedText job1 = extractedText job
                    /\ completedAt job1 = completedAt job
                    /\ warnings job1 = ws' /\ id job1 = jobId).
      { clearbody job0. unfold job1, pageDone. cbn [applyToJob].
        destruct (decide (id job0 = jobId)) as [_|Hne]; [|congruence].
        cbn [id withSegment].
        destruct (decide (id job0 = jobId)) as [_|Hne]; [|congruence].
        simpl. rewrite Hs0, Hst0, He0, Ht0, Hc0. tauto. }
      destruct Hj1 as (Hs1 & Hst1 & He1 & Ht1 & Hc1 & Hw1 & Hid1).
      destruct (IH (S index) ws' job1 Hid1)
        as (acts & r & Heq & Hrel & Hseg & Hst & Herr & Htxt & Hcmp & Hw & Hr).
      rewrite Heq. eexists _, r. split; [reflexivity|].
      split.
      { intros a Ha j. apply elem_of_app in Ha as [Ha|Ha].
        - unfold callbackWrites in Ha. apply list_elem_of_fmap in Ha as (q & -> & _).
          discriminate.
        - apply elem_of_cons in Ha as [->|Ha]; [discriminate|].
          apply elem_of_cons in Ha as [->|Ha]; [discriminate|].
          apply Hrel. exact Ha. }
      cbv zeta. rewrite jobAfter_app, !jobAfter_cons. fold job0. fold job1.
      rewrite Hseg, Hst, Herr, Htxt, Hcmp, Hw, Hs1, Hst1, He1, Ht1, Hc1, Hw1.
      cbn [isResolved take length].
      rewrite <- app_assoc. cbn [app].
      repeat split; try reflexivity.
      * unfold ws'. rewrite pushWarning_app.
        destruct (recognizedCount env languageList rest) as [|n'] eqn:Hn.
        -- simpl. rewrite app_nil_r. reflexivity.
        -- rewrite <- app_assoc. reflexivity.
      * destruct r as [wsr|e].
        -- destruct Hr as [Hn ->]. split; [congruence|].
           unfold ws'. rewrite (pushWarning_app ws), <- app_assoc. reflexivity.
        -- exact Hr.
    + eexists _, (Rejected e). split; [reflexivity|].
      split.
      { intros a Ha j. unfold callbackWrites in Ha.
        apply list_elem_of_fmap in Ha as (q & -> & _). discriminate. }
      cbv zeta.
      destruct (jobAfter_callbackWrites index
                  (reported (recognizeImage env (canvas page) languageList)) job)
        as (Hs0 & Hst0 & He0 & Hw0 & Ht0 & Hc0).
      rewrite Hs0, Hst0, He0, Hw0, Ht0, Hc0, app_nil_r.
      cbn [isResolved]. repeat split; try reflexivity.
      exists page. split; [reflexivity|exact Hout].
Qed.

End PageLoop.

(** ** A run of the driver *)

Section Run.

Variable env : Collaborators.

Lemma languagesCached_all available job :
  languagesCached env available job ->
  exists r,
    promiseAll (map (ensureLanguageCached env) (languageEntries available job))
    = Resolved r.
Proof.
  unfold languagesCached.
  destruct (promiseAll _) as [r|e]; [eauto|discriminate].
Qed.

(** Resolving the document writes nothing to the state. *)
Lemma resolveDocument_silent file : fst (resolveDocument env file) = [].
Proof.
  unfold resolveDocument, bind, await, ret, throw.
  repeat match goal with
         | |- context [if ?b then _ else _] => destruct b
         | |- context [match ?o with Resolved _ => _ | Rejected _ => _ end] =>
             destruct o
         | |- context [match ?l with [] => _ | _ :: _ => _ end] => destruct l
         end; reflexivity.
Qed.

Lemma documentPages_resolve file r :
  documentPages env file = Some r -> resolveDocument env file = ([], Resolved r).
Proof.
  unfold documentPages. pose proof (resolveDocument_silent file) as Hs.
  destruct (resolveDocument env file) as [w [r'|e]]; simpl in *; subst;
    congruence.
Qed.

(** The writes of a run whose language packs are cached and whose document
    resolves. *)
Lemma run_writes st now jobId job file canvases extracted ws0 :
  getJob jobId st = Some job ->
  fileMap st !! jobId = Some file ->
  languagesCached env (availableLanguages st) job ->
  documentPages env file = Some (canvases, extracted, ws0) ->
  exists acts r,
    recognizePages env jobId (languages job) (length canvases) 0 canvases
      (noteEmptyContent canvases extracted ws0) = (acts, r)
    /\ run env st now jobId =
       UpdateJob jobId started
       :: acts
       ++ match r with
          | Resolved ws => [UpdateJob jobId (finished now extracted ws)]
          | Rejected e => [UpdateJob jobId (failed e)]
          end
       ++ [ReleaseFile jobId].
Proof.
  intros Hjob Hfile Hlang Hdoc.
  unfold run, processFile. unfold getJob in Hjob. rewrite Hjob, Hfile.
  pose proof (findJob_id _ _ _ Hjob) as Hid.
  destruct (languagesCached_all _ _ Hlang) as [u Hu].
  apply documentPages_resolve in Hdoc.
  unfold tryBlock. rewrite Hu, Hdoc, Hid.
  destruct (recognizePages env jobId (languages job) (length canvases) 0 canvases
              (noteEmptyContent canvases extracted ws0)) as [acts r] eqn:Hrec.
  exists acts, r. split; [reflexivity|].
  unfold bind, await, emit, tryCatchFinally. simpl. rewrite Hrec.
  destruct r as [ws|e]; simpl.
  - rewrite <- app_assoc. reflexivity.
  - reflexivity.
Qed.

(** Where such a run leaves the job: every page recognised and the job
    [completed], or the job in [error] at the first page that fails. *)
Lemma run_outcome st now jobId job file canvases extracted ws0 :
  getJob jobId st = Some job ->
  fileMap st !! jobId = Some file ->
  languagesCached env (availableLanguages st) job ->
  documentPages env file = Some (canvases, extracted, ws0) ->
  let st' := finalState (run env st now jobId) st in
  let ws := noteEmptyContent canvases extracted ws0 in
  let n := recognizedCount env (languages job) canvases in
  exists final,
    getJob jobId st' = Some final
    /\ fileMap st' !! jobId = None
    /\ segments final
       = segments job ++ recognizedSegments env (languages job) 0 canvases
    /\ ((n = length canvases
         /\ status final = completed
         /\ progress final = 1%Q
         /\ warnings final = ws ++ lateWarnings env (languages job) 0 canvases
         /\ extractedText final = extracted
         /\ completedAt final = Some now
         /\ error_ final = None)
        \/ (exists page e,
              canvases !! n = Some page
              /\ outcome (recognizeImage env (canvas page) (languages job))
                 = Rejected e
              /\ status final = error
              /\ error_ final = Some (errorMessage e)
              /\ warnings final =
                   match n with
                   | O => warnings job
                   | _ => ws ++ lateWarnings env (languages job) 0 (take n canvases)
                   end
              /\ extractedText final = extractedText job
              /\ completedAt final = completedAt job)).
Proof.
  intros Hjob Hfile Hlang Hdoc. cbv zeta.
  destruct (run_writes st now jobId job file canvases extracted ws0
              Hjob Hfile Hlang Hdoc) as (acts & r & Hrec & ->).
  pose proof (findJob_id _ _ _ Hjob) as Hid.
  set (job0 := applyToJob (UpdateJob jobId started) job).
  assert (Hid0 : id job0 = jobId) by (unfold job0; rewrite id_applyToJob; exact Hid).
  destruct (recognizePages_effect env jobId (languages job) (length canvases)
              canvases 0 (noteEmptyContent canvases extracted ws0) job0 Hid0)
    as (acts' & r' & Hrec' & Hrel & Hseg & Hst & Herr & Htxt & Hcmp & Hw & Hr).
  rewrite Hrec in Hrec'. injection Hrec' as <- <-.
  assert (Hj0 : segments job0 = segments job /\ warnings job0 = warnings job
                /\ extractedText job0 = extractedText job
                /\ completedAt job0 = completedAt job /\ error_ job0 = None).
  { unfold job0. simpl. destruct (decide (id job = jobId)); [|congruence].
    simpl. tauto. }
  destruct Hj0 as (Hs0 & Hw0 & Ht0 & Hc0 & He0).
  set (last := match r with
               | Resolved ws => [UpdateJob jobId (finished now extracted ws)]
               | Rejected e => [UpdateJob jobId (failed e)]
               end).
  exists (jobAfter last (jobAfter acts job0)). split; [|split].
  - rewrite getJob_finalState, Hjob. cbn [fmap option_fmap option_map].
    rewrite jobAfter_cons. fold job0.
    rewrite !jobAfter_app. reflexivity.
  - change (UpdateJob jobId started :: acts ++ last ++ [ReleaseFile jobId])
      with ((UpdateJob jobId started :: acts) ++ last ++ [ReleaseFile jobId]).
    rewrite app_assoc, finalState_app. simpl. apply lookup_delete_eq.
  - pose proof (id_jobAfter acts job0) as Hid1. rewrite Hid0 in Hid1.
    set (job1 := jobAfter acts job0) in *. clearbody job1.
    unfold last. destruct r as [ws|e].
    + destruct Hr as [Hn ->]. simpl.
      destruct (decide (id job1 = jobId)); [|congruence]. simpl.
      split; [rewrite Hseg, Hs0; reflexivity|].
      left. rewrite Herr, He0. tauto.
    + destruct Hr as (page & Hpage & Hout). simpl.
      destruct (decide (id job1 = jobId)); [|congruence]. simpl.
      split; [rewrite Hseg, Hs0; reflexivity|].
      right. exists page, e. rewrite Hw, Hw0, Htxt, Ht0, Hcmp, Hc0. tauto.
Qed.

End Run.

(** ** [combineSegments]: the order of display and export *)

Lemma insertSegment_perm s l : Permutation (insertSegment s l) (s :: l).
Proof.
  induction l as [|h t IH]; simpl; [reflexivity|].
  destruct (compareSegments s h <=? 0)%Z; [reflexivity|].
  rewrite IH. apply perm_swap.
Qed.

Lemma sortSegments_perm l : Permutation (sortSegments l) l.
Proof.
  induction l as [|s l IH]; simpl; [reflexivity|].
  rewrite insertSegment_perm. apply perm_skip. exact IH.
Qed.

Lemma insertSegment_sorted s l :
  StronglySorted indexLe l -> StronglySorted indexLe (insertSegment s l).
Proof.
  induction l as [|h t IH]; intros Hl; simpl.
  - constructor; constructor.
  - apply StronglySorted_inv in Hl as [Ht Hh].
    unfold compareSegments.
    destruct (Z.leb_spec (Z.of_nat (pageIndex s) - Z.of_nat (pageIndex h)) 0)
      as [Hle|Hgt].
    + constructor; [constructor; assumption|].
      constructor; [unfold indexLe; lia|].
      eapply Forall_impl; [exact Hh|]. unfold indexLe. simpl. intros; lia.
    + constructor; [apply IH; exact Ht|].
      eapply Permutation_Forall; [symmetry; apply insertSegment_perm|].
      constructor; [unfold indexLe; lia|exact Hh].
Qed.

Lemma sortSegments_sorted l : StronglySorted indexLe (sortSegments l).
Proof.
  induction l as [|s l IH]; simpl; [constructor|].
  apply insertSegment_sorted. exact IH.
Qed.

Lemma same_index_same_segment (l : list RecognizedSegment) x y :
  NoDup (map pageIndex l) -> x ∈ l -> y ∈ l -> pageIndex x = pageIndex y -> x = y.
Proof.
  induction l as [|h t IH]; intros Hnd Hx Hy Heq; [inversion Hx|].
  simpl in Hnd. apply NoDup_cons in Hnd as [Hh Hnd].
  apply elem_of_cons in Hx as [->|Hx]; apply elem_of_cons in Hy as [->|Hy].
  - reflexivity.
  - exfalso. apply Hh. rewrite Heq. apply list_elem_of_fmap. eauto.
  - exfalso. apply Hh. rewrite <- Heq. apply list_elem_of_fmap. eauto.
  - apply IH; assumption.
Qed.

(** With distinct page indices there is one ascending arrangement. *)
Lemma sorted_arrangement_unique (l1 l2 : list RecognizedSegment) :
  NoDup (map pageIndex l1) ->
  StronglySorted indexLe l1 -> StronglySorted indexLe l2 ->
  Permutation l1 l2 -> l1 = l2.
Proof.
  intros Hnd H1 H2 Hp.
  apply (StronglySorted_unique_strong indexLe); try assumption.
  intros x1 x2 Hx1 Hx2 Hle Hge.
  apply (same_index_same_segment l1); try assumption.
  - rewrite Hp. exact Hx2.
  - unfold indexLe in *. lia.
Qed.

Lemma indices_seq_sorted (l : list RecognizedSegment) : forall a n,
  map pageIndex l = seq a n -> StronglySorted indexLe l.
Proof.
  induction l as [|x t IH]; intros a n Hmap; [constructor|].
  destruct n as [|n]; [discriminate|]. simpl in Hmap.
  injection Hmap as Hx Ht. constructor; [eapply IH; exact Ht|].
  apply Forall_forall. intros y Hy. unfold indexLe.
  assert (Hin : pageIndex y ∈ seq (S a) n).
  { rewrite <- Ht. apply list_elem_of_fmap. eauto. }
  apply elem_of_seq in Hin. lia.
Qed.

Lemma seq_strictly_ascending a n : StronglySorted lt (seq a n).
Proof.
  revert a; induction n as [|n IH]; intros a; simpl; constructor; [apply IH|].
  apply Forall_forall. intros k Hk. apply elem_of_seq in Hk. lia.
Qed.

(** Segments that carry the indices [a], [a+1], ... in this order are
    shown in this order, whatever the order they arrived in. *)
Lemma sortSegments_arrival (segs arrival : list RecognizedSegment) a n :
  map pageIndex segs = seq a n ->
  Permutation arrival segs ->
  sortSegments arrival = segs.
Proof.
  intros Hmap Hp. symmetry. apply sorted_arrangement_unique.
  - rewrite Hmap. apply NoDup_seq.
  - eapply indices_seq_sorted. exact Hmap.
  - apply sortSegments_sorted.
  - rewrite sortSegments_perm. symmetry. exact Hp.
Qed.

(** ** The first page that fails *)

Section FirstFailure.

Variable env : Collaborators.
Variable languageList : list string.

Lemma recognizedCount_first_failure (pages : list RenderedPage) : forall k page e,
  pages !! k = Some page ->
  outcome (recognizeImage env (canvas page) languageList) = Rejected e ->
  (forall i p, i < k -> pages !! i = Some p ->
     isResolved (outcome (recognizeImage env (canvas p) languageList)) = true) ->
  recognizedCount env languageList pages = k.
Proof.
  induction pages as [|p0 rest IH]; intros k page e Hk Hout Hbefore.
  - inversion Hk.
  - destruct k as [|k]; simpl in *.
    + injection Hk as ->. rewrite Hout. reflexivity.
    + rewrite (Hbefore 0 p0) by (try lia; reflexivity).
      f_equal. apply (IH k page e); try assumption.
      intros i p Hi Hp. apply (Hbefore (S i) p); [lia|exact Hp].
Qed.

Lemma recognizedSegments_lookup (pages : list RenderedPage) : forall index i p r,
  i < recognizedCount env languageList pages ->
  pages !! i = Some p ->
  outcome (recognizeImage env (canvas p) languageList) = Resolved r ->
  recognizedSegments env languageList index pages !! i
  = Some {| pageIndex := index + i;
            text := resultText r;
            confidence := resultConfidence r |}.
Proof.
  induction pages as [|p0 rest IH]; intros index i p r Hi Hp Hout.
  - inversion Hp.
  - simpl in Hi. simpl.
    destruct (outcome (recognizeImage env (canvas p0) languageList))
      as [r0|e0] eqn:H0; simpl in Hi; [|lia].
    destruct i as [|i]; simpl in *.
    + injection Hp as ->. rewrite Hout in H0. injection H0 as ->.
      rewrite Nat.add_0_r. reflexivity.
    + rewrite (IH (S index) i p r); try assumption; [|lia].
      replace (index + S i) with (S index + i) by lia. reflexivity.
Qed.

End FirstFailure.

(** ** Claims on a run *)

(** C4.  A job whose document resolves to zero pages and no extracted text
    ends [completed], not [error]: its output is empty, and the
    empty-content warning is appended to the warnings collected so far. *)
Theorem C4_empty_document_completes
  env st now jobId job file (ws0 : list string) :
  getJob jobId st = Some job ->
  fileMap st !! jobId = Some file ->
  segments job = [] ->
  languagesCached env (availableLanguages st) job ->
  documentPages env file = Some ([], "", ws0) ->
  exists final,
    getJob jobId (finalState (run env st now jobId) st) = Some final
    /\ status final = completed
    /\ status final <> error
    /\ segments final = []
    /\ extractedText final = ""
    /\ aggregatedText final = ""
    /\ warnings final = ws0 ++ ["No visual content found for OCR."].
Proof.
  intros Hjob Hfile Hsegs Hlang Hdoc.
  destruct (run_outcome env st now jobId job file [] "" ws0 Hjob Hfile Hlang Hdoc)
    as (final & Hfinal & _ & Hseg & Hcase).
  exists final. split; [exact Hfinal|].
  rewrite Hsegs in Hseg. simpl in Hseg.
  destruct Hcase as [(_ & Hst & _ & Hw & Htxt & _)|(page & e & Hpage & _)].
  - repeat split; try assumption.
    + rewrite Hst. discriminate.
    + unfold aggregatedText. rewrite Htxt, Hseg. reflexivity.
    + rewrite Hw. simpl. rewrite app_nil_r. reflexivity.
  - simpl in Hpage. discriminate.
Qed.

Lemma C4_empty_document_completes_witness :
  exists final,
    getJob 0 (finalState (run Samples.collaborators (Samples.dropped Samples.blank) 5 0)
                (Samples.dropped Samples.blank)) = Some final
    /\ status final = completed
    /\ status final <> error
    /\ segments final = []
    /\ extractedText final = ""
    /\ aggregatedText final = ""
    /\ warnings final = [] ++ ["No visual content found for OCR."].
Proof.
  apply (C4_empty_document_completes Samples.collaborators
           (Samples.dropped Samples.blank) 5 0
           (pendingJob 0 ["eng"] Samples.blank 1000) Samples.blank []).
  - reflexivity.
  - reflexivity.
  - reflexivity.
  - reflexivity.
  - reflexivity.
Defined.

(** C1 (as the code has it).  The driver has one [try] around the whole
    run, so the failure of one page's recognition is the failure of the
    job: the job ends in [error] with the failure's message, the segments
    of the pages before the failed one are present and intact, no segment
    is recorded for the failed page or for any page after it, and the
    warnings are those of the pages finished before the failure -- none is
    added for the failed page. *)
Theorem C1_page_failure_ends_job
  env st now jobId job file canvases extracted (ws0 : list string) k page e :
  getJob jobId st = Some job ->
  fileMap st !! jobId = Some file ->
  segments job = [] ->
  languagesCached env (availableLanguages st) job ->
  documentPages env file = Some (canvases, extracted, ws0) ->
  canvases !! k = Some page ->
  outcome (recognizeImage env (canvas page) (languages job)) = Rejected e ->
  (forall i p, i < k -> canvases !! i = Some p ->
     isResolved (outcome (recognizeImage env (canvas p) (languages job))) = true) ->
  exists final,
    getJob jobId (finalState (run env st now jobId) st) = Some final
    /\ status final = error
    /\ error_ final = Some (errorMessage e)
    /\ map pageIndex (segments final) = seq 0 k
    /\ (forall i p r,
          i < k -> canvases !! i = Some p ->
          outcome (recognizeImage env (canvas p) (languages job)) = Resolved r ->
          segments final !! i
          = Some {| pageIndex := i;
                    text := resultText r;
                    confidence := resultConfidence r |})
    /\ warnings final =
         match k with
         | O => warnings job
         | _ => noteEmptyContent canvases extracted ws0
                ++ lateWarnings env (languages job) 0 (take k canvases)
         end.
Proof.
  intros Hjob Hfile Hsegs Hlang Hdoc Hk Hout Hbefore.
  pose proof (recognizedCount_first_failure env (languages job) canvases
                k page e Hk Hout Hbefore) as Hcount.
  destruct (run_outcome env st now jobId job file canvases extracted ws0
              Hjob Hfile Hlang Hdoc)
    as (final & Hfinal & _ & Hseg & Hcase).
  rewrite Hsegs in Hseg. simpl in Hseg. rewrite Hcount in Hcase.
  exists final. split; [exact Hfinal|].
  destruct Hcase as [(Hlen & _)|(page' & e' & Hpage' & Hout' & Hst & Herr & Hw & _)].
  - apply lookup_lt_Some in Hk. lia.
  - rewrite Hk in Hpage'. injection Hpage' as <-.
    rewrite Hout in Hout'. injection Hout' as <-.
    repeat split; try assumption.
    + rewrite Hseg, recognizedSegments_indices, Hcount. reflexivity.
    + intros i p r Hi Hp Hr. rewrite Hseg.
      rewrite (recognizedSegments_lookup env (languages job) canvases 0 i p r);
        [reflexivity|lia|exact Hp|exact Hr].
Qed.

Lemma C1_page_failure_ends_job_witness :
  exists final,
    getJob 0 (finalState
                (run Samples.collaborators (Samples.dropped Samples.threePages) 5 0)
                (Samples.dropped Samples.threePages)) = Some final
    /\ status final = error
    /\ error_ final = Some "engine failure"
    /\ map pageIndex (segments final) = [0]
    /\ (forall i p r,
          i < 1 -> Samples.pagesOf Samples.threePages !! i = Some p ->
          outcome (Samples.engine (canvas p) ["eng"]) = Resolved r ->
          segments final !! i
          = Some {| pageIndex := i;
                    text := resultText r;
                    confidence := resultConfidence r |})
    /\ warnings final = [].
Proof.
  apply (C1_page_failure_ends_job Samples.collaborators
           (Samples.dropped Samples.threePages) 5 0
           (pendingJob 0 ["eng"] Samples.threePages 1000) Samples.threePages
           (Samples.pagesOf Samples.threePages) "" [] 1 {| canvas := 2 |}
           (ErrorObject "engine failure")).
  - reflexivity.
  - reflexivity.
  - reflexivity.
  - reflexivity.
  - reflexivity.
  - reflexivity.
  - reflexivity.
  - intros i p Hi Hp. destruct i as [|i]; [|lia].
    injection Hp as <-. reflexivity.
Defined.

(** C1 as stated fails on the example of the specification: a three-page
    document whose second page fails ends in [error], holds the segment of
    index 0 only, and carries no warning. *)
Lemma C1_counterexample :
  exists final,
    getJob 0 (finalState
                (run Samples.collaborators (Samples.dropped Samples.threePages) 5 0)
                (Samples.dropped Samples.threePages)) = Some final
    /\ status final = error
    /\ map pageIndex (segments final) = [0]
    /\ warnings final = []
    /\ ~ (status final = completed
          /\ 2 ∈ map pageIndex (segments final)
          /\ warnings final <> []).
Proof.
  eexists. split; [vm_compute; reflexivity|].
  repeat split. intros (H & _). discriminate H.
Qed.

(** A run whose language packs cannot be cached ends in [error]. *)
Lemma run_languages_fail env st now jobId job file e :
  getJob jobId st = Some job ->
  fileMap st !! jobId = Some file ->
  promiseAll (map (ensureLanguageCached env)
                (languageEntries (availableLanguages st) job)) = Rejected e ->
  exists final,
    getJob jobId (finalState (run env st now jobId) st) = Some final
    /\ status final = error.
Proof.
  intros Hjob Hfile Hrej.
  pose proof (findJob_id _ _ _ Hjob) as Hid.
  rewrite getJob_finalState, Hjob. eexists. split; [reflexivity|].
  unfold run, processFile. unfold getJob in Hjob. rewrite Hjob, Hfile.
  unfold tryBlock. rewrite Hrej. simpl.
  destruct (decide (id job = jobId)) as [_|Hne]; [|congruence]. simpl.
  destruct (decide (id job = jobId)) as [_|Hne]; [|congruence]. reflexivity.
Qed.

(** C9.  A completed job of [pageCount] pages holds segments whose page
    indices are distinct and below [pageCount] -- they are 0, 1, ...,
    [pageCount - 1], each once.  In whatever order the segments arrived,
    display and export show them in ascending page index: the array is
    sorted into that one order, and the text is made of the blocks of the
    segments in that order, the block of page index 0 first. *)
Theorem C9_segments_indexed_and_ordered
  env st now jobId job file canvases extracted (ws0 : list string) final :
  getJob jobId st = Some job ->
  fileMap st !! jobId = Some file ->
  segments job = [] ->
  documentPages env file = Some (canvases, extracted, ws0) ->
  getJob jobId (finalState (run env st now jobId) st) = Some final ->
  status final = completed ->
  let pageCount := length canvases in
  NoDup (map pageIndex (segments final))
  /\ (forall i, i ∈ map pageIndex (segments final) -> i < pageCount)
  /\ map pageIndex (segments final) = seq 0 pageCount
  /\ forall arrival,
       Permutation arrival (segments final) ->
       StronglySorted lt (map pageIndex (sortSegments arrival))
       /\ Permutation (sortSegments arrival) arrival
       /\ sortSegments arrival = sortSegments (segments final)
       /\ combineSegments arrival = combineSegments (segments final)
       /\ sortSegments arrival = segments final
       /\ combineSegments arrival
          = Js.join Js.LF (imap segmentBlock (segments final)).
Proof.
  intros Hjob Hfile Hsegs Hdoc Hfinal Hdone pageCount.
  assert (Hidx : map pageIndex (segments final) = seq 0 pageCount).
  { destruct (promiseAll (map (ensureLanguageCached env)
                (languageEntries (availableLanguages st) job))) as [u|e] eqn:Hall.
    - assert (Hlang : languagesCached env (availableLanguages st) job)
        by (unfold languagesCached; rewrite Hall; reflexivity).
      destruct (run_outcome env st now jobId job file canvases extracted ws0
                  Hjob Hfile Hlang Hdoc)
        as (final' & Hfinal' & _ & Hseg & Hcase).
      rewrite Hfinal in Hfinal'. injection Hfinal' as <-.
      rewrite Hsegs in Hseg. simpl in Hseg.
      destruct Hcase as [(Hn & _)|(page & e & _ & _ & Hst & _)].
      + rewrite Hseg, recognizedSegments_indices, Hn. reflexivity.
      + rewrite Hst in Hdone. discriminate.
    - destruct (run_languages_fail env st now jobId job file e Hjob Hfile Hall)
        as (final' & Hfinal' & Hst).
      rewrite Hfinal in Hfinal'. injection Hfinal' as <-.
      rewrite Hst in Hdone. discriminate. }
  split; [rewrite Hidx; apply NoDup_seq|].
  split.
  { intros i Hi. rewrite Hidx in Hi. apply elem_of_seq in Hi. lia. }
  split; [exact Hidx|].
  intros arrival Hperm.
  assert (Hshown : sortSegments arrival = segments final)
    by (eapply sortSegments_arrival; [exact Hidx|exact Hperm]).
  assert (Hself : sortSegments (segments final) = segments final)
    by (eapply sortSegments_arrival; [exact Hidx|reflexivity]).
  split; [rewrite Hshown, Hidx; apply seq_strictly_ascending|].
  split; [apply sortSegments_perm|].
  split; [congruence|].
  split; [unfold combineSegments, segmentBlocks; rewrite Hshown, Hself; reflexivity|].
  split; [exact Hshown|].
  unfold combineSegments, segmentBlocks. rewrite Hshown. reflexivity.
Qed.

Lemma C9_segments_indexed_and_ordered_witness :
  let final :=
    jobAfter (run Samples.collaborators (Samples.dropped Samples.twoPages) 5 0)
      (pendingJob 0 ["eng"] Samples.twoPages 1000) in
  let hello := {| pageIndex := 0; text := "Hello"; confidence := 962 # 10 |} in
  let world := {| pageIndex := 1; text := "World"; confidence := 91 |} in
  segments final = [hello; world]
  /\ sortSegments [world; hello] = [hello; world]
  /\ combineSegments [world; hello]
     = "--- Page 1 (Confidence: 96.20%) ---" +:+ Js.LF +:+ "Hello" +:+ Js.LF
       +:+ Js.LF
       +:+ "--- Page 2 (Confidence: 91.00%) ---" +:+ Js.LF +:+ "World" +:+ Js.LF.
Proof.
  cbv zeta.
  set (st := Samples.dropped Samples.twoPages).
  set (job := pendingJob 0 ["eng"] Samples.twoPages 1000).
  set (final := jobAfter (run Samples.collaborators st 5 0) job).
  assert (Hjob : getJob 0 st = Some job) by reflexivity.
  assert (Hfile : fileMap st !! 0 = Some Samples.twoPages) by reflexivity.
  assert (Hsegs : segments job = []) by reflexivity.
  assert (Hdoc : documentPages Samples.collaborators Samples.twoPages
                 = Some (Samples.pagesOf Samples.twoPages, "", []))
    by reflexivity.
  assert (Hfinal : getJob 0 (finalState (run Samples.collaborators st 5 0) st)
                   = Some final) by (vm_compute; reflexivity).
  assert (Hdone : status final = completed) by (vm_compute; reflexivity).
  assert (Hlist : segments final
                  = [ {| pageIndex := 0; text := "Hello"; confidence := 962 # 10 |};
                      {| pageIndex := 1; text := "World"; confidence := 91 |} ])
    by (vm_compute; reflexivity).
  destruct (C9_segments_indexed_and_ordered Samples.collaborators st 5 0 job
              Samples.twoPages (Samples.pagesOf Samples.twoPages) "" [] final
              Hjob Hfile Hsegs Hdoc Hfinal Hdone)
    as (_ & _ & _ & Horder).
  destruct (Horder [ {| pageIndex := 1; text := "World"; confidence := 91 |};
                     {| pageIndex := 0; text := "Hello"; confidence := 962 # 10 |} ])
    as (_ & _ & _ & _ & Hsorted & Htext).
  { rewrite Hlist. apply perm_swap. }
  split; [exact Hlist|].
  split; [rewrite Hsorted; exact Hlist|].
  rewrite Htext, Hlist. vm_compute. reflexivity.
Defined.

(** ** Page numbers in the exported text *)

Lemma numberToString_inj i j :
  Js.numberToString i = Js.numberToString j -> i = j.
Proof. unfold Js.numberToString. apply (inj pretty). Qed.

(** C10.  The text for a job is made of one block per segment, in
    ascending page index, joined by line feeds; the block at position [i]
    (from 0) is headed [--- Page] followed by the number [i + 1]: the
    number shown is the segment's position among the segments present.  It
    is the segment's own page index plus one for every segment exactly
    when the indices present are 0, 1, 2, ... with none missing. *)
Theorem C10_page_number_is_position (segs : list RecognizedSegment) :
  let shown := sortSegments segs in
  let block (i : nat) (seg : RecognizedSegment) :=
    "--- Page " +:+ Js.numberToString (i + 1) +:+ " (Confidence: "
    +:+ Js.toFixed (confidence seg) 2 +:+ "%) ---" +:+ Js.LF
    +:+ Js.trim (text seg) +:+ Js.LF in
  combineSegments segs = Js.join Js.LF (imap block shown)
  /\ StronglySorted indexLe shown
  /\ Permutation shown segs
  /\ ((forall i seg,
         shown !! i = Some seg ->
         Js.numberToString (i + 1) = Js.numberToString (pageIndex seg + 1))
      <-> map pageIndex shown = seq 0 (length segs)).
Proof.
  cbv zeta.
  assert (Hlen : length (sortSegments segs) = length segs)
    by (apply Permutation_length, sortSegments_perm).
  split; [reflexivity|].
  split; [apply sortSegments_sorted|].
  split; [apply sortSegments_perm|].
  split.
  - intros Hlabel. apply list_eq. intros i.
    rewrite list_lookup_fmap.
    destruct (sortSegments segs !! i) as [seg|] eqn:Hi; simpl.
    + rewrite lookup_seq_lt by (rewrite <- Hlen; eapply lookup_lt_Some; exact Hi).
      f_equal. specialize (Hlabel i seg Hi).
      apply numberToString_inj in Hlabel. lia.
    + rewrite lookup_seq_ge; [reflexivity|].
      rewrite <- Hlen. apply lookup_ge_None. exact Hi.
  - intros Hseq i seg Hi. f_equal.
    assert (Hm : map pageIndex (sortSegments segs) !! i = Some (pageIndex seg))
      by (rewrite list_lookup_fmap, Hi; reflexivity).
    rewrite Hseq in Hm. apply lookup_seq in Hm as [Hm _]. simpl in Hm. lia.
Qed.

(** With page 1 missing, the segment of page index 2 is headed "Page 2". *)
Example combineSegments_with_gap :
  segmentBlocks
    [ {| pageIndex := 2; text := " World "; confidence := 91 |};
      {| pageIndex := 0; text := "Hello"; confidence := 962 # 10 |} ]
  = [ "--- Page 1 (Confidence: 96.20%) ---" +:+ Js.LF +:+ "Hello" +:+ Js.LF;
      "--- Page 2 (Confidence: 91.00%) ---" +:+ Js.LF +:+ "World" +:+ Js.LF ].
Proof. vm_compute. reflexivity. Qed.

(** ** Progress *)

Lemma Qdiv_le_mono (a b c : Q) : (0 < c -> a <= b -> a / c <= b / c)%Q.
Proof.
  intros Hc Hab. unfold Qdiv. apply Qmult_le_compat_r; [exact Hab|].
  apply Qlt_le_weak, Qinv_lt_0_compat. exact Hc.
Qed.

Lemma ofNat_le (m n : nat) : m <= n -> (ofNat m <= ofNat n)%Q.
Proof. intros H. unfold ofNat. rewrite <- Zle_Qle. lia. Qed.

Lemma ofNat_succ (n : nat) : (ofNat (n + 1) == ofNat n + 1)%Q.
Proof.
  unfold ofNat. rewrite Nat2Z.inj_add, inject_Z_plus. reflexivity.
Qed.

Lemma orOne_pos (n : nat) : (0 < ofNat (orOne n))%Q.
Proof.
  unfold ofNat. change 0%Q with (inject_Z 0). rewrite <- Zlt_Qlt.
  destruct n; simpl; lia.
Qed.

Lemma pageProgress_mono index total (p q : Q) :
  (p <= q)%Q -> (pageProgress index p total <= pageProgress index q total)%Q.
Proof.
  intros H. unfold pageProgress. apply Qdiv_le_mono; [apply orOne_pos|lra].
Qed.

(** A page's progress lies between the progress at its start and the
    progress at its end. *)
Lemma pageProgress_bounds index total (p : Q) :
  (0 <= p -> p <= 1 ->
   ofNat index / ofNat (orOne total) <= pageProgress index p total
   /\ pageProgress index p total <= ofNat (index + 1) / ofNat (orOne total))%Q.
Proof.
  intros H0 H1. unfold pageProgress. split.
  - apply Qdiv_le_mono; [apply orOne_pos|lra].
  - apply Qdiv_le_mono; [apply orOne_pos|]. rewrite ofNat_succ. lra.
Qed.

Lemma progress_at_most_one index total :
  index + 1 <= total -> (ofNat (index + 1) / ofNat (orOne total) <= 1)%Q.
Proof.
  intros H. apply Qle_shift_div_r; [apply orOne_pos|].
  rewrite Qmult_1_l. apply ofNat_le. destruct total; simpl; lia.
Qed.

Section Ascending.

Variable jobId : JobId.

Lemma ascending_app lo acts1 acts2 :
  ascending jobId lo acts1 -> ascending jobId (lastProgress jobId lo acts1) acts2 ->
  ascending jobId lo (acts1 ++ acts2).
Proof.
  revert lo; induction acts1 as [|a acts1 IH]; intros lo H1 H2; simpl in *.
  - exact H2.
  - destruct (progressSet jobId a) as [q|].
    + destruct H1 as [Hlo H1]. split; [exact Hlo|]. apply IH; assumption.
    + apply IH; assumption.
Qed.

Lemma lastProgress_app lo acts1 acts2 :
  lastProgress jobId lo (acts1 ++ acts2) = lastProgress jobId (lastProgress jobId lo acts1) acts2.
Proof.
  revert lo; induction acts1 as [|a acts1 IH]; intros lo; simpl; [reflexivity|].
  destruct (progressSet jobId a); apply IH.
Qed.

Lemma progress_applyToJob a job :
  id job = jobId ->
  progress (applyToJob a job) = default (progress job) (progressSet jobId a).
Proof.
  intros Hid. destruct a as [i partial|i seg|i]; simpl; try reflexivity.
  - rewrite Hid. destruct (decide (jobId = i)) as [<-|Hne].
    + destruct (decide (jobId = jobId)); [reflexivity|congruence].
    + destruct (decide (i = jobId)); [congruence|reflexivity].
  - destruct (decide (id job = i)); reflexivity.
Qed.

(** Along ascending jobId writes the progress of the job never decreases. *)
Lemma ascending_history acts : forall st job lo,
  getJob jobId st = Some job ->
  (lo <= progress job)%Q ->
  ascending jobId (progress job) acts ->
  StronglySorted Qle (progressHistory jobId (snapshots acts st))
  /\ Forall (Qle lo) (progressHistory jobId (snapshots acts st)).
Proof.
  induction acts as [|a acts IH]; intros st job lo Hjob Hlo Hasc.
  - unfold progressHistory. simpl. rewrite Hjob. simpl.
    split; repeat constructor. exact Hlo.
  - unfold progressHistory. cbn [snapshots omap list_omap]. rewrite Hjob.
    cbn [fmap option_fmap option_map]. fold (progressHistory jobId).
    pose proof (findJob_id _ _ _ Hjob) as Hid.
    assert (Hjob' : getJob jobId (applyAction a st) = Some (applyToJob a job))
      by (rewrite getJob_applyAction, Hjob; reflexivity).
    pose proof (progress_applyToJob a job Hid) as Hp.
    simpl in Hasc.
    assert (Hstep : (progress job <= progress (applyToJob a job))%Q
                    /\ ascending jobId (progress (applyToJob a job)) acts).
    { rewrite Hp. destruct (progressSet jobId a) as [q|]; simpl.
      - exact Hasc.
      - split; [apply Qle_refl|exact Hasc]. }
    destruct Hstep as [Hle Hasc'].
    destruct (IH (applyAction a st) (applyToJob a job) (progress job)
                Hjob' Hle Hasc') as [Hsorted Hall].
    split.
    + constructor; assumption.
    + constructor; [exact Hlo|].
      eapply Forall_impl; [exact Hall|]. simpl. intros q Hq.
      eapply Qle_trans; eassumption.
Qed.

End Ascending.

Section ProgressOfRun.

Variable env : Collaborators.
Variable jobId : JobId.
Variable languageList : list string.
Variable total : nat.

Lemma progress_within_total index :
  index <= total -> (ofNat index / ofNat (orOne total) <= 1)%Q.
Proof.
  intros H. apply Qle_shift_div_r; [apply orOne_pos|].
  rewrite Qmult_1_l. apply ofNat_le. destruct total; simpl; lia.
Qed.

Lemma callbackWrites_ascending index (hi : Q) (qs : list Q) : forall lo,
  (forall q, q ∈ qs -> (lo <= pageProgress index q total)%Q) ->
  (forall q, q ∈ qs -> (pageProgress index q total <= hi)%Q) ->
  (lo <= hi)%Q ->
  StronglySorted Qle qs ->
  ascending jobId lo (callbackWrites jobId total index qs)
  /\ (lastProgress jobId lo (callbackWrites jobId total index qs) <= hi)%Q.
Proof.
  induction qs as [|q qs IH]; intros lo Hlo Hhi Hle Hsorted; simpl.
  - split; [exact I|exact Hle].
  - destruct (decide (jobId = jobId)) as [_|Hne]; [|congruence]. simpl.
    apply StronglySorted_inv in Hsorted as [Hsorted Hq].
    destruct (IH (pageProgress index q total)) as [Hasc Hlast].
    + intros q' Hq'. apply pageProgress_mono.
      rewrite Forall_forall in Hq. apply Hq. exact Hq'.
    + intros q' Hq'. apply Hhi. right. exact Hq'.
    + apply Hhi. left.
    + exact Hsorted.
    + split; [split; [apply Hlo; left|exact Hasc]|exact Hlast].
Qed.

(** The writes of the page loop are ascending and stay at most 1. *)
Lemma recognizePages_ascending pages : forall index ws lo,
  reportsFractions env languageList pages ->
  index + length pages = total ->
  (lo <= ofNat index / ofNat (orOne total))%Q ->
  ascending jobId lo
    (fst (recognizePages env jobId languageList total index pages ws))
  /\ (lastProgress jobId lo
        (fst (recognizePages env jobId languageList total index pages ws)) <= 1)%Q.
Proof.
  induction pages as [|page rest IH]; intros index ws lo Hrep Hlen Hlo.
  - simpl in *. split; [exact I|].
    eapply Qle_trans; [exact Hlo|]. apply progress_within_total. lia.
  - rewrite recognizePages_cons. cbv zeta.
    apply Forall_cons in Hrep as [[Hfrac Hsorted] Hrep].
    simpl in Hlen.
    set (hi := (ofNat (index + 1) / ofNat (orOne total))%Q).
    assert (Hhi1 : (hi <= 1)%Q) by (apply progress_at_most_one; lia).
    assert (Hlohi : (lo <= hi)%Q).
    { eapply Qle_trans; [exact Hlo|]. apply Qdiv_le_mono; [apply orOne_pos|].
      apply ofNat_le. lia. }
    destruct (callbackWrites_ascending index hi
                (reported (recognizeImage env (canvas page) languageList)) lo)
      as [Hasc Hlast]; try assumption.
    { intros q Hq. rewrite Forall_forall in Hfrac.
      destruct (Hfrac q Hq) as [H0 H1].
      eapply Qle_trans; [exact Hlo|].
      apply (pageProgress_bounds index total q H0 H1). }
    { intros q Hq. rewrite Forall_forall in Hfrac.
      destruct (Hfrac q Hq) as [H0 H1].
      apply (pageProgress_bounds index total q H0 H1). }
    destruct (outcome (recognizeImage env (canvas page) languageList))
      as [result|e].
    + set (ws' := pushWarning ws _).
      destruct (IH (S index) ws' hi Hrep) as [Hasc' Hlast'].
      { lia. }
      { unfold hi. rewrite Nat.add_1_r. apply Qle_refl. }
      destruct (recognizePages env jobId languageList total (S index) rest ws')
        as [acts r]. simpl in Hasc', Hlast'. simpl fst.
      split.
      * apply ascending_app; [exact Hasc|]. simpl.
        destruct (decide (jobId = jobId)) as [_|Hne]; [|congruence]. simpl.
        split; [exact Hlast|exact Hasc'].
      * rewrite lastProgress_app. simpl.
        destruct (decide (jobId = jobId)) as [_|Hne]; [|congruence]. simpl.
        exact Hlast'.
    + simpl. split; [exact Hasc|].
      eapply Qle_trans; [exact Hlast|exact Hhi1].
Qed.

End ProgressOfRun.

(** The [try] block either fails before the page loop, having written
    nothing, or runs the page loop on the pages of the document. *)
Lemma tryBlock_cases env available job file now :
  (exists e, tryBlock env available job file now = ([], Rejected e))
  \/ (exists canvases extracted ws0 acts r,
        documentPages env file = Some (canvases, extracted, ws0)
        /\ recognizePages env (id job) (languages job) (length canvases) 0 canvases
             (noteEmptyContent canvases extracted ws0) = (acts, r)
        /\ tryBlock env available job file now =
           match r with
           | Resolved ws =>
               (acts ++ [UpdateJob (id job) (finished now extracted ws)],
                Resolved tt)
           | Rejected e => (acts, Rejected e)
           end).
Proof.
  unfold tryBlock.
  destruct (promiseAll _) as [u|e]; [|left; exists e; reflexivity].
  pose proof (resolveDocument_silent env file) as Hsilent.
  unfold documentPages.
  destruct (resolveDocument env file) as [w0 [[[canvases extracted] ws0]|e]];
    simpl in Hsilent; subst w0; [|left; exists e; reflexivity].
  right.
  destruct (recognizePages env (id job) (languages job) (length canvases) 0
              canvases (noteEmptyContent canvases extracted ws0))
    as [acts r] eqn:Hrec.
  exists canvases, extracted, ws0, acts, r.
  split; [reflexivity|]. split; [exact Hrec|].
  unfold bind, await, emit. simpl. rewrite Hrec.
  destruct r; reflexivity.
Qed.

(** C8 (as the code has it).  The driver writes to [progress] whatever the
    engine reports, so: when the engine reports, for each page, fractions
    between 0 and 1 in non-decreasing order, the progress of a job that
    starts at 0, as every admitted job does, never decreases along the
    states of its run, from [pending] to its terminal state. *)
Theorem C8_progress_never_decreases env st now jobId job :
  getJob jobId st = Some job ->
  status job = pending ->
  progress job = 0%Q ->
  (forall file canvases extracted ws0,
     fileMap st !! jobId = Some file ->
     documentPages env file = Some (canvases, extracted, ws0) ->
     reportsFractions env (languages job) canvases) ->
  StronglySorted Qle (progressHistory jobId (snapshots (run env st now jobId) st)).
Proof.
  intros Hjob _ Hzero Hrep.
  refine (proj1 (ascending_history jobId _ st job 0%Q Hjob _ _)).
  { rewrite Hzero. apply Qle_refl. }
  rewrite Hzero. unfold run, processFile.
  pose proof Hjob as Hjob'. unfold getJob in Hjob'. rewrite Hjob'.
  pose proof (findJob_id _ _ _ Hjob) as Hid.
  destruct (fileMap st !! jobId) as [file|] eqn:Hfile; [|exact I].
  simpl. destruct (decide (jobId = jobId)) as [_|Hne]; [|congruence]. simpl.
  split; [apply Qle_refl|].
  unfold tryCatchFinally.
  destruct (tryBlock_cases env (availableLanguages st) job file now)
    as [[e ->]|(canvases & extracted & ws0 & acts & r & Hdoc & Hrec & ->)].
  - simpl. destruct (decide (jobId = jobId)) as [_|Hne]; [|congruence].
    simpl. exact I.
  - rewrite Hid in *.
    destruct (recognizePages_ascending env jobId (languages job) (length canvases)
                canvases 0 (noteEmptyContent canvases extracted ws0) 0%Q)
      as [Hasc Hlast].
    + eapply Hrep; [reflexivity|exact Hdoc].
    + reflexivity.
    + unfold Qdiv. change (ofNat 0) with 0%Q. rewrite Qmult_0_l. apply Qle_refl.
    + rewrite Hrec in Hasc, Hlast. simpl in Hasc, Hlast.
      destruct r as [ws|e].
      * rewrite <- app_assoc. apply ascending_app; [exact Hasc|]. simpl.
        destruct (decide (jobId = jobId)) as [_|Hne]; [|congruence]. simpl.
        split; [exact Hlast|exact I].
      * apply ascending_app; [exact Hasc|]. simpl.
        destruct (decide (jobId = jobId)) as [_|Hne]; [|congruence]. simpl.
        exact I.
Qed.

Lemma C8_progress_never_decreases_witness :
  StronglySorted Qle
    (progressHistory 0
       (snapshots
          (run Samples.collaborators (Samples.dropped Samples.threePages) 5 0)
          (Samples.dropped Samples.threePages))).
Proof.
  apply (C8_progress_never_decreases Samples.collaborators
           (Samples.dropped Samples.threePages) 5 0
           (pendingJob 0 ["eng"] Samples.threePages 1000)).
  - reflexivity.
  - reflexivity.
  - reflexivity.
  - intros file canvases extracted ws0 Hfile Hdoc.
    vm_compute in Hfile. injection Hfile as <-.
    vm_compute in Hdoc. injection Hdoc as <- _ _.
    unfold reportsFractions.
    repeat (constructor; simpl); unfold Qle; simpl; lia.
Defined.

Lemma StronglySorted_lookup {A} (R : relation A) (l : list A) : forall i j x y,
  StronglySorted R l -> i < j -> l !! i = Some x -> l !! j = Some y -> R x y.
Proof.
  induction l as [|h t IH]; intros i j x y Hs Hij Hi Hj; [inversion Hi|].
  apply StronglySorted_inv in Hs as [Hs Hh].
  destruct j as [|j]; [lia|]. simpl in Hj.
  destruct i as [|i]; simpl in Hi.
  - injection Hi as <-. rewrite Forall_forall in Hh. apply Hh.
    eapply list_elem_of_lookup_2. exact Hj.
  - eapply (IH i j); try eassumption. lia.
Qed.

(** C8 as stated fails when the engine's reports go backwards: with the
    reports 0.8 and then 0.2 on the first of two pages, the job's progress
    is 0.4 in one state and 0.1 in the next. *)
Lemma C8_counterexample :
  let history :=
    progressHistory 0
      (snapshots (run Samples.erratic (Samples.dropped Samples.twoPages) 5 0)
         (Samples.dropped Samples.twoPages)) in
  (exists earlier later,
     history !! 2 = Some earlier /\ history !! 3 = Some later
     /\ (earlier == 4 # 10)%Q /\ (later == 1 # 10)%Q /\ (later < earlier)%Q)
  /\ ~ StronglySorted Qle history.
Proof.
  cbv zeta.
  assert (H : exists earlier later,
     progressHistory 0
       (snapshots (run Samples.erratic (Samples.dropped Samples.twoPages) 5 0)
          (Samples.dropped Samples.twoPages)) !! 2 = Some earlier
     /\ progressHistory 0
          (snapshots (run Samples.erratic (Samples.dropped Samples.twoPages) 5 0)
             (Samples.dropped Samples.twoPages)) !! 3 = Some later
     /\ (earlier == 4 # 10)%Q /\ (later == 1 # 10)%Q /\ (later < earlier)%Q).
  { eexists _, _. split; [vm_compute; reflexivity|].
    split; [vm_compute; reflexivity|].
    repeat split; unfold Qeq, Qlt; simpl; lia. }
  split; [exact H|].
  destruct H as (earlier & later & He & Hl & _ & _ & Hlt).
  intros Hs.
  pose proof (StronglySorted_lookup Qle _ 2 3 earlier later Hs ltac:(lia) He Hl) as Hle.
  apply Qle_not_lt in Hle. apply Hle. exact Hlt.
Qed.

(** ** Dispatch *)

Lemma recognizePages_keepsStarted env jobId languageList total pages :
  forall index ws,
    Forall keepsStarted
      (fst (recognizePages env jobId languageList total index pages ws)).
Proof.
  induction pages as [|page rest IH]; intros index ws; [constructor|].
  rewrite recognizePages_cons. cbv zeta.
  assert (Hcb : forall qs, Forall keepsStarted (callbackWrites jobId total index qs)).
  { intros qs. unfold callbackWrites. apply Forall_fmap, Forall_forall.
    intros q _. simpl. discriminate. }
  destruct (outcome (recognizeImage env (canvas page) languageList)) as [result|e].
  - specialize (IH (S index)
      (pushWarning ws (durationWarning index
         (elapsed (recognizeImage env (canvas page) languageList))))).
    destruct (recognizePages env jobId languageList total (S index) rest _)
      as [acts r]. simpl in *.
    apply Forall_app. split; [apply Hcb|].
    constructor; [exact I|]. constructor; [simpl; discriminate|exact IH].
  - simpl. apply Hcb.
Qed.

(** A run that starts is the [processing] write, then writes that keep the
    job started, then the release of the file. *)
Lemma run_shape env st now jobId job file :
  getJob jobId st = Some job ->
  fileMap st !! jobId = Some file ->
  exists middle,
    run env st now jobId
    = UpdateJob jobId started :: middle ++ [ReleaseFile jobId]
    /\ Forall keepsStarted middle.
Proof.
  intros Hjob Hfile. unfold run, processFile.
  pose proof (findJob_id _ _ _ Hjob) as Hid.
  unfold getJob in Hjob. rewrite Hjob, Hfile. unfold tryCatchFinally.
  destruct (tryBlock_cases env (availableLanguages st) job file now)
    as [[e ->]|(canvases & extracted & ws0 & acts & r & Hdoc & Hrec & ->)].
  - eexists. split; [reflexivity|]. constructor; [simpl; discriminate|constructor].
  - pose proof (recognizePages_keepsStarted env (id job) (languages job)
                  (length canvases) canvases 0
                  (noteEmptyContent canvases extracted ws0)) as Hkeep.
    rewrite Hrec in Hkeep. simpl in Hkeep. rewrite Hid.
    destruct r as [ws|e].
    + exists (acts ++ [UpdateJob jobId (finished now extracted ws)]).
      split; [reflexivity|].
      apply Forall_app. split; [exact Hkeep|].
      constructor; [simpl; discriminate|constructor].
    + exists (acts ++ [UpdateJob jobId (failed e)]).
      split; [rewrite <- app_assoc; reflexivity|].
      apply Forall_app. split; [exact Hkeep|].
      constructor; [simpl; discriminate|constructor].
Qed.

Lemma keepsStarted_status acts : forall job,
  Forall keepsStarted acts -> status job <> pending ->
  status (jobAfter acts job) <> pending.
Proof.
  induction acts as [|a acts IH]; intros job Hkeep Hst; [exact Hst|].
  apply Forall_cons in Hkeep as [Ha Hkeep]. rewrite jobAfter_cons.
  apply IH; [exact Hkeep|].
  destruct a as [i partial|i seg|i]; simpl in *; try case_decide; try exact Hst.
  unfold spread. cbn [status].
  destruct (setStatus partial) as [s|]; simpl; [congruence|exact Hst].
Qed.

Lemma snapshots_lookup acts : forall st k s,
  snapshots acts st !! k = Some s -> s = finalState (take k acts) st.
Proof.
  induction acts as [|a acts IH]; intros st k s Hk.
  - destruct k; simpl in Hk; [injection Hk as <-; reflexivity|inversion Hk].
  - destruct k as [|k]; simpl in Hk; [injection Hk as <-; reflexivity|].
    apply IH in Hk. exact Hk.
Qed.

Lemma dispatchPending_ids env st now jobId :
  jobId ∈ map fst (dispatchPending env st now) ->
  exists job, job ∈ jobs st /\ id job = jobId /\ status job = pending.
Proof.
  unfold dispatchPending, pendingJobs. rewrite map_map. simpl.
  intros H. apply list_elem_of_fmap in H as (job & -> & Hjob).
  apply list_elem_of_filter in Hjob as [Hp Hjob]. eauto.
Qed.

(** C6.  The driver is called by the dispatch effect, and by nothing
    else.  The effect calls it for the jobs whose status is [pending] and
    for no other job; from the driver's first write on the job is no
    longer [pending] -- in every state of its run and after it -- so no
    later pass of the effect dispatches it again: the job is executed at
    most once.  And a second call for the same job id after the run does
    nothing: the driver finds no file, writes nothing, and the state is
    as the run left it. *)
Theorem C6_dispatch_runs_a_job_once env st now jobId :
  (forall jid acts,
     (jid, acts) ∈ dispatchPending env st now ->
     acts = run env st now jid
     /\ exists job, job ∈ jobs st /\ id job = jid /\ status job = pending)
  /\ (forall k s now',
        snapshots (run env st now jobId) st !! S k = Some s ->
        jobId ∉ map fst (dispatchPending env s now'))
  /\ (forall now',
        let after := finalState (run env st now jobId) st in
        run env after now' jobId = []
        /\ finalState (run env after now' jobId) after = after).
Proof.
  assert (Hagain :
            forall now', run env (finalState (run env st now jobId) st) now' jobId = []).
  { intros now'.
    destruct (getJob jobId st) as [job|] eqn:Hjob;
      [destruct (fileMap st !! jobId) as [file|] eqn:Hfile|].
    + destruct (run_shape env st now jobId job file Hjob Hfile)
        as (middle & Hrun & _).
      rewrite Hrun.
      change (UpdateJob jobId started :: middle ++ [ReleaseFile jobId])
        with ((UpdateJob jobId started :: middle) ++ [ReleaseFile jobId]).
      rewrite finalState_app. unfold run at 1, processFile. simpl.
      rewrite lookup_delete_eq.
      destruct (findJob jobId _); reflexivity.
    + assert (Hnil : forall t, run env st t jobId = []).
      { intros t. unfold run, processFile. unfold getJob in Hjob.
        rewrite Hjob, Hfile. reflexivity. }
      rewrite Hnil. simpl. apply Hnil.
    + assert (Hnil : forall t, run env st t jobId = []).
      { intros t. unfold run, processFile. unfold getJob in Hjob.
        rewrite Hjob. reflexivity. }
      rewrite Hnil. simpl. apply Hnil. }
  split; [|split].
  - intros jid acts H. unfold dispatchPending, pendingJobs in H.
    apply list_elem_of_fmap in H as (job & Heq & Hjob).
    injection Heq as -> ->.
    apply list_elem_of_filter in Hjob as [Hp Hjob]. eauto.
  - intros k s now' Hk Hin.
    apply dispatchPending_ids in Hin as (j & Hj & Hid & Hpending).
    destruct (getJob jobId st) as [job|] eqn:Hjob;
      [destruct (fileMap st !! jobId) as [file|] eqn:Hfile|].
    + destruct (run_shape env st now jobId job file Hjob Hfile)
        as (middle & Hrun & Hkeep).
      rewrite Hrun in Hk. apply snapshots_lookup in Hk. subst s.
      rewrite jobs_finalState in Hj.
      apply list_elem_of_fmap in Hj as (j0 & -> & Hj0).
      rewrite id_jobAfter in Hid.
      cbn [take] in Hpending. rewrite jobAfter_cons in Hpending.
      revert Hpending. apply keepsStarted_status.
      * apply Forall_take, Forall_app. split; [exact Hkeep|].
        constructor; [exact I|constructor].
      * simpl. destruct (decide (id j0 = jobId)); [|congruence].
        simpl. discriminate.
    + unfold run, processFile in Hk. unfold getJob in Hjob.
      rewrite Hjob, Hfile in Hk. inversion Hk.
    + unfold run, processFile in Hk. unfold getJob in Hjob.
      rewrite Hjob in Hk. inversion Hk.
  - intros now'. cbv zeta. split; [apply Hagain|].
    rewrite Hagain. reflexivity.
Qed.

(** ** The language registry *)

(** An import whose code is already registered adds a second entry for the
    code, behind the first; looking the code up still finds the first. *)
Lemma import_registered_code env st file c p :
  languageFile st = Some file ->
  Js.trim (languageCodeInput st) <> "" ->
  importLanguageFromFile env (Js.toLowerCase (languageCodeInput st)) file
  = Resolved (c, p) ->
  c ∈ map code (availableLanguages st) ->
  let st' := handleLanguageImport env st in
  availableLanguages st'
  = availableLanguages st
    ++ [{| code := c; label := Js.toUpperCase c; path := p; builtIn := None |}]
  /\ ~ NoDup (map code (availableLanguages st'))
  /\ findLanguage c (availableLanguages st') = findLanguage c (availableLanguages st).
Proof.
  intros Hfile Hcode Himport Hin. cbv zeta.
  unfold handleLanguageImport. rewrite Hfile.
  rewrite bool_decide_eq_false_2 by exact Hcode. rewrite Himport. simpl.
  split; [reflexivity|]. split.
  - rewrite map_app. simpl. intros Hnd.
    apply NoDup_app in Hnd as (_ & Hdisj & _).
    apply (Hdisj c Hin). left.
  - unfold findLanguage.
    apply list_elem_of_fmap in Hin as (lang & -> & Hlang).
    induction (availableLanguages st) as [|l0 ls IH]; [inversion Hlang|].
    simpl. destruct (bool_decide (code l0 = code lang)) eqn:Hd; [reflexivity|].
    apply IH. apply elem_of_cons in Hlang as [->|Hlang]; [|exact Hlang].
    apply bool_decide_eq_false in Hd. congruence.
Qed.

(** C7.  Importing a pack under the code [eng], which is registered,
    leaves two entries with the code [eng] in the registry, and the code
    still resolves to the entry that was there before. *)
Theorem C7_import_keeps_both_entries :
  let st' := handleLanguageImport Samples.collaborators Samples.importing in
  map code (availableLanguages st') = ["eng"; "eng"]
  /\ ~ NoDup (map code (availableLanguages st'))
  /\ findLanguage "eng" (availableLanguages st') = Some Samples.eng
  /\ selectedLanguages st' = ["eng"].
Proof.
  cbv zeta. split; [reflexivity|]. split; [|split; reflexivity].
  apply (import_registered_code Samples.collaborators Samples.importing
           Samples.pack "eng" "/tesseract/eng").
  - reflexivity.
  - vm_compute. discriminate.
  - reflexivity.
  - left.
Qed.

(** ** Intake *)

(** What [accepted.forEach] leaves: draws advance by one per file, the
    files are held under the ids drawn, nothing else is touched in the
    file map, and the jobs added are the pending jobs of these files. *)
Lemma enqueue_all selected now (accepted : list File) : forall st,
  let st' := foldl (enqueue selected now) st accepted in
  uuidDraws st' = uuidDraws st + length accepted
  /\ selectedLanguages st' = selectedLanguages st
  /\ (forall k, k < uuidDraws st -> fileMap st' !! k = fileMap st !! k)
  /\ (forall i file, accepted !! i = Some file ->
        fileMap st' !! (uuidDraws st + i) = Some file)
  /\ (forall job, job ∈ jobs st' ->
        job ∈ jobs st
        \/ exists i file,
             accepted !! i = Some file
             /\ job = pendingJob (uuidDraws st + i) selected file now)
  /\ (forall job, job ∈ jobs st -> job ∈ jobs st').
Proof.
  induction accepted as [|f rest IH]; intros st; cbv zeta.
  - simpl. repeat split; auto; try lia.
    intros i file Hi. inversion Hi.
  - simpl foldl. specialize (IH (enqueue selected now st f)). cbv zeta in IH.
    destruct IH as (Hd & Hsel & Hlow & Hheld & Hjobs & Hkeep).
    simpl in Hd, Hsel, Hlow, Hheld, Hjobs, Hkeep.
    split; [rewrite Hd; simpl; lia|].
    split; [exact Hsel|].
    split.
    { intros k Hk. rewrite Hlow by lia. apply lookup_insert_ne. lia. }
    split.
    { intros i file Hi. destruct i as [|i]; simpl in Hi.
      - injection Hi as ->. rewrite Nat.add_0_r, Hlow by lia.
        apply lookup_insert_eq.
      - replace (uuidDraws st + S i) with (S (uuidDraws st + i)) by lia.
        apply Hheld. exact Hi. }
    split.
    { intros job Hjob. apply Hjobs in Hjob as [Hjob|(i & file & Hi & ->)].
      - apply elem_of_cons in Hjob as [->|Hjob]; [|left; exact Hjob].
        right. exists 0, f. rewrite Nat.add_0_r. split; reflexivity.
      - right. exists (S i), file. split; [exact Hi|].
        f_equal. lia. }
    intros job Hjob. apply Hkeep. right. exact Hjob.
Qed.

Lemma reportRejected_effect selected now rejected st :
  let st1 := reportRejected selected now rejected st in
  fileMap st1 = fileMap st
  /\ selectedLanguages st1 = selectedLanguages st
  /\ uuidDraws st <= uuidDraws st1
  /\ (forall job, job ∈ jobs st1 ->
        job ∈ jobs st
        \/ (rejected <> []
            /\ job = unsupportedJob (uuidDraws st) selected rejected now))
  /\ (rejected <> [] ->
      uuidDraws st1 = S (uuidDraws st)
      /\ unsupportedJob (uuidDraws st) selected rejected now ∈ jobs st1).
Proof.
  cbv zeta. unfold reportRejected. destruct rejected as [|r rs]; simpl.
  - repeat split; auto; congruence.
  - repeat split; auto.
    + intros job Hjob. apply elem_of_cons in Hjob as [->|Hjob]; [|left; exact Hjob].
      right. split; [discriminate|reflexivity].
    + left.
Qed.

Lemma filter_elem {A} (f : A -> bool) (l : list A) i x :
  List.filter f l !! i = Some x -> x ∈ l /\ f x = true.
Proof.
  intros H. apply list_elem_of_lookup_2, list_elem_of_In, filter_In in H.
  rewrite <- list_elem_of_In in H. exact H.
Qed.

Lemma handleLanguageToggle_nonempty c prev :
  prev <> [] -> handleLanguageToggle c prev <> [].
Proof.
  intros Hprev. unfold handleLanguageToggle.
  destruct (Js.includes prev c).
  - destruct (List.filter _ prev); [exact Hprev|discriminate].
  - destruct prev; discriminate.
Qed.

Lemma handleLanguageImport_nonempty env st :
  selectedLanguages st <> [] ->
  selectedLanguages (handleLanguageImport env st) <> [].
Proof.
  intros Hsel. unfold handleLanguageImport.
  destruct (languageFile st) as [file|]; [|exact Hsel].
  destruct (bool_decide _); [exact Hsel|].
  destruct (importLanguageFromFile env _ file) as [[c p]|e]; simpl; [|exact Hsel].
  destruct (Js.includes (selectedLanguages st) c); [exact Hsel|].
  destruct (selectedLanguages st); discriminate.
Qed.

(** C5 (as the code has it).  Intake does not fail and does not check the
    language set.  Files of an unrecognized content class are not admitted
    as jobs to run: one entry with status [error], whose message lists
    their names, is put in the job table for all of them, no file is held
    for it and the driver does nothing for it; every job that intake adds
    as [pending] is for a file that passed the acceptance test, holds that
    file, and carries the current language selection.  The selection is
    never empty: it starts as [eng], removing its last language is
    refused, and an import only adds to it. *)
Theorem C5_intake_reports_and_selection st files now :
  (forall k, uuidDraws st <= k -> fileMap st !! k = None) ->
  let st' := handleFiles st (Some files) now in
  let rejected :=
    map fileName (List.filter (fun file => negb (acceptable file)) files) in
  (rejected <> [] ->
   let entry := unsupportedJob (uuidDraws st) (selectedLanguages st) rejected now in
   entry ∈ jobs st'
   /\ status entry = error
   /\ error_ entry = Some ("Unsupported files: " +:+ Js.join ", " rejected)
   /\ fileMap st' !! id entry = None
   /\ forall env now', run env st' now' (id entry) = [])
  /\ (forall job,
        job ∈ jobs st' -> job ∉ jobs st -> status job = pending ->
        exists file,
          file ∈ files /\ acceptable file = true
          /\ fileMap st' !! id job = Some file
          /\ languages job = selectedLanguages st)
  /\ selectedLanguages st' = selectedLanguages st
  /\ (forall builtInLanguages,
        selectedLanguages (initialState builtInLanguages) <> [])
  /\ (forall c, selectedLanguages st <> [] ->
        selectedLanguages (toggleLanguage c st) <> [])
  /\ (forall env, selectedLanguages st <> [] ->
        selectedLanguages (handleLanguageImport env st) <> []).
Proof.
  intros Hfresh. cbv zeta. unfold handleFiles.
  set (selected := selectedLanguages st).
  set (rejected := map fileName
                     (List.filter (fun file => negb (acceptable file)) files)).
  set (accepted := List.filter acceptable files).
  destruct (reportRejected_effect selected now rejected st)
    as (Hmap1 & Hsel1 & Hdraw1 & Hjobs1 & Hrej1).
  set (st1 := reportRejected selected now rejected st) in *.
  destruct (enqueue_all selected now accepted st1)
    as (Hdraw2 & Hsel2 & Hlow & Hheld & Hjobs2 & Hkeep).
  set (st2 := foldl (enqueue selected now) st1 accepted) in *.
  split; [|split; [|split; [|split; [|split]]]].
  - intros Hrej. destruct (Hrej1 Hrej) as [Hd1 Hin]. simpl.
    assert (Hnone : fileMap st2 !! uuidDraws st = None).
    { rewrite Hlow by lia. rewrite Hmap1. apply Hfresh. lia. }
    split; [apply Hkeep; exact Hin|].
    split; [reflexivity|]. split; [reflexivity|]. split; [exact Hnone|].
    intros env now'. unfold run, processFile. rewrite Hnone.
    destruct (findJob _ _); reflexivity.
  - intros job Hjob Hnew Hpending.
    apply Hjobs2 in Hjob as [Hjob|(i & file & Hi & ->)].
    + apply Hjobs1 in Hjob as [Hjob|[_ ->]]; [contradiction|].
      simpl in Hpending. discriminate.
    + exists file. apply filter_elem in Hi as Hfile. destruct Hfile as [Hin Hacc].
      split; [exact Hin|]. split; [exact Hacc|].
      split; [apply Hheld; exact Hi|reflexivity].
  - rewrite Hsel2. exact Hsel1.
  - intros b. simpl. discriminate.
  - intros c Hsel. simpl. apply handleLanguageToggle_nonempty. exact Hsel.
  - intros env. apply handleLanguageImport_nonempty.
Qed.

Lemma C5_intake_reports_and_selection_witness :
  let st := initialState [Samples.eng] in
  let st' := handleFiles st (Some [Samples.notes; Samples.twoPages]) 1000 in
  (["notes.txt"] <> [] ->
   let entry := unsupportedJob 0 ["eng"] ["notes.txt"] 1000 in
   entry ∈ jobs st'
   /\ status entry = error
   /\ error_ entry = Some "Unsupported files: notes.txt"
   /\ fileMap st' !! id entry = None
   /\ forall env now', run env st' now' (id entry) = [])
  /\ (forall job,
        job ∈ jobs st' -> job ∉ jobs st -> status job = pending ->
        exists file,
          file ∈ [Samples.notes; Samples.twoPages] /\ acceptable file = true
          /\ fileMap st' !! id job = Some file
          /\ languages job = ["eng"])
  /\ selectedLanguages st' = ["eng"]
  /\ (forall builtInLanguages,
        selectedLanguages (initialState builtInLanguages) <> [])
  /\ (forall c, selectedLanguages st <> [] ->
        selectedLanguages (toggleLanguage c st) <> [])
  /\ (forall env, selectedLanguages st <> [] ->
        selectedLanguages (handleLanguageImport env st) <> []).
Proof.
  apply (C5_intake_reports_and_selection (initialState [Samples.eng])
           [Samples.notes; Samples.twoPages] 1000).
  intros k _. simpl. apply lookup_empty.
Defined.

(** C5 as stated fails: dropping a plain-text file creates a job-table
    entry, with status [error], and nothing is raised; and were the
    selection empty, intake would admit a file with an empty language
    set. *)
Lemma C5_counterexample :
  jobs (handleFiles (initialState [Samples.eng]) (Some [Samples.notes]) 1000)
  = [unsupportedJob 0 ["eng"] ["notes.txt"] 1000]
  /\ jobs (handleFiles (initialState [Samples.eng]) (Some [Samples.notes]) 1000)
     <> jobs (initialState [Samples.eng])
  /\ jobs (handleFiles Samples.unselected (Some [Samples.twoPages]) 1000)
     = [pendingJob 0 [] Samples.twoPages 1000].
Proof.
  split; [reflexivity|]. split; [discriminate|reflexivity].
Qed.

(** ** The end-to-end scenario

    A two-page document, [eng] selected and cached, "Hello" read on page 0
    and "World" on page 1. *)
Example two_pages_end_to_end :
  exists final,
    getJob 0 (finalState
                (run Samples.collaborators (Samples.dropped Samples.twoPages) 5 0)
                (Samples.dropped Samples.twoPages)) = Some final
    /\ status final = completed
    /\ (progress final == 1)%Q
    /\ warnings final = []
    /\ map pageIndex (segments final) = [0; 1]
    /\ map text (segments final) = ["Hello"; "World"]
    /\ completedAt final = Some 5.
Proof.
  eexists. split; [vm_compute; reflexivity|].
  repeat split.
Qed.

End JobFacts.

(** * Properties of the service worker's cache *)

Module WorkerFacts.

Import Home ServiceWorker.

Lemma exec_cons ev events w : exec (ev :: events) w = exec events (step ev w).
Proof. reflexivity. Qed.

(** A property kept by every turn is kept by every schedule. *)
Lemma exec_invariant (Inv : World -> Prop) :
  (forall ev w, Inv w -> Inv (step ev w)) ->
  forall events w, Inv w -> Inv (exec events w).
Proof.
  intros Hstep events. induction events as [|ev events IH]; intros w Hw.
  - exact Hw.
  - rewrite exec_cons. apply IH, Hstep, Hw.
Qed.



(** ** One fetch per miss *)




(** ** A cached key *)



(** ** Claims on the cache *)



Lemma step_unavailable_stays ev w k request e :
  handlers w !! k = Some (ReturnedUnavailable request e) ->
  handlers (step ev w) !! k = Some (ReturnedUnavailable request e).
Proof.
  intros Hk.
  assert (Hkeep : forall j h h',
            handlers w !! j = Some h ->
            h <> ReturnedUnavailable request e ->
            <[j := h']> (handlers w) !! k = Some (ReturnedUnavailable request e)).
  { intros j h h' Hj Hne. destruct (decide (j = k)) as [->|Hjk].
    - rewrite Hk in Hj. congruence.
    - rewrite list_lookup_insert_ne by exact Hjk. exact Hk. }
  destruct ev as [q|j|j o|j|j]; simpl.
  - apply lookup_app_l_Some. exact Hk.
  - destruct (handlers w !! j) as [h|] eqn:Hj; [|exact Hk].
    destruct h; try exact Hk.
    destruct (cache w !! url request0); simpl;
      eapply Hkeep; [exact Hj|discriminate|exact Hj|discriminate].
  - destruct (handlers w !! j) as [h|] eqn:Hj; [|exact Hk].
    destruct h; try exact Hk.
    destruct o; simpl; eapply Hkeep; [exact Hj|discriminate|exact Hj|discriminate].
  - destruct (handlers w !! j) as [h|] eqn:Hj; [|exact Hk].
    destruct h; try exact Hk.
    destruct (statusCode response =? 206)%nat; simpl;
      eapply Hkeep; [exact Hj|discriminate|exact Hj|discriminate].
  - destruct (handlers w !! j) as [h|] eqn:Hj; [|exact Hk].
    destruct h; try exact Hk. simpl.
    eapply Hkeep; [exact Hj|discriminate].
Qed.

(** C3 (as the code has it).  For the listener a fetch has failed when its
    promise is rejected.  Then nothing is stored: the cache is as it was,
    the handler has no [cache.put] in flight and stays as it is under
    every later schedule; the caller receives the 503 response of the
    [catch] block, which is built for this caller only, or a network error
    when the message of the error is no reason phrase; and the next
    request for the key, still missing, issues a new fetch.  A fetch that
    is resolved has not failed for the listener, whatever the status of
    its response: the response is returned, and once its [cache.put] has
    completed it is the entry of the key and is served to the next request
    without a fetch. *)
Theorem C3_failed_fetch_is_not_cached w k request :
  handlers w !! k = Some (Fetching request) ->
  cache w !! url request = None ->
  Js.startsWith (pathname request) "/tesseract/" = true ->
  (forall e,
     let w1 := step (Settle k (Rejected e)) w in
     let k' := length (handlers w1) in
     let w2 := step (Lookup k') (step (Arrive request) w1) in
     cache w1 = cache w
     /\ observed k w1 = Some (unavailable e)
     /\ (unavailable e = NetworkError
         \/ exists text,
              unavailable e
              = Replied {| body := "Language data unavailable offline.";
                           statusCode := 503;
                           statusText := text |})
     /\ (forall events,
           handlers (exec events w1) !! k = Some (ReturnedUnavailable request e))
     /\ handlers w2 !! k' = Some (Fetching request)
     /\ fetches w2 = fetches w ++ [url request])
  /\ (forall response,
        statusCode response <> 206 ->
        let w1 := step (Settle k (Resolved response)) w in
        let w2 := step (Store k) w1 in
        let k' := length (handlers w2) in
        let w3 := step (Lookup k') (step (Arrive request) w2) in
        observed k w1 = Some (Replied response)
        /\ cache w1 = cache w
        /\ cache w2 !! url request = Some response
        /\ handlers w3 !! k' = Some (ReturnedCached request response)
        /\ observed k' w3 = Some (Replied response)
        /\ fetches w3 = fetches w).
Proof.
  intros Hk Hmiss Hpath.
  pose proof (lookup_lt_Some _ _ _ Hk) as Hlt.
  split.
  - intros e. cbv zeta.
    assert (H1 : step (Settle k (Rejected e)) w
                 = {| cache := cache w;
                      handlers := <[k := ReturnedUnavailable request e]> (handlers w);
                      fetches := fetches w |}).
    { simpl. rewrite Hk. reflexivity. }
    assert (Hat : handlers (step (Settle k (Rejected e)) w) !! k
                  = Some (ReturnedUnavailable request e)).
    { rewrite H1. cbn [handlers]. apply list_lookup_insert_eq. exact Hlt. }
    split; [rewrite H1; reflexivity|].
    split; [unfold observed; rewrite Hat; reflexivity|].
    split.
    { unfold unavailable. destruct e as [message|]; [|right; eauto].
      destruct (reasonPhrase message); [right; eauto|left; reflexivity]. }
    split.
    { intros events.
      apply (exec_invariant
               (fun s => handlers s !! k = Some (ReturnedUnavailable request e))).
      - intros ev s. apply step_unavailable_stays.
      - exact Hat. }
    rewrite H1. cbn [cache handlers fetches].
    set (hs := <[k := ReturnedUnavailable request e]> (handlers w)).
    assert (Hnew : (hs ++ [Matching request]) !! length hs = Some (Matching request)).
    { rewrite lookup_app_r by lia. rewrite Nat.sub_diag. reflexivity. }
    assert (H2 : step (Lookup (length hs))
                   (step (Arrive request)
                      {| cache := cache w; handlers := hs; fetches := fetches w |})
                 = {| cache := cache w;
                      handlers := <[length hs := Fetching request]>
                                    (hs ++ [Matching request]);
                      fetches := fetches w ++ [url request] |}).
    { simpl. unfold arrive. rewrite Hpath, Hnew, Hmiss. reflexivity. }
    rewrite H2. cbn [cache handlers fetches].
    split; [|reflexivity].
    apply list_lookup_insert_eq. rewrite length_app. simpl. lia.
  - intros response Hstatus. cbv zeta.
    assert (H1 : step (Settle k (Resolved response)) w
                 = {| cache := cache w;
                      handlers := <[k := Storing request response]> (handlers w);
                      fetches := fetches w |}).
    { simpl. rewrite Hk. reflexivity. }
    rewrite H1.
    assert (H2 : step (Store k)
                   {| cache := cache w;
                      handlers := <[k := Storing request response]> (handlers w);
                      fetches := fetches w |}
                 = {| cache := <[url request := response]> (cache w);
                      handlers := <[k := ReturnedFetched request response]> (handlers w);
                      fetches := fetches w |}).
    { simpl. rewrite list_lookup_insert_eq by exact Hlt.
      apply Nat.eqb_neq in Hstatus. rewrite Hstatus.
      rewrite list_insert_insert_eq. reflexivity. }
    rewrite H2. cbn [cache handlers fetches].
    set (hs := <[k := ReturnedFetched request response]> (handlers w)).
    assert (Hnew : (hs ++ [Matching request]) !! length hs = Some (Matching request)).
    { rewrite lookup_app_r by lia. rewrite Nat.sub_diag. reflexivity. }
    assert (H3 : step (Lookup (length hs))
                   (step (Arrive request)
                      {| cache := <[url request := response]> (cache w);
                         handlers := hs; fetches := fetches w |})
                 = {| cache := <[url request := response]> (cache w);
                      handlers := <[length hs := ReturnedCached request response]>
                                    (hs ++ [Matching request]);
                      fetches := fetches w |}).
    { simpl. unfold arrive. rewrite Hpath, Hnew, lookup_insert_eq. reflexivity. }
    rewrite H3. cbn [cache handlers fetches].
    assert (Hserved : <[length hs := ReturnedCached request response]>
                        (hs ++ [Matching request]) !! length hs
                      = Some (ReturnedCached request response)).
    { apply list_lookup_insert_eq. rewrite length_app. simpl. lia. }
    split.
    { unfold observed. cbn [handlers].
      rewrite list_lookup_insert_eq by exact Hlt. reflexivity. }
    split; [reflexivity|]. split; [apply lookup_insert_eq|].
    split; [exact Hserved|]. split; [|reflexivity].
    unfold observed. cbn [handlers]. rewrite Hserved. reflexivity.
Qed.

Lemma C3_failed_fetch_is_not_cached_witness :
  let w := exec [Arrive Samples.engRequest; Lookup 0] (idle ∅) in
  let e := ErrorObject "Failed to fetch" in
  let w1 := step (Settle 0 (Rejected e)) w in
  let w2 := step (Lookup 1) (step (Arrive Samples.engRequest) w1) in
  cache w1 = ∅
  /\ observed 0 w1
     = Some (Replied {| body := "Language data unavailable offline.";
                        statusCode := 503;
                        statusText := "Failed to fetch" |})
  /\ handlers w2 !! 1 = Some (Fetching Samples.engRequest)
  /\ fetches w2
     = [url Samples.engRequest; url Samples.engRequest].
Proof.
  cbv zeta.
  set (w := exec [Arrive Samples.engRequest; Lookup 0] (idle ∅)).
  assert (Hk : handlers w !! 0 = Some (Fetching Samples.engRequest))
    by reflexivity.
  assert (Hmiss : cache w !! url Samples.engRequest = None) by reflexivity.
  assert (Hpath : Js.startsWith (pathname Samples.engRequest) "/tesseract/" = true)
    by reflexivity.
  destruct (C3_failed_fetch_is_not_cached w 0 Samples.engRequest Hk Hmiss Hpath)
    as [Hfailed _].
  destruct (Hfailed (ErrorObject "Failed to fetch"))
    as (Hcache & Hobs & _ & _ & Hnext & Hfetches).
  split; [exact Hcache|]. split; [exact Hobs|].
  split; [exact Hnext|exact Hfetches].
Defined.

(** C3 as stated fails when the fetch fails with an error status.  The
    pack is missing on the server: the fetch is resolved with a 404
    response, the listener puts it in the cache, and the next request for
    the key is served the 404 from the cache; no new fetch is attempted. *)
Lemma C3_counterexample :
  let notFound := {| body := "Not Found"; statusCode := 404;
                     statusText := "Not Found" |} in
  let w := exec [ Arrive Samples.engRequest; Lookup 0;
                  Settle 0 (Resolved notFound); Store 0;
                  Arrive Samples.engRequest; Lookup 1 ] (idle ∅) in
  cache w !! url Samples.engRequest = Some notFound
  /\ handlers w !! 1 = Some (ReturnedCached Samples.engRequest notFound)
  /\ observed 1 w = Some (Replied notFound)
  /\ fetchCount (url Samples.engRequest) w = 1.
Proof. cbv zeta. repeat split; vm_compute; reflexivity. Qed.

End WorkerFacts.

(** * Further properties of the component *)

Module JobExtras.

Import Home JobFacts.

(** ** Acceptance and routing *)

Lemma supported_type_routed file :
  Js.includes SUPPORTED_FILE_TYPES (fileType file) = true ->
  isImage file || isPdf file || isDocx file = true.
Proof.
  intros H. apply bool_decide_eq_true in H. unfold SUPPORTED_FILE_TYPES in H.
  unfold isImage, isPdf, isDocx.
  repeat (apply elem_of_cons in H as [H|H];
          [rewrite H; vm_compute bool_decide; simpl;
           rewrite ?orb_true_r; reflexivity|]).
  inversion H.
Qed.

Lemma acceptable_routed file :
  acceptable file = isImage file || isPdf file || isDocx file.
Proof.
  unfold acceptable.
  destruct (Js.includes SUPPORTED_FILE_TYPES (fileType file)) eqn:H; [|reflexivity].
  simpl. symmetry. apply supported_type_routed. exact H.
Qed.

Lemma unaccepted_throws env file :
  acceptable file = false ->
  resolveDocument env file = ([], Rejected (ErrorObject "Unsupported file type")).
Proof.
  rewrite acceptable_routed. intros H.
  apply orb_false_iff in H as [H Hd]. apply orb_false_iff in H as [Hi Hp].
  unfold resolveDocument. rewrite Hi, Hp, Hd. reflexivity.
Qed.

(** The list of supported types adds nothing to the three tests: a file is
    accepted at intake exactly when the driver has a decoder for it.  A
    file that is not accepted makes the driver's document step throw
    "Unsupported file type"; for a file that is accepted the step fails
    only if a decoder does. *)
Theorem acceptable_iff_routed env file :
  acceptable file = isImage file || isPdf file || isDocx file
  /\ (acceptable file = false ->
      resolveDocument env file
      = ([], Rejected (ErrorObject "Unsupported file type")))
  /\ (acceptable file = true ->
      isResolved (processImageFile env file) = true ->
      isResolved (processPdfFile env file) = true ->
      isResolved (extractDocxText env file) = true ->
      isResolved (extractDocxImages env file) = true ->
      (forall blobs, isResolved (blobsToRenderedPages env blobs) = true) ->
      isResolved (snd (resolveDocument env file)) = true).
Proof.
  pose proof (acceptable_routed file) as Hacc.
  split; [exact Hacc|]. split; [apply unaccepted_throws|].
  rewrite Hacc. unfold resolveDocument, bind, await, ret, throw.
  - intros H Himg Hpdf Htext Himages Hblobs.
    destruct (isImage file);
      [destruct (processImageFile env file); [reflexivity|discriminate]|].
    destruct (isPdf file);
      [destruct (processPdfFile env file); [reflexivity|discriminate]|].
    simpl in H. rewrite H.
    destruct (extractDocxText env file) as [extracted|e]; [|discriminate].
    destruct (extractDocxImages env file) as [[|b bs]|e];
      [reflexivity| |discriminate].
    specialize (Hblobs (b :: bs)).
    destruct (blobsToRenderedPages env (b :: bs)); [reflexivity|discriminate].
Qed.

(** The label shown for a file that intake accepts is "Image", "PDF" or
    "Word Document", except for a Word document recognised by its type
    alone: [readableFileType] looks for [.docx] in the name only, and the
    label of such a file is its MIME type. *)
Theorem readableFileType_of_accepted file :
  acceptable file = true ->
  let shown := readableFileType (fileType file) (fileName file) in
  shown = "Image" \/ shown = "PDF" \/ shown = "Word Document"
  \/ (shown = fileType file
      /\ fileType file
         = "application/vnd.openxmlformats-officedocument.wordprocessingml.document"
      /\ Js.endsWith (fileName file) ".docx" = false).
Proof.
  intros Hacc. rewrite acceptable_routed in Hacc. cbv zeta.
  unfold readableFileType.
  unfold isImage, isPdf, isDocx in Hacc.
  destruct (Js.startsWith (fileType file) "image/"); [left; reflexivity|].
  destruct (bool_decide (fileType file = "application/pdf")
            || Js.endsWith (fileName file) ".pdf"); [right; left; reflexivity|].
  simpl in Hacc.
  destruct (Js.endsWith (fileName file) ".docx"); [right; right; left; reflexivity|].
  rewrite orb_false_r in Hacc. apply bool_decide_eq_true in Hacc.
  right; right; right. rewrite Hacc. repeat split.
Qed.

Lemma readableFileType_of_accepted_witness :
  let shown := readableFileType (fileType Samples.report) (fileName Samples.report) in
  shown = "Image" \/ shown = "PDF" \/ shown = "Word Document"
  \/ (shown = fileType Samples.report
      /\ fileType Samples.report
         = "application/vnd.openxmlformats-officedocument.wordprocessingml.document"
      /\ Js.endsWith (fileName Samples.report) ".docx" = false).
Proof.
  apply (readableFileType_of_accepted Samples.report). reflexivity.
Defined.

(** ** The language selection *)

Lemma filter_out_absent (c : string) (l : list string) :
  c ∉ l -> List.filter (fun item => negb (bool_decide (item = c))) l = l.
Proof.
  induction l as [|x l IH]; intros Hc; [reflexivity|]. simpl.
  apply not_elem_of_cons in Hc as [Hne Hc].
  rewrite bool_decide_eq_false_2 by congruence. simpl. rewrite IH by exact Hc.
  reflexivity.
Qed.

Lemma filter_out_elem (c d : string) (l : list string) :
  d ∈ List.filter (fun item => negb (bool_decide (item = c))) l
  <-> d ∈ l /\ d <> c.
Proof.
  rewrite !list_elem_of_In, filter_In, negb_true_iff, bool_decide_eq_false.
  reflexivity.
Qed.

(** Selecting a language that was not selected and deselecting it again
    gives the selection back, in the same order. *)
Theorem toggle_twice_restores (c : string) (prev : list string) :
  c ∉ prev -> prev <> [] ->
  handleLanguageToggle c prev = prev ++ [c]
  /\ handleLanguageToggle c (handleLanguageToggle c prev) = prev.
Proof.
  intros Hc Hprev.
  assert (H1 : handleLanguageToggle c prev = prev ++ [c]).
  { unfold handleLanguageToggle, Js.includes.
    rewrite bool_decide_eq_false_2 by exact Hc. reflexivity. }
  split; [exact H1|]. rewrite H1. unfold handleLanguageToggle, Js.includes.
  rewrite bool_decide_eq_true_2 by (apply elem_of_app; right; left).
  rewrite List.filter_app, filter_out_absent by exact Hc. simpl.
  rewrite bool_decide_eq_true_2 by reflexivity. simpl. rewrite app_nil_r.
  destruct prev; [congruence|reflexivity].
Qed.

Lemma toggle_twice_restores_witness :
  handleLanguageToggle "fra" ["eng"; "deu"] = ["eng"; "deu"] ++ ["fra"]
  /\ handleLanguageToggle "fra" (handleLanguageToggle "fra" ["eng"; "deu"])
     = ["eng"; "deu"].
Proof.
  apply (toggle_twice_restores "fra" ["eng"; "deu"]).
  - intros H. apply elem_of_cons in H as [H|H]; [discriminate|].
    apply elem_of_cons in H as [H|H]; [discriminate|inversion H].
  - discriminate.
Defined.

(** Deselecting a language while another one is selected removes it, and
    only it: the other languages stay, in their order. *)
Theorem toggle_off_removes_only_it (c d : string) (prev : list string) :
  c ∈ prev -> d ∈ prev -> d <> c ->
  (c ∉ handleLanguageToggle c prev)
  /\ (forall x, x <> c -> (x ∈ handleLanguageToggle c prev <-> x ∈ prev))
  /\ handleLanguageToggle c prev
     = List.filter (fun item => negb (bool_decide (item = c))) prev.
Proof.
  intros Hc Hd Hne.
  assert (Heq : handleLanguageToggle c prev
                = List.filter (fun item => negb (bool_decide (item = c))) prev).
  { unfold handleLanguageToggle, Js.includes.
    rewrite bool_decide_eq_true_2 by exact Hc.
    destruct (List.filter _ prev) as [|x l] eqn:Hf; [|reflexivity].
    exfalso. assert (Hin : d ∈ List.filter
                             (fun item => negb (bool_decide (item = c))) prev)
      by (apply filter_out_elem; split; assumption).
    rewrite Hf in Hin. inversion Hin. }
  rewrite Heq. split; [|split; [|reflexivity]].
  - intros H. apply filter_out_elem in H as [_ H]. congruence.
  - intros x Hx. rewrite filter_out_elem. tauto.
Qed.

Lemma toggle_off_removes_only_it_witness :
  ("deu" ∉ handleLanguageToggle "deu" ["eng"; "deu"; "fra"])
  /\ (forall x, x <> "deu" ->
        (x ∈ handleLanguageToggle "deu" ["eng"; "deu"; "fra"]
         <-> x ∈ ["eng"; "deu"; "fra"]))
  /\ handleLanguageToggle "deu" ["eng"; "deu"; "fra"]
     = List.filter (fun item => negb (bool_decide (item = "deu")))
         ["eng"; "deu"; "fra"].
Proof.
  apply (toggle_off_removes_only_it "deu" "eng" ["eng"; "deu"; "fra"]).
  - right. left.
  - left.
  - discriminate.
Defined.

(** The selection never holds a code twice: toggling keeps it free of
    duplicates, and so does an import, which adds the imported code only
    when it is not selected yet. *)
Theorem selection_stays_duplicate_free env st :
  NoDup (selectedLanguages st) ->
  (forall c, NoDup (selectedLanguages (toggleLanguage c st)))
  /\ NoDup (selectedLanguages (handleLanguageImport env st))
  /\ (forall files now,
        selectedLanguages (handleFiles st files now) = selectedLanguages st).
Proof.
  intros Hnd. split; [|split].
  - intros c. simpl. unfold handleLanguageToggle, Js.includes.
    destruct (bool_decide (c ∈ selectedLanguages st)) eqn:Hc.
    + destruct (List.filter _ (selectedLanguages st)) as [|x l] eqn:Hf;
        [exact Hnd|].
      rewrite <- Hf. apply NoDup_ListNoDup, List.NoDup_filter, NoDup_ListNoDup.
      exact Hnd.
    + apply bool_decide_eq_false in Hc. apply NoDup_app.
      split; [exact Hnd|]. split; [|apply NoDup_singleton].
      intros x Hx Hx'. apply list_elem_of_singleton in Hx'. subst x. contradiction.
  - unfold handleLanguageImport.
    destruct (languageFile st) as [file|]; [|exact Hnd].
    destruct (bool_decide _); [exact Hnd|].
    destruct (importLanguageFromFile env _ file) as [[c p]|e]; simpl; [|exact Hnd].
    unfold Js.includes.
    destruct (bool_decide (c ∈ selectedLanguages st)) eqn:Hc; [exact Hnd|].
    apply bool_decide_eq_false in Hc. apply NoDup_app.
    split; [exact Hnd|]. split; [|apply NoDup_singleton].
    intros x Hx Hx'. apply list_elem_of_singleton in Hx'. subst x. contradiction.
  - intros [files|] now; [|reflexivity]. unfold handleFiles.
    destruct (reportRejected_effect (selectedLanguages st) now
                (map fileName
                   (List.filter (fun file => negb (acceptable file)) files)) st)
      as (_ & Hsel1 & _).
    destruct (enqueue_all (selectedLanguages st) now
                (List.filter acceptable files)
                (reportRejected (selectedLanguages st) now
                   (map fileName
                      (List.filter (fun file => negb (acceptable file)) files))
                   st))
      as (_ & Hsel2 & _).
    cbv zeta in Hsel1, Hsel2. rewrite Hsel2. exact Hsel1.
Qed.

Lemma selection_stays_duplicate_free_witness :
  (forall c, NoDup (selectedLanguages (toggleLanguage c Samples.importingJpn)))
  /\ NoDup (selectedLanguages
              (handleLanguageImport Samples.collaborators Samples.importingJpn))
  /\ selectedLanguages
       (handleLanguageImport Samples.collaborators Samples.importingJpn)
     = ["eng"; "jpn"]
  /\ (forall files now,
        selectedLanguages (handleFiles Samples.importingJpn files now) = ["eng"]).
Proof.
  destruct (selection_stays_duplicate_free Samples.collaborators
              Samples.importingJpn) as (Htoggle & Himport & Hfiles).
  { simpl. apply NoDup_singleton. }
  split; [exact Htoggle|]. split; [exact Himport|].
  split; [reflexivity|exact Hfiles].
Defined.

(** ** Import of a language pack *)

(** An import that does not succeed changes neither the registry nor the
    selection: with no file chosen or a blank code nothing happens at all,
    and when the pack is refused only the busy flag is reset -- the form
    keeps its input. *)
Theorem import_without_success_keeps_registry env st :
  (languageFile st = None -> handleLanguageImport env st = st)
  /\ (Js.trim (languageCodeInput st) = "" -> handleLanguageImport env st = st)
  /\ (forall file e,
        languageFile st = Some file ->
        Js.trim (languageCodeInput st) <> "" ->
        importLanguageFromFile env (Js.toLowerCase (languageCodeInput st)) file
        = Rejected e ->
        let st' := handleLanguageImport env st in
        availableLanguages st' = availableLanguages st
        /\ selectedLanguages st' = selectedLanguages st
        /\ languageCodeInput st' = languageCodeInput st
        /\ languageFile st' = Some file
        /\ jobs st' = jobs st
        /\ isImportingLanguage st' = false).
Proof.
  unfold handleLanguageImport. split; [|split].
  - intros ->. reflexivity.
  - intros H. destruct (languageFile st); [|reflexivity].
    rewrite bool_decide_eq_true_2 by exact H. reflexivity.
  - intros file e Hfile Hcode Hrej. cbv zeta. rewrite Hfile.
    rewrite bool_decide_eq_false_2 by exact Hcode. rewrite Hrej. simpl.
    repeat split.
Qed.

(** A successful import of a code written in ASCII, as the codes of
    language packs are: the importer is given the code in lower case; the
    pack is registered under the code the importer returns, labelled with
    that code in upper case, the code is selected and the form is cleared.
    When the code was not registered before, the codes of the registry
    stay distinct and the code resolves to the new entry. *)
Theorem import_success_registers_and_selects env st file c p :
  languageFile st = Some file ->
  Js.isAscii (languageCodeInput st) = true ->
  Js.trim (languageCodeInput st) <> "" ->
  importLanguageFromFile env (Js.toLowerCase (languageCodeInput st)) file
  = Resolved (c, p) ->
  Js.isAscii c = true ->
  let st' := handleLanguageImport env st in
  let imported :=
    {| code := c; label := Js.toUpperCase c; path := p; builtIn := None |} in
  availableLanguages st' = availableLanguages st ++ [imported]
  /\ c ∈ selectedLanguages st'
  /\ (forall d, d ∈ selectedLanguages st -> d ∈ selectedLanguages st')
  /\ languageCodeInput st' = ""
  /\ languageFile st' = None
  /\ isImportingLanguage st' = false
  /\ (c ∉ map code (availableLanguages st) ->
      findLanguage c (availableLanguages st') = Some imported
      /\ (NoDup (map code (availableLanguages st)) ->
          NoDup (map code (availableLanguages st')))).
Proof.
  intros Hfile _ Hcode Himport _. cbv zeta. unfold handleLanguageImport.
  rewrite Hfile. rewrite bool_decide_eq_false_2 by exact Hcode.
  rewrite Himport. simpl.
  split; [reflexivity|]. split; [|split].
  - unfold Js.includes.
    destruct (bool_decide (c ∈ selectedLanguages st)) eqn:Hc.
    + apply bool_decide_eq_true in Hc. exact Hc.
    + apply elem_of_app. right. left.
  - intros d Hd. destruct (Js.includes (selectedLanguages st) c); [exact Hd|].
    apply elem_of_app. left. exact Hd.
  - repeat split.
    + unfold findLanguage.
      induction (availableLanguages st) as [|l0 ls IH]; simpl.
      * rewrite bool_decide_eq_true_2 by reflexivity. reflexivity.
      * simpl in H. apply not_elem_of_cons in H as [Hne Hc].
        rewrite bool_decide_eq_false_2 by congruence. apply IH. exact Hc.
    + intros Hnd. rewrite map_app. simpl. apply NoDup_app.
      split; [exact Hnd|]. split; [|apply NoDup_singleton].
      intros x Hx Hx'. apply list_elem_of_singleton in Hx'. subst x. contradiction.
Qed.

Lemma import_success_registers_and_selects_witness :
  let st' := handleLanguageImport Samples.collaborators Samples.importingJpn in
  let imported :=
    {| code := "jpn"; label := "JPN"; path := "/tesseract/jpn";
       builtIn := None |} in
  availableLanguages st' = [Samples.eng] ++ [imported]
  /\ "jpn" ∈ selectedLanguages st'
  /\ (forall d, d ∈ ["eng"] -> d ∈ selectedLanguages st')
  /\ languageCodeInput st' = ""
  /\ languageFile st' = None
  /\ isImportingLanguage st' = false
  /\ ("jpn" ∉ map code [Samples.eng] ->
      findLanguage "jpn" (availableLanguages st') = Some imported
      /\ (NoDup (map code [Samples.eng]) ->
          NoDup (map code (availableLanguages st')))).
Proof.
  apply (import_success_registers_and_selects Samples.collaborators
           Samples.importingJpn Samples.pack "jpn" "/tesseract/jpn").
  - reflexivity.
  - reflexivity.
  - vm_compute. discriminate.
  - reflexivity.
  - reflexivity.
Defined.

(** ** Runs of the driver *)

Lemma recognizePages_targets env jobId languageList total pages :
  forall index ws,
    Forall (fun a => targetOf a = jobId)
      (fst (recognizePages env jobId languageList total index pages ws)).
Proof.
  induction pages as [|page rest IH]; intros index ws; [constructor|].
  rewrite recognizePages_cons. cbv zeta.
  assert (Hcb : forall qs,
            Forall (fun a => targetOf a = jobId) (callbackWrites jobId total index qs)).
  { intros qs. unfold callbackWrites. apply Forall_fmap, Forall_forall.
    intros q _. reflexivity. }
  destruct (outcome (recognizeImage env (canvas page) languageList)) as [result|e].
  - specialize (IH (S index)
      (pushWarning ws (durationWarning index
         (elapsed (recognizeImage env (canvas page) languageList))))).
    destruct (recognizePages env jobId languageList total (S index) rest _)
      as [acts r]. simpl in *.
    apply Forall_app. split; [apply Hcb|].
    constructor; [reflexivity|]. constructor; [reflexivity|exact IH].
  - simpl. apply Hcb.
Qed.

(** Every write of a run is for the job it runs. *)
Lemma run_targets env st now jobId :
  Forall (fun a => targetOf a = jobId) (run env st now jobId).
Proof.
  unfold run, processFile.
  destruct (findJob jobId (jobs st)) as [job|] eqn:Hjob; [|constructor].
  destruct (fileMap st !! jobId) as [file|]; [|constructor].
  pose proof (findJob_id _ _ _ Hjob) as Hid.
  constructor; [reflexivity|]. unfold tryCatchFinally.
  destruct (tryBlock_cases env (availableLanguages st) job file now)
    as [[e ->]|(canvases & extracted & ws0 & acts & r & Hdoc & Hrec & ->)].
  - repeat constructor.
  - pose proof (recognizePages_targets env (id job) (languages job)
                  (length canvases) canvases 0
                  (noteEmptyContent canvases extracted ws0)) as Ht.
    rewrite Hrec, Hid in Ht. simpl in Ht.
    destruct r as [ws|e].
    + apply Forall_app. split; [|repeat constructor].
      apply Forall_app. split; [exact Ht|]. repeat constructor. exact Hid.
    + apply Forall_app. split; [exact Ht|]. repeat constructor.
Qed.

Lemma writes_elsewhere acts : forall st jobId,
  Forall (fun a => targetOf a = jobId) acts ->
  let s := finalState acts st in
  map id (jobs s) = map id (jobs st)
  /\ (forall n job, jobs st !! n = Some job -> id job <> jobId ->
        jobs s !! n = Some job)
  /\ (forall i, i <> jobId -> fileMap s !! i = fileMap st !! i)
  /\ availableLanguages s = availableLanguages st
  /\ selectedLanguages s = selectedLanguages st
  /\ uuidDraws s = uuidDraws st.
Proof.
  induction acts as [|a acts IH]; intros st jobId Hall; cbv zeta.
  - simpl. repeat split; auto.
  - apply Forall_cons in Hall as [Ha Hall].
    change (finalState (a :: acts) st) with (finalState acts (applyAction a st)).
    destruct (IH (applyAction a st) jobId Hall)
      as (Hids & Hjobs & Hfiles & Hav & Hsel & Hdraw).
    rewrite Hids, Hav, Hsel, Hdraw.
    split; [|split; [|split; [|split; [|split]]]].
    + rewrite jobs_applyAction, map_map. apply map_ext.
      intros j. apply id_applyToJob.
    + intros n job Hn Hne. apply Hjobs; [|exact Hne].
      rewrite jobs_applyAction, list_lookup_fmap, Hn. simpl. f_equal.
      destruct a as [i partial|i seg|i]; simpl in *; subst i;
        try (destruct (decide (id job = jobId)); [contradiction|]); reflexivity.
    + intros i Hi. rewrite Hfiles by exact Hi.
      destruct a as [j partial|j seg|j]; simpl in *; try reflexivity.
      subst j. apply lookup_delete_ne. congruence.
    + destruct a; reflexivity.
    + destruct a; reflexivity.
    + destruct a; reflexivity.
Qed.

(** A run writes to its own job only: in every state it goes through, the
    job table has the same jobs in the same places, every job with another
    id is as it was, the files held for other jobs are still held, and
    the languages are untouched. *)
Theorem run_leaves_other_jobs_alone env st now jobId k :
  let s := finalState (take k (run env st now jobId)) st in
  map id (jobs s) = map id (jobs st)
  /\ (forall n job, jobs st !! n = Some job -> id job <> jobId ->
        jobs s !! n = Some job)
  /\ (forall i, i <> jobId -> fileMap s !! i = fileMap st !! i)
  /\ availableLanguages s = availableLanguages st
  /\ selectedLanguages s = selectedLanguages st
  /\ uuidDraws s = uuidDraws st.
Proof.
  apply writes_elsewhere. apply Forall_take. apply run_targets.
Qed.

(** What a run leaves when its [try] block fails before the page loop. *)
Lemma run_fails_early env st now jobId job file e :
  getJob jobId st = Some job ->
  fileMap st !! jobId = Some file ->
  tryBlock env (availableLanguages st) job file now = ([], Rejected e) ->
  let st' := finalState (run env st now jobId) st in
  run env st now jobId
  = [UpdateJob jobId started; UpdateJob jobId (failed e); ReleaseFile jobId]
  /\ fileMap st' !! jobId = None
  /\ exists final,
       getJob jobId st' = Some final
       /\ status final = error
       /\ error_ final = Some (errorMessage e)
       /\ progress final = 0%Q
       /\ segments final = segments job
       /\ warnings final = warnings job
       /\ extractedText final = extractedText job
       /\ completedAt final = completedAt job.
Proof.
  intros Hjob Hfile Htry. cbv zeta.
  pose proof (findJob_id _ _ _ Hjob) as Hid.
  assert (Hrun : run env st now jobId
                 = [UpdateJob jobId started; UpdateJob jobId (failed e);
                    ReleaseFile jobId]).
  { unfold run, processFile. unfold getJob in Hjob. rewrite Hjob, Hfile, Htry.
    reflexivity. }
  rewrite Hrun. split; [reflexivity|]. split.
  - simpl. apply lookup_delete_eq.
  - rewrite getJob_finalState, Hjob. eexists. split; [reflexivity|].
    simpl. destruct (decide (id job = jobId)) as [_|Hne]; [|congruence]. simpl.
    destruct (decide (id job = jobId)) as [_|Hne]; [|congruence]. simpl.
    repeat split.
Qed.

Lemma firstRejected_none {A} (l : list (Timed A)) p e :
  firstRejected l = None -> p ∈ l -> settlement p <> Rejected e.
Proof.
  induction l as [|r rest IH]; intros Hnone Hp Hrej; [inversion Hp|].
  simpl in Hnone. apply elem_of_cons in Hp as [->|Hp].
  - rewrite Hrej in Hnone. destruct (firstRejected rest) as [[? ?]|];
      [destruct (_ <? _)%nat|]; discriminate.
  - destruct (settlement r).
    + apply IH; assumption.
    + destruct (firstRejected rest) as [[? ?]|]; [destruct (_ <? _)%nat|];
        discriminate.
Qed.

(** [Promise.all] is rejected with the reason of a promise that no other
    rejected promise precedes. *)
Lemma firstRejected_spec {A} (l : list (Timed A)) : forall t e,
  firstRejected l = Some (t, e) ->
  exists p,
    p ∈ l /\ settlesAt p = t /\ settlement p = Rejected e
    /\ forall q e', q ∈ l -> settlement q = Rejected e' -> t <= settlesAt q.
Proof.
  induction l as [|p rest IH]; intros t e Hfirst; [discriminate|].
  simpl in Hfirst.
  destruct (settlement p) as [a|e0] eqn:Hp.
  - destruct (IH t e Hfirst) as (p0 & Hin & Ht & He & Hmin).
    exists p0. split; [right; exact Hin|]. split; [exact Ht|]. split; [exact He|].
    intros q e' Hq Hrej. apply elem_of_cons in Hq as [->|Hq].
    + rewrite Hp in Hrej. discriminate.
    + eapply Hmin; eassumption.
  - destruct (firstRejected rest) as [[t' e']|] eqn:Hrest.
    + destruct (IH t' e' eq_refl) as (p0 & Hin & Ht & He & Hmin).
      destruct (Nat.ltb_spec t' (settlesAt p)) as [Hlt|Hge];
        injection Hfirst as <- <-.
      * exists p0. split; [right; exact Hin|]. split; [exact Ht|].
        split; [exact He|].
        intros q e'' Hq Hrej. apply elem_of_cons in Hq as [->|Hq]; [lia|].
        eapply Hmin; eassumption.
      * exists p. split; [left|]. split; [reflexivity|]. split; [exact Hp|].
        intros q e'' Hq Hrej. apply elem_of_cons in Hq as [->|Hq]; [lia|].
        specialize (Hmin q e'' Hq Hrej). lia.
    + injection Hfirst as <- <-.
      exists p. split; [left|]. split; [reflexivity|]. split; [exact Hp|].
      intros q e'' Hq Hrej. apply elem_of_cons in Hq as [->|Hq]; [lia|].
      exfalso. exact (firstRejected_none rest q e'' Hrest Hq Hrej).
Qed.

Lemma promiseAll_first {A} (l : list (Timed A)) p e :
  p ∈ l ->
  settlement p = Rejected e ->
  (forall q e', q ∈ l -> settlement q = Rejected e' ->
     q = p \/ settlesAt p < settlesAt q) ->
  promiseAll l = Rejected e.
Proof.
  intros Hp Hrej Hfirst. unfold promiseAll.
  destruct (firstRejected l) as [[t e0]|] eqn:Hl.
  - destruct (firstRejected_spec l t e0 Hl) as (p0 & Hin & Ht & He & Hmin).
    specialize (Hmin p e Hp Hrej).
    destruct (Hfirst p0 e0 Hin He) as [->|Hlater]; [congruence|lia].
  - exfalso. exact (firstRejected_none l p e Hl Hp Hrej).
Qed.

(** When a language pack of the job cannot be cached, and no other pack
    fails before it, the job ends in [error] with the message of that
    failure, before its document is looked at: no segment, no warning and
    no text is added, the progress is 0 and the file is released.  The
    pack need not be the first of the job's languages. *)
Theorem run_with_uncached_language env st now jobId job file language e :
  getJob jobId st = Some job ->
  fileMap st !! jobId = Some file ->
  language ∈ languageEntries (availableLanguages st) job ->
  settlement (ensureLanguageCached env language) = Rejected e ->
  (forall other e',
     other ∈ languageEntries (availableLanguages st) job ->
     settlement (ensureLanguageCached env other) = Rejected e' ->
     other = language
     \/ settlesAt (ensureLanguageCached env language)
        < settlesAt (ensureLanguageCached env other)) ->
  let st' := finalState (run env st now jobId) st in
  fileMap st' !! jobId = None
  /\ exists final,
       getJob jobId st' = Some final
       /\ status final = error
       /\ error_ final = Some (errorMessage e)
       /\ progress final = 0%Q
       /\ segments final = segments job
       /\ warnings final = warnings job
       /\ extractedText final = extractedText job
       /\ completedAt final = completedAt job.
Proof.
  intros Hjob Hfile Hin Hrej Hfirst.
  apply (run_fails_early env st now jobId job file e Hjob Hfile).
  unfold tryBlock.
  rewrite (promiseAll_first _ (ensureLanguageCached env language) e);
    [reflexivity| | |].
  - apply list_elem_of_fmap. eauto.
  - exact Hrej.
  - intros q e' Hq Hq'. apply list_elem_of_fmap in Hq as (other & -> & Hother).
    destruct (Hfirst other e' Hother Hq') as [->|Hlater]; [left; reflexivity|].
    right. exact Hlater.
Qed.

(** When the language packs are cached and the document cannot be resolved
    -- a decoder fails, or no decoder applies and the document step throws
    "Unsupported file type" -- the job ends in [error] with that message
    and nothing else is recorded. *)
Theorem run_with_unresolved_document env st now jobId job file e :
  getJob jobId st = Some job ->
  fileMap st !! jobId = Some file ->
  languagesCached env (availableLanguages st) job ->
  snd (resolveDocument env file) = Rejected e ->
  let st' := finalState (run env st now jobId) st in
  fileMap st' !! jobId = None
  /\ (acceptable file = false -> e = ErrorObject "Unsupported file type")
  /\ exists final,
       getJob jobId st' = Some final
       /\ status final = error
       /\ error_ final = Some (errorMessage e)
       /\ progress final = 0%Q
       /\ segments final = segments job
       /\ warnings final = warnings job
       /\ extractedText final = extractedText job
       /\ completedAt final = completedAt job.
Proof.
  intros Hjob Hfile Hlang Hdoc. cbv zeta.
  assert (Htry : tryBlock env (availableLanguages st) job file now
                 = ([], Rejected e)).
  { unfold tryBlock. destruct (languagesCached_all env _ _ Hlang) as [u ->].
    pose proof (resolveDocument_silent env file) as Hs.
    destruct (resolveDocument env file) as [w r]. simpl in Hs, Hdoc. subst.
    reflexivity. }
  destruct (run_fails_early env st now jobId job file e Hjob Hfile Htry)
    as (_ & Hreleased & Hfinal).
  split; [exact Hreleased|]. split; [|exact Hfinal].
  intros Hacc. rewrite (unaccepted_throws env file Hacc) in Hdoc.
  simpl in Hdoc. congruence.
Qed.

Lemma run_with_uncached_language_witness :
  let st := Samples.bilingual Samples.twoPages in
  let st' := finalState (run Samples.flaky st 5 0) st in
  languages (pendingJob 0 ["eng"; "deu"] Samples.twoPages 1000) = ["eng"; "deu"]
  /\ fileMap st' !! 0 = None
  /\ exists final,
       getJob 0 st' = Some final
       /\ status final = error
       /\ error_ final = Some "deu: not found"
       /\ progress final = 0%Q
       /\ segments final = []
       /\ warnings final = []
       /\ extractedText final = ""
       /\ completedAt final = None.
Proof.
  split; [reflexivity|].
  apply (run_with_uncached_language Samples.flaky
           (Samples.bilingual Samples.twoPages) 5 0
           (pendingJob 0 ["eng"; "deu"] Samples.twoPages 1000) Samples.twoPages
           Samples.deu (ErrorObject "deu: not found")).
  - reflexivity.
  - reflexivity.
  - right. left.
  - reflexivity.
  - intros other e' Hother Hrej.
    apply elem_of_cons in Hother as [->|Hother]; [right; simpl; lia|].
    apply elem_of_cons in Hother as [->|Hother]; [left; reflexivity|].
    inversion Hother.
Defined.

Lemma run_with_unresolved_document_witness :
  let st := Samples.dropped Samples.twoPages in
  let st' := finalState (run Samples.unreadable st 5 0) st in
  fileMap st' !! 0 = None
  /\ (acceptable Samples.twoPages = false ->
      ErrorObject "Invalid PDF structure" = ErrorObject "Unsupported file type")
  /\ exists final,
       getJob 0 st' = Some final
       /\ status final = error
       /\ error_ final = Some "Invalid PDF structure"
       /\ progress final = 0%Q
       /\ segments final = []
       /\ warnings final = []
       /\ extractedText final = ""
       /\ completedAt final = None.
Proof.
  apply (run_with_unresolved_document Samples.unreadable
           (Samples.dropped Samples.twoPages) 5 0
           (pendingJob 0 ["eng"] Samples.twoPages 1000) Samples.twoPages
           (ErrorObject "Invalid PDF structure")).
  - reflexivity.
  - reflexivity.
  - reflexivity.
  - reflexivity.
Defined.

(** Where a run that has started stands once the promises it awaits have
    settled: the job is [completed], with no error, its completion time
    and progress 1, or it is in [error] with a message and no completion
    time; in both cases its file is released.  No other end is possible.
    (A run that waits on a promise that never settles has no end: nothing
    is said of it here.) *)
Theorem run_ends_terminal env st now jobId job file :
  getJob jobId st = Some job ->
  fileMap st !! jobId = Some file ->
  let st' := finalState (run env st now jobId) st in
  fileMap st' !! jobId = None
  /\ exists final,
       getJob jobId st' = Some final
       /\ ((status final = completed
            /\ error_ final = None
            /\ completedAt final = Some now
            /\ progress final = 1%Q)
           \/ (status final = error
               /\ (exists e, error_ final = Some (errorMessage e))
               /\ completedAt final = completedAt job)).
Proof.
  intros Hjob Hfile. cbv zeta.
  assert (Hearly : forall e,
            tryBlock env (availableLanguages st) job file now = ([], Rejected e) ->
            fileMap (finalState (run env st now jobId) st) !! jobId = None
            /\ exists final,
                 getJob jobId (finalState (run env st now jobId) st) = Some final
                 /\ ((status final = completed
                      /\ error_ final = None
                      /\ completedAt final = Some now
                      /\ progress final = 1%Q)
                     \/ (status final = error
                         /\ (exists e, error_ final = Some (errorMessage e))
                         /\ completedAt final = completedAt job))).
  { intros e Htry.
    destruct (run_fails_early env st now jobId job file e Hjob Hfile Htry)
      as (_ & Hrel & final & Hfinal & Hst & Herr & _ & _ & _ & _ & Hcmp).
    split; [exact Hrel|]. exists final. split; [exact Hfinal|].
    right. eauto. }
  destruct (promiseAll (map (ensureLanguageCached env)
              (languageEntries (availableLanguages st) job))) as [u|e] eqn:Hall.
  - assert (Hlang : languagesCached env (availableLanguages st) job)
      by (unfold languagesCached; rewrite Hall; reflexivity).
    destruct (documentPages env file) as [[[canvases extracted] ws0]|] eqn:Hdoc.
    + destruct (run_outcome env st now jobId job file canvases extracted ws0
                  Hjob Hfile Hlang Hdoc)
        as (final & Hfinal & Hrel & _ & Hcase).
      split; [exact Hrel|]. exists final. split; [exact Hfinal|].
      destruct Hcase as [(_ & Hst & Hp & _ & _ & Hc & He)
                        |(page & e & _ & _ & Hst & He & _ & _ & Hc)].
      * left. tauto.
      * right. eauto.
    + unfold documentPages in Hdoc.
      pose proof (resolveDocument_silent env file) as Hs.
      destruct (resolveDocument env file) as [w [r|e]] eqn:Hres;
        [discriminate|]. simpl in Hs. subst w.
      apply (Hearly e). unfold tryBlock. rewrite Hall, Hres. reflexivity.
  - apply (Hearly e). unfold tryBlock. rewrite Hall. reflexivity.
Qed.

Lemma run_ends_terminal_witness :
  let st := Samples.dropped Samples.threePages in
  let st' := finalState (run Samples.collaborators st 5 0) st in
  fileMap st' !! 0 = None
  /\ exists final,
       getJob 0 st' = Some final
       /\ ((status final = completed
            /\ error_ final = None
            /\ completedAt final = Some 5
            /\ progress final = 1%Q)
           \/ (status final = error
               /\ (exists e, error_ final = Some (errorMessage e))
               /\ completedAt final = None)).
Proof.
  apply (run_ends_terminal Samples.collaborators
           (Samples.dropped Samples.threePages) 5 0
           (pendingJob 0 ["eng"] Samples.threePages 1000) Samples.threePages).
  - reflexivity.
  - reflexivity.
Defined.

(** ** Status *)

Section Climbing.

Variable jobId : JobId.

Lemma status_applyToJob a job :
  id job = jobId ->
  status (applyToJob a job) = default (status job) (statusSet jobId a).
Proof.
  intros Hid. destruct a as [i partial|i seg|i]; simpl; try reflexivity.
  - rewrite Hid. destruct (decide (jobId = i)) as [<-|Hne].
    + destruct (decide (jobId = jobId)); [reflexivity|congruence].
    + destruct (decide (i = jobId)); [congruence|reflexivity].
  - destruct (decide (id job = i)); reflexivity.
Qed.

Lemma climbing_history acts : forall st job lo,
  getJob jobId st = Some job ->
  lo <= statusRank (status job) ->
  climbing jobId (statusRank (status job)) acts ->
  StronglySorted le (map statusRank (statusHistory jobId (snapshots acts st)))
  /\ Forall (le lo) (map statusRank (statusHistory jobId (snapshots acts st))).
Proof.
  induction acts as [|a acts IH]; intros st job lo Hjob Hlo Hcl.
  - unfold statusHistory. simpl. rewrite Hjob. simpl.
    split; repeat constructor. exact Hlo.
  - unfold statusHistory. cbn [snapshots omap list_omap]. rewrite Hjob.
    cbn [fmap option_fmap option_map]. fold (statusHistory jobId).
    pose proof (findJob_id _ _ _ Hjob) as Hid.
    assert (Hjob' : getJob jobId (applyAction a st) = Some (applyToJob a job))
      by (rewrite getJob_applyAction, Hjob; reflexivity).
    pose proof (status_applyToJob a job Hid) as Hs.
    simpl in Hcl.
    assert (Hstep : statusRank (status job) <= statusRank (status (applyToJob a job))
                    /\ climbing jobId (statusRank (status (applyToJob a job))) acts).
    { rewrite Hs. destruct (statusSet jobId a) as [s|]; simpl.
      - exact Hcl.
      - split; [lia|exact Hcl]. }
    destruct Hstep as [Hle Hcl'].
    destruct (IH (applyAction a st) (applyToJob a job) (statusRank (status job))
                Hjob' Hle Hcl') as [Hsorted Hall].
    split.
    + simpl. constructor; assumption.
    + simpl. constructor; [exact Hlo|].
      eapply Forall_impl; [exact Hall|]. simpl. intros q Hq. lia.
Qed.

Lemma climbing_quiet acts rest lo :
  Forall (fun a => statusSet jobId a = None) acts ->
  climbing jobId lo rest -> climbing jobId lo (acts ++ rest).
Proof.
  induction 1 as [|a acts Ha _ IH]; intros Hrest; simpl; [exact Hrest|].
  rewrite Ha. apply IH. exact Hrest.
Qed.

Lemma recognizePages_quiet env languageList total pages : forall index ws,
  Forall (fun a => statusSet jobId a = None)
    (fst (recognizePages env jobId languageList total index pages ws)).
Proof.
  induction pages as [|page rest IH]; intros index ws; [constructor|].
  rewrite recognizePages_cons. cbv zeta.
  assert (Hcb : forall qs,
            Forall (fun a => statusSet jobId a = None)
              (callbackWrites jobId total index qs)).
  { intros qs. unfold callbackWrites. apply Forall_fmap, Forall_forall.
    intros q _. simpl. destruct (decide (jobId = jobId)); reflexivity. }
  destruct (outcome (recognizeImage env (canvas page) languageList)) as [result|e].
  - specialize (IH (S index)
      (pushWarning ws (durationWarning index
         (elapsed (recognizeImage env (canvas page) languageList))))).
    destruct (recognizePages env jobId languageList total (S index) rest _)
      as [acts r]. simpl in *.
    apply Forall_app. split; [apply Hcb|].
    constructor; [reflexivity|].
    constructor; [|exact IH].
    unfold pageDone. simpl. destruct (decide (jobId = jobId)); reflexivity.
  - simpl. apply Hcb.
Qed.

End Climbing.

(** The status of a job moves one way along its run: [pending], then
    [processing] from the first write to the last but one, then
    [completed] or [error]; it never goes back. *)
Theorem status_moves_forward env st now jobId job :
  getJob jobId st = Some job ->
  status job = pending ->
  StronglySorted le
    (map statusRank (statusHistory jobId (snapshots (run env st now jobId) st))).
Proof.
  intros Hjob Hpending.
  refine (proj1 (climbing_history jobId _ st job 0 Hjob _ _)); [lia|].
  rewrite Hpending. unfold run, processFile.
  pose proof Hjob as Hjob'. unfold getJob in Hjob'. rewrite Hjob'.
  pose proof (findJob_id _ _ _ Hjob) as Hid.
  destruct (fileMap st !! jobId) as [file|] eqn:Hfile; [|exact I].
  simpl. destruct (decide (jobId = jobId)) as [_|Hne]; [|congruence]. simpl.
  split; [lia|]. unfold tryCatchFinally.
  destruct (tryBlock_cases env (availableLanguages st) job file now)
    as [[e ->]|(canvases & extracted & ws0 & acts & r & Hdoc & Hrec & ->)].
  - simpl. destruct (decide (jobId = jobId)) as [_|Hne]; [|congruence].
    simpl. split; [lia|exact I].
  - rewrite Hid in *.
    pose proof (recognizePages_quiet jobId env (languages job) (length canvases)
                  canvases 0 (noteEmptyContent canvases extracted ws0)) as Hq.
    rewrite Hrec in Hq. simpl in Hq.
    destruct r as [ws|e].
    + rewrite <- app_assoc. apply climbing_quiet; [exact Hq|]. simpl.
      destruct (decide (jobId = jobId)) as [_|Hne]; [|congruence]. simpl.
      split; [lia|exact I].
    + apply climbing_quiet; [exact Hq|]. simpl.
      destruct (decide (jobId = jobId)) as [_|Hne]; [|congruence]. simpl.
      split; [lia|exact I].
Qed.

Lemma status_moves_forward_witness :
  StronglySorted le
    (map statusRank
       (statusHistory 0
          (snapshots
             (run Samples.collaborators (Samples.dropped Samples.threePages) 5 0)
             (Samples.dropped Samples.threePages)))).
Proof.
  apply (status_moves_forward Samples.collaborators
           (Samples.dropped Samples.threePages) 5 0
           (pendingJob 0 ["eng"] Samples.threePages 1000)).
  - reflexivity.
  - reflexivity.
Defined.

(** ** Warnings *)

Section Late.

Variable env : Collaborators.
Variable languageList : list string.

Lemma lateWarnings_slow_page (pages : list RenderedPage) : forall index i page w,
  pages !! i = Some page ->
  durationWarning (index + i)
    (elapsed (recognizeImage env (canvas page) languageList)) = Some w ->
  w ∈ lateWarnings env languageList index pages.
Proof.
  induction pages as [|p0 rest IH]; intros index i page w Hi Hw; [inversion Hi|].
  simpl. destruct i as [|i]; simpl in Hi.
  - injection Hi as ->. rewrite Nat.add_0_r in Hw. rewrite Hw. simpl. left.
  - apply elem_of_app. right. apply (IH (S index) i page w Hi).
    replace (S index + i) with (index + S i) by lia. exact Hw.
Qed.

Lemma lateWarnings_none (pages : list RenderedPage) : forall index,
  (forall page, page ∈ pages ->
     (elapsed (recognizeImage env (canvas page) languageList) <= 15000)%Q) ->
  lateWarnings env languageList index pages = [].
Proof.
  induction pages as [|p0 rest IH]; intros index Hall; [reflexivity|].
  simpl. rewrite IH by (intros page Hp; apply Hall; right; exact Hp).
  unfold durationWarning.
  destruct (Qlt_le_dec 15000 (elapsed (recognizeImage env (canvas p0) languageList)))
    as [Hlt|Hle]; [|reflexivity].
  exfalso. apply (Qlt_not_le _ _ Hlt). apply Hall. left.
Qed.

End Late.

(** A completed job carries one warning for each page whose recognition
    took more than 15 seconds, naming the page by its number and giving
    the time in seconds with one decimal; a page that took 15 seconds or
    less adds none, so when no page was slow the warnings are those of the
    document step. *)
Theorem slow_pages_are_warned
  env st now jobId job file canvases extracted (ws0 : list string) final :
  getJob jobId st = Some job ->
  fileMap st !! jobId = Some file ->
  languagesCached env (availableLanguages st) job ->
  documentPages env file = Some (canvases, extracted, ws0) ->
  getJob jobId (finalState (run env st now jobId) st) = Some final ->
  status final = completed ->
  (forall i page,
     canvases !! i = Some page ->
     (15000 < elapsed (recognizeImage env (canvas page) (languages job)))%Q ->
     ("Page " +:+ Js.numberToString (i + 1) +:+ " took "
      +:+ Js.toFixed
            (Js.divide (elapsed (recognizeImage env (canvas page) (languages job)))
               1000) 1
      +:+ "s to process. Consider splitting large documents.")
     ∈ warnings final)
  /\ ((forall page, page ∈ canvases ->
         (elapsed (recognizeImage env (canvas page) (languages job)) <= 15000)%Q) ->
      warnings final = noteEmptyContent canvases extracted ws0).
Proof.
  intros Hjob Hfile Hlang Hdoc Hfinal Hdone.
  destruct (run_outcome env st now jobId job file canvases extracted ws0
              Hjob Hfile Hlang Hdoc)
    as (final' & Hfinal' & _ & _ & Hcase).
  rewrite Hfinal in Hfinal'. injection Hfinal' as <-.
  destruct Hcase as [(_ & _ & _ & Hw & _)|(page & e & _ & _ & Hst & _)];
    [|rewrite Hst in Hdone; discriminate].
  rewrite Hw. split.
  - intros i page Hi Hslow. apply elem_of_app. right.
    apply (lateWarnings_slow_page env (languages job) canvases 0 i page); [exact Hi|].
    unfold durationWarning.
    destruct (Qlt_le_dec 15000
                (elapsed (recognizeImage env (canvas page) (languages job))))
      as [_|Hle]; [reflexivity|].
    exfalso. apply (Qlt_not_le _ _ Hslow). exact Hle.
  - intros Hfast. rewrite lateWarnings_none by exact Hfast. apply app_nil_r.
Qed.

Lemma slow_pages_are_warned_witness :
  let st := Samples.dropped Samples.twoPages in
  let final := jobAfter (run Samples.slow st 5 0)
                 (pendingJob 0 ["eng"] Samples.twoPages 1000) in
  "Page 2 took 16.4s to process. Consider splitting large documents."
  ∈ warnings final.
Proof.
  cbv zeta.
  set (st := Samples.dropped Samples.twoPages).
  set (job := pendingJob 0 ["eng"] Samples.twoPages 1000).
  set (final := jobAfter (run Samples.slow st 5 0) job).
  assert (Hjob : getJob 0 st = Some job) by reflexivity.
  assert (Hfile : fileMap st !! 0 = Some Samples.twoPages) by reflexivity.
  assert (Hlang : languagesCached Samples.slow (availableLanguages st) job)
    by reflexivity.
  assert (Hdoc : documentPages Samples.slow Samples.twoPages
                 = Some (Samples.pagesOf Samples.twoPages, "", []))
    by reflexivity.
  assert (Hfinal : getJob 0 (finalState (run Samples.slow st 5 0) st) = Some final)
    by (vm_compute; reflexivity).
  assert (Hdone : status final = completed) by (vm_compute; reflexivity).
  destruct (slow_pages_are_warned Samples.slow st 5 0 job Samples.twoPages
              (Samples.pagesOf Samples.twoPages) "" [] final
              Hjob Hfile Hlang Hdoc Hfinal Hdone) as [Hslow _].
  assert (Hlate : (15000 < elapsed (recognizeImage Samples.slow 1%nat ["eng"]))%Q)
    by reflexivity.
  exact (Hslow 1%nat {| canvas := 1%nat |} eq_refl Hlate).
Defined.

(** The boundary and the wording: 15 seconds sharp is not slow, and 16450
    milliseconds are reported as 16.4 seconds for page 2, the quotient
    16450 / 1000 being the double just below 16.45. *)
Example slow_page_warning_text :
  warnings (jobAfter (run Samples.slow (Samples.dropped Samples.twoPages) 5 0)
              (pendingJob 0 ["eng"] Samples.twoPages 1000))
  = ["Page 2 took 16.4s to process. Consider splitting large documents."]
  /\ Js.toFixed (16450 / 1000) 1 = "16.5".
Proof. split; vm_compute; reflexivity. Qed.

(** ** Word documents without pictures *)

(** *** [trim] *)

Lemma dropPrefix_Some p : forall l r,
  Js.dropPrefix p l = Some r -> l = p ++ r.
Proof.
  induction p as [|a p IH]; intros l r H; simpl in H.
  - injection H as ->. reflexivity.
  - destruct l as [|b l]; [discriminate|].
    destruct (Ascii.eqb_spec a b) as [->|Hne]; [|discriminate].
    rewrite (IH l r H). reflexivity.
Qed.

Lemma dropPrefix_None p : forall l r,
  Js.dropPrefix p l = None -> l <> p ++ r.
Proof.
  induction p as [|a p IH]; intros l r H Heq; simpl in H; [discriminate|].
  destruct l as [|b l]; [discriminate|].
  simpl in Heq. injection Heq as -> Heq.
  rewrite Ascii.eqb_refl in H. exact (IH l r H Heq).
Qed.

Lemma stripAny_Some marks : forall l r,
  Js.stripAny marks l = Some r -> exists w, w ∈ marks /\ l = w ++ r.
Proof.
  induction marks as [|w marks IH]; intros l r H; simpl in H; [discriminate|].
  destruct (Js.dropPrefix w l) as [r'|] eqn:Hw.
  - injection H as ->. exists w. split; [left|]. apply dropPrefix_Some. exact Hw.
  - destruct (IH l r H) as (w' & Hin & Heq). exists w'. split; [right|]; assumption.
Qed.

Lemma stripAny_None marks : forall l w r,
  Js.stripAny marks l = None -> w ∈ marks -> l <> w ++ r.
Proof.
  induction marks as [|w0 marks IH]; intros l w r H Hin; [inversion Hin|].
  simpl in H. destruct (Js.dropPrefix w0 l) as [r'|] eqn:Hw; [discriminate|].
  apply elem_of_cons in Hin as [->|Hin].
  - apply dropPrefix_None. exact Hw.
  - apply IH; assumption.
Qed.

Lemma stripAll_spec marks :
  Forall (fun w => w <> []) marks ->
  forall rounds l,
    length l <= rounds ->
    exists parts,
      Forall (fun w => w ∈ marks) parts
      /\ l = concat parts ++ Js.stripAll marks rounds l
      /\ Js.stripAny marks (Js.stripAll marks rounds l) = None.
Proof.
  intros Hmarks. induction rounds as [|n IH]; intros l Hlen.
  - destruct l; [|simpl in Hlen; lia]. exists []. split; [constructor|].
    split; [reflexivity|]. simpl.
    induction Hmarks as [|w marks Hw _ IHm]; [reflexivity|].
    simpl. destruct w; [contradiction|]. exact IHm.
  - simpl. destruct (Js.stripAny marks l) as [r|] eqn:Hstrip.
    + destruct (stripAny_Some marks l r Hstrip) as (w & Hw & ->).
      assert (Hne : w <> []) by (rewrite Forall_forall in Hmarks; auto).
      destruct (IH r) as (parts & Hparts & Hr & Hdone).
      { rewrite length_app in Hlen. destruct w; [contradiction|].
        simpl in Hlen. lia. }
      exists (w :: parts). split; [constructor; assumption|].
      split; [|exact Hdone]. simpl. rewrite <- app_assoc, <- Hr. reflexivity.
    + exists []. split; [constructor|]. split; [reflexivity|exact Hstrip].
Qed.

Lemma append_assoc (a b c : string) : (a +:+ b) +:+ c = a +:+ b +:+ c.
Proof.
  induction a as [|x a IH]; [reflexivity|].
  change (String x ((a +:+ b) +:+ c) = String x (a +:+ b +:+ c)).
  f_equal. exact IH.
Qed.

Lemma string_of_app (a b : list ascii) :
  string_of_list_ascii (a ++ b) = string_of_list_ascii a +:+ string_of_list_ascii b.
Proof. induction a as [|x a IH]; simpl; [reflexivity|]. rewrite IH. reflexivity. Qed.

Lemma list_of_app (a b : string) :
  list_ascii_of_string (a +:+ b) = list_ascii_of_string a ++ list_ascii_of_string b.
Proof. induction a as [|x a IH]; simpl; [reflexivity|]. rewrite IH. reflexivity. Qed.

Lemma blank_of_parts (parts : list (list ascii)) :
  Forall (fun w => w ∈ map list_ascii_of_string Js.whiteSpace) parts ->
  Js.blank (string_of_list_ascii (concat parts)).
Proof.
  intros Hparts. exists (map string_of_list_ascii parts). split.
  - apply Forall_fmap. eapply Forall_impl; [exact Hparts|].
    intros w Hw. simpl. apply list_elem_of_fmap in Hw as (v & -> & Hv).
    rewrite string_of_list_ascii_of_string. exact Hv.
  - clear Hparts. induction parts as [|w parts IH]; [reflexivity|].
    simpl. rewrite string_of_app, IH. reflexivity.
Qed.

Lemma reverse_concat (parts : list (list ascii)) :
  reverse (concat parts) = concat (reverse (map reverse parts)).
Proof.
  induction parts as [|w parts IH]; [reflexivity|].
  simpl. rewrite reverse_app, IH, reverse_cons, concat_app. simpl.
  rewrite app_nil_r. reflexivity.
Qed.

Lemma trimStart_spec s :
  exists lead,
    Js.blank lead /\ s = lead +:+ Js.trimStart s
    /\ forall w r, w ∈ Js.whiteSpace -> Js.trimStart s <> w +:+ r.
Proof.
  unfold Js.trimStart. cbv zeta.
  set (marks := map list_ascii_of_string Js.whiteSpace).
  destruct (stripAll_spec marks) with (rounds := length (list_ascii_of_string s))
    (l := list_ascii_of_string s) as (parts & Hparts & Hl & Hdone).
  { unfold marks, Js.whiteSpace. repeat constructor; discriminate. }
  { lia. }
  set (t := Js.stripAll marks _ _) in *.
  exists (string_of_list_ascii (concat parts)).
  split; [apply blank_of_parts; exact Hparts|]. split.
  - rewrite <- string_of_app, <- Hl. symmetry. apply string_of_list_ascii_of_string.
  - intros w r Hw Heq.
    apply (stripAny_None marks t (list_ascii_of_string w) (list_ascii_of_string r) Hdone).
    + apply list_elem_of_fmap. eauto.
    + rewrite <- list_of_app, <- Heq. symmetry.
      apply list_ascii_of_string_of_list_ascii.
Qed.

Lemma trimEnd_spec s :
  exists trail,
    Js.blank trail /\ s = Js.trimEnd s +:+ trail
    /\ forall w r, w ∈ Js.whiteSpace -> Js.trimEnd s <> r +:+ w.
Proof.
  unfold Js.trimEnd. cbv zeta.
  set (marks := map (fun w => reverse (list_ascii_of_string w)) Js.whiteSpace).
  destruct (stripAll_spec marks)
    with (rounds := length (reverse (list_ascii_of_string s)))
         (l := reverse (list_ascii_of_string s)) as (parts & Hparts & Hl & Hdone).
  { unfold marks, Js.whiteSpace. repeat constructor; discriminate. }
  { lia. }
  set (t := Js.stripAll marks _ _) in *.
  assert (Hs : list_ascii_of_string s = reverse t ++ reverse (concat parts)).
  { rewrite <- reverse_app, <- Hl, reverse_involutive. reflexivity. }
  exists (string_of_list_ascii (reverse (concat parts))).
  split; [|split].
  - rewrite reverse_concat. apply blank_of_parts.
    apply Forall_reverse, Forall_fmap. eapply Forall_impl; [exact Hparts|].
    intros w Hw. change (reverse w ∈ map list_ascii_of_string Js.whiteSpace).
    unfold marks in Hw.
    apply list_elem_of_fmap in Hw as (v & -> & Hv).
    rewrite reverse_involutive. apply list_elem_of_fmap. eauto.
  - rewrite <- string_of_app, <- Hs. symmetry. apply string_of_list_ascii_of_string.
  - intros w r Hw Heq.
    apply (stripAny_None marks t (reverse (list_ascii_of_string w))
             (reverse (list_ascii_of_string r)) Hdone).
    + unfold marks. apply list_elem_of_fmap. eauto.
    + rewrite <- reverse_app, <- list_of_app, <- Heq.
      rewrite list_ascii_of_string_of_list_ascii, reverse_involutive. reflexivity.
Qed.

(** [trim] removes white space, all of it, from the two ends and nothing
    else. *)
Lemma trim_spec s :
  exists lead trail,
    s = lead +:+ Js.trim s +:+ trail
    /\ Js.blank lead /\ Js.blank trail /\ Js.trimmed (Js.trim s).
Proof.
  destruct (trimStart_spec s) as (lead & Hlead & Hs & Hfront).
  destruct (trimEnd_spec (Js.trimStart s)) as (trail & Htrail & Ht & Hback).
  exists lead, trail. fold (Js.trim s) in Ht, Hback.
  split; [rewrite <- Ht; exact Hs|]. split; [exact Hlead|]. split; [exact Htrail|].
  intros w Hw r. split.
  - intros Heq. apply (Hfront w (r +:+ trail) Hw).
    rewrite Ht, Heq. apply append_assoc.
  - apply Hback. exact Hw.
Qed.

(** A Word document from which no picture is extracted is not sent to the
    engine: the job completes with no segment and with the extracted text,
    warned that it holds no embedded image and, when the text is empty
    too, that there is no visual content, in this order; its output is the
    trimmed text followed by an empty line -- the text without the white
    space at its two ends, and with all that is between. *)
Theorem docx_without_images_completes env st now jobId job file extracted :
  getJob jobId st = Some job ->
  fileMap st !! jobId = Some file ->
  segments job = [] ->
  languagesCached env (availableLanguages st) job ->
  isImage file = false -> isPdf file = false -> isDocx file = true ->
  extractDocxText env file = Resolved extracted ->
  extractDocxImages env file = Resolved [] ->
  exists final,
    getJob jobId (finalState (run env st now jobId) st) = Some final
    /\ status final = completed
    /\ segments final = []
    /\ extractedText final = extracted
    /\ warnings final
       = "No embedded images found in the document; OCR is limited to textual extraction."
         :: match extracted with
            | EmptyString => ["No visual content found for OCR."]
            | _ => []
            end
    /\ aggregatedText final
       = match extracted with
         | EmptyString => ""
         | _ => Js.trim extracted +:+ Js.LF +:+ Js.LF
         end
    /\ exists lead trail,
         extracted = lead +:+ Js.trim extracted +:+ trail
         /\ Js.blank lead /\ Js.blank trail
         /\ Js.trimmed (Js.trim extracted).
Proof.
  intros Hjob Hfile Hsegs Hlang Himg Hpdf Hdocx Htext Himages.
  assert (Hdoc : documentPages env file
                 = Some ([], extracted,
                     ["No embedded images found in the document; OCR is limited to textual extraction."])).
  { unfold documentPages, resolveDocument.
    rewrite Himg, Hpdf, Hdocx. unfold bind, await, ret.
    rewrite Htext, Himages. reflexivity. }
  destruct (run_outcome env st now jobId job file [] extracted _
              Hjob Hfile Hlang Hdoc)
    as (final & Hfinal & _ & Hseg & Hcase).
  exists final. split; [exact Hfinal|].
  rewrite Hsegs in Hseg. simpl in Hseg.
  destruct Hcase as [(_ & Hst & _ & Hw & Htxt & _)|(page & e & Hpage & _)];
    [|simpl in Hpage; discriminate].
  split; [exact Hst|]. split; [exact Hseg|]. split; [exact Htxt|].
  split; [|split].
  - rewrite Hw. simpl. rewrite app_nil_r. destruct extracted; reflexivity.
  - unfold aggregatedText. rewrite Htxt, Hseg.
    destruct extracted; [reflexivity|].
    change (combineSegments []) with "".
    generalize (Js.trim (String a extracted) +:+ Js.LF +:+ Js.LF).
    intros t. induction t as [|c t IH]; [reflexivity|].
    change (String c t +:+ "") with (String c (t +:+ "")). rewrite IH.
    reflexivity.
  - apply trim_spec.
Qed.

Lemma docx_without_images_completes_witness :
  exists final,
    getJob 0 (finalState (run Samples.textOnly (Samples.dropped Samples.memo) 5 0)
                (Samples.dropped Samples.memo)) = Some final
    /\ status final = completed
    /\ segments final = []
    /\ extractedText final = Samples.greeting
    /\ warnings final
       = ["No embedded images found in the document; OCR is limited to textual extraction."]
    /\ aggregatedText final = "Dear all," +:+ Js.LF +:+ Js.LF.
Proof.
  destruct (docx_without_images_completes Samples.textOnly
              (Samples.dropped Samples.memo) 5 0
              (pendingJob 0 ["eng"] Samples.memo 1000) Samples.memo
              Samples.greeting
              eq_refl eq_refl eq_refl eq_refl eq_refl eq_refl eq_refl eq_refl
              eq_refl)
    as (final & Hfinal & Hst & Hseg & Htxt & Hw & Hout & _).
  exists final. split; [exact Hfinal|]. split; [exact Hst|].
  split; [exact Hseg|]. split; [exact Htxt|]. split; [exact Hw|].
  rewrite Hout. vm_compute. reflexivity.
Defined.

(** ** The text of a job *)

Lemma append_empty (a b : string) : a +:+ b = "" -> a = "" /\ b = "".
Proof. destruct a; simpl; [tauto|discriminate]. Qed.

Lemma combineSegments_nonempty (segs : list RecognizedSegment) :
  segs <> [] -> combineSegments segs <> "".
Proof.
  intros Hsegs. unfold combineSegments, segmentBlocks.
  destruct (sortSegments segs) as [|h t] eqn:Hsort.
  { pose proof (sortSegments_perm segs) as Hp. rewrite Hsort in Hp.
    apply Permutation_nil in Hp. contradiction. }
  cbn [imap]. unfold Js.join. cbn [String.concat].
  intros H.
  assert (Hblock : segmentBlock 0 h = "").
  { destruct (imap (segmentBlock ∘ S) t); [exact H|].
    apply append_empty in H as [H _]. exact H. }
  unfold segmentBlock in Hblock. apply append_empty in Hblock as [Hb _].
  discriminate Hb.
Qed.

(** The text of a job is empty exactly when the job has no extracted text
    and no segment: this is when the page shows "No text detected." *)
Theorem aggregatedText_empty_iff job :
  aggregatedText job = "" <-> extractedText job = "" /\ segments job = [].
Proof.
  unfold aggregatedText. split.
  - intros H. apply append_empty in H as [Htext Hsegs].
    destruct (extractedText job) as [|c t] eqn:He.
    + split; [reflexivity|].
      destruct (segments job) as [|x l] eqn:Hs; [reflexivity|].
      exfalso. apply (combineSegments_nonempty (x :: l)); [discriminate|exact Hsegs].
    + exfalso. apply append_empty in Htext as [_ Htext]. discriminate Htext.
  - intros [-> ->]. reflexivity.
Qed.

(** ** Sorting the segments *)

Lemma sortSegments_ascending (l : list RecognizedSegment) :
  StronglySorted indexLe l -> sortSegments l = l.
Proof.
  induction 1 as [|x l Hl IH Hx]; [reflexivity|].
  simpl. rewrite IH. destruct l as [|h t]; [reflexivity|]. simpl.
  apply Forall_cons in Hx as [Hxh _]. unfold compareSegments, indexLe in *.
  destruct (Z.leb_spec (Z.of_nat (pageIndex x) - Z.of_nat (pageIndex h)) 0);
    [reflexivity|lia].
Qed.

Lemma insertSegment_same_index i s (l : list RecognizedSegment) :
  List.filter (fun x => bool_decide (pageIndex x = i)) (insertSegment s l)
  = List.filter (fun x => bool_decide (pageIndex x = i)) (s :: l).
Proof.
  induction l as [|h t IH]; [reflexivity|].
  cbn [insertSegment]. destruct (compareSegments s h <=? 0)%Z eqn:Hc; [reflexivity|].
  apply Z.leb_gt in Hc. unfold compareSegments in Hc.
  assert (Hne : pageIndex s <> pageIndex h) by lia.
  cbn [List.filter] in *. rewrite IH.
  destruct (bool_decide (pageIndex s = i)) eqn:Hs;
    destruct (bool_decide (pageIndex h = i)) eqn:Hh; try reflexivity.
  apply bool_decide_eq_true in Hs, Hh. congruence.
Qed.

(** Sorting is stable and settles: the segments come out in ascending page
    index, segments with the same page index keep the order they had, an
    array that is in ascending order is left as it is, and so sorting an
    array that was sorted before changes nothing. *)
Theorem sortSegments_stable_and_settled (l : list RecognizedSegment) :
  StronglySorted indexLe (sortSegments l)
  /\ (forall i,
        List.filter (fun x => bool_decide (pageIndex x = i)) (sortSegments l)
        = List.filter (fun x => bool_decide (pageIndex x = i)) l)
  /\ (StronglySorted indexLe l -> sortSegments l = l)
  /\ sortSegments (sortSegments l) = sortSegments l
  /\ combineSegments (sortSegments l) = combineSegments l.
Proof.
  split; [apply sortSegments_sorted|]. split; [|split; [|split]].
  - intros i. induction l as [|s l IH]; [reflexivity|].
    simpl sortSegments. rewrite insertSegment_same_index. cbn [List.filter].
    rewrite IH. reflexivity.
  - apply sortSegments_ascending.
  - apply sortSegments_ascending, sortSegments_sorted.
  - unfold combineSegments, segmentBlocks.
    rewrite sortSegments_ascending by apply sortSegments_sorted. reflexivity.
Qed.

(** When no two segments have the same page index, the text does not
    depend on the order in which the segments were appended. *)
Theorem combineSegments_order_independent (l l' : list RecognizedSegment) :
  NoDup (map pageIndex l) ->
  Permutation l l' ->
  sortSegments l = sortSegments l' /\ combineSegments l = combineSegments l'.
Proof.
  intros Hnd Hp.
  assert (Heq : sortSegments l = sortSegments l').
  { apply sorted_arrangement_unique.
    - assert (Hm : Permutation (map pageIndex (sortSegments l)) (map pageIndex l))
        by apply Permutation_map, sortSegments_perm.
      rewrite Hm. exact Hnd.
    - apply sortSegments_sorted.
    - apply sortSegments_sorted.
    - rewrite sortSegments_perm, Hp. symmetry. apply sortSegments_perm. }
  split; [exact Heq|]. unfold combineSegments, segmentBlocks. rewrite Heq.
  reflexivity.
Qed.

Lemma combineSegments_order_independent_witness :
  let a := {| pageIndex := 0; text := "Hello"; confidence := 962 # 10 |} in
  let b := {| pageIndex := 1; text := "World"; confidence := 91 |} in
  sortSegments [b; a] = sortSegments [a; b]
  /\ combineSegments [b; a] = combineSegments [a; b].
Proof.
  apply combineSegments_order_independent.
  - simpl. apply NoDup_cons. split; [|apply NoDup_singleton].
    intros H. apply list_elem_of_singleton in H. discriminate.
  - apply perm_swap.
Defined.

(** ** Intake and the job table *)

Lemma enqueue_jobs selected now (accepted : list File) : forall st,
  jobs (foldl (enqueue selected now) st accepted)
  = reverse (admitted selected now (uuidDraws st) accepted) ++ jobs st.
Proof.
  unfold admitted.
  induction accepted as [|f rest IH]; intros st; [reflexivity|].
  simpl foldl. rewrite IH. simpl. rewrite reverse_cons, <- app_assoc. simpl.
  rewrite Nat.add_0_r. do 2 f_equal. apply imap_ext.
  intros i file _. simpl. f_equal. lia.
Qed.

Lemma admitted_ids selected now first accepted :
  map id (admitted selected now first accepted) = seq first (length accepted).
Proof.
  unfold admitted. revert first.
  induction accepted as [|f rest IH]; intros first; [reflexivity|].
  simpl. rewrite Nat.add_0_r. f_equal. rewrite <- IH. f_equal.
  apply imap_ext. intros i file _. simpl. f_equal. lia.
Qed.

Lemma handleFiles_shape st files now :
  let accepted := List.filter acceptable files in
  let rejected :=
    map fileName (List.filter (fun file => negb (acceptable file)) files) in
  let selected := selectedLanguages st in
  jobs (handleFiles st (Some files) now)
  = match rejected with
    | [] => reverse (admitted selected now (uuidDraws st) accepted) ++ jobs st
    | _ =>
        reverse (admitted selected now (S (uuidDraws st)) accepted)
        ++ unsupportedJob (uuidDraws st) selected rejected now :: jobs st
    end
  /\ uuidDraws (handleFiles st (Some files) now)
     = uuidDraws st + length accepted
       + match rejected with
         | [] => 0
         | _ => 1
         end.
Proof.
  cbv zeta. unfold handleFiles.
  rewrite enqueue_jobs.
  destruct (enqueue_all (selectedLanguages st) now (List.filter acceptable files)
              (reportRejected (selectedLanguages st) now
                 (map fileName
                    (List.filter (fun file => negb (acceptable file)) files)) st))
    as (Hdraw & _). cbv zeta in Hdraw. rewrite Hdraw.
  destruct (map fileName (List.filter (fun file => negb (acceptable file)) files));
    simpl; split; (reflexivity || lia).
Qed.

(** [handleFiles] puts the new jobs in front of the table, the last
    accepted file first, then the entry for the rejected files if there
    are any, and leaves the jobs that were there behind them, unchanged
    and in their order; one id is drawn for each of the new entries, and
    a [null] file list changes nothing. *)
Theorem handleFiles_puts_new_jobs_in_front st files now :
  let accepted := List.filter acceptable files in
  let rejected :=
    map fileName (List.filter (fun file => negb (acceptable file)) files) in
  let selected := selectedLanguages st in
  handleFiles st None now = st
  /\ jobs (handleFiles st (Some files) now)
     = match rejected with
       | [] => reverse (admitted selected now (uuidDraws st) accepted) ++ jobs st
       | _ =>
           reverse (admitted selected now (S (uuidDraws st)) accepted)
           ++ unsupportedJob (uuidDraws st) selected rejected now :: jobs st
       end
  /\ uuidDraws (handleFiles st (Some files) now)
     = uuidDraws st + length accepted
       + match rejected with
         | [] => 0
         | _ => 1
         end
  /\ map id (admitted selected now (uuidDraws st) accepted)
     = seq (uuidDraws st) (length accepted).
Proof.
  cbv zeta. split; [reflexivity|].
  destruct (handleFiles_shape st files now) as [Hjobs Hdraws].
  split; [exact Hjobs|]. split; [exact Hdraws|].
  apply admitted_ids.
Qed.

Lemma admitted_elem selected now first accepted job :
  job ∈ admitted selected now first accepted ->
  exists i file,
    accepted !! i = Some file /\ job = pendingJob (first + i) selected file now.
Proof.
  unfold admitted. intros H. apply list_elem_of_lookup in H as [i Hi].
  rewrite list_lookup_imap in Hi.
  destruct (accepted !! i) as [file|] eqn:Hf; [|discriminate].
  injection Hi as <-. eauto.
Qed.

Lemma findJob_unique (js : list OcrJob) job :
  NoDup (map id js) -> job ∈ js -> findJob (id job) js = Some job.
Proof.
  unfold findJob. induction js as [|j js IH]; intros Hnd Hin; [inversion Hin|].
  simpl in *. apply NoDup_cons in Hnd as [Hj Hnd].
  apply elem_of_cons in Hin as [->|Hin].
  - rewrite bool_decide_eq_true_2 by reflexivity. reflexivity.
  - rewrite bool_decide_eq_false_2; [apply IH; assumption|].
    intros Heq. apply Hj. rewrite Heq. apply list_elem_of_fmap. eauto.
Qed.

Lemma enqueue_fresh selected now (accepted : list File) : forall st k,
  uuidDraws st + length accepted <= k ->
  fileMap st !! k = None ->
  fileMap (foldl (enqueue selected now) st accepted) !! k = None.
Proof.
  induction accepted as [|f rest IH]; intros st k Hk Hnone; [exact Hnone|].
  simpl foldl. simpl in Hk. apply IH.
  - simpl. lia.
  - simpl. rewrite lookup_insert_ne by lia. exact Hnone.
Qed.

Lemma handleFiles_consistent st files now :
  consistent st -> consistent (handleFiles st (Some files) now).
Proof.
  intros (Hnd & Hdrawn & Hfresh & Hheld).
  destruct (handleFiles_shape st files now) as (Hjobs & Hdraws).
  unfold handleFiles in *.
  set (selected := selectedLanguages st) in *.
  set (rejected := map fileName
                     (List.filter (fun file => negb (acceptable file)) files)) in *.
  set (accepted := List.filter acceptable files) in *.
  destruct (reportRejected_effect selected now rejected st)
    as (Hmap1 & _ & Hdraw1 & _ & Hrej1).
  set (st1 := reportRejected selected now rejected st) in *.
  destruct (enqueue_all selected now accepted st1)
    as (_ & _ & Hlow & Hheld2 & _ & _).
  set (st2 := foldl (enqueue selected now) st1 accepted) in *.
  assert (Hd1 : uuidDraws st1
                = uuidDraws st + match rejected with [] => 0 | _ => 1 end).
  { unfold st1, reportRejected. destruct rejected; simpl; lia. }
  assert (Hjobs' : jobs st2
                   = reverse (admitted selected now (uuidDraws st1) accepted)
                     ++ match rejected with
                        | [] => []
                        | _ => [unsupportedJob (uuidDraws st) selected rejected now]
                        end ++ jobs st).
  { rewrite Hjobs, Hd1. destruct rejected; simpl;
      [rewrite Nat.add_0_r|rewrite Nat.add_1_r]; reflexivity. }
  assert (Hold : forall k, k < uuidDraws st -> fileMap st2 !! k = fileMap st !! k).
  { intros k Hk. rewrite Hlow by lia. rewrite Hmap1. reflexivity. }
  repeat split.
  - rewrite Hjobs', !map_app.
    change (map id (reverse (admitted selected now (uuidDraws st1) accepted)))
      with (id <$> reverse (admitted selected now (uuidDraws st1) accepted)).
    rewrite fmap_reverse.
    change (id <$> admitted selected now (uuidDraws st1) accepted)
      with (map id (admitted selected now (uuidDraws st1) accepted)).
    rewrite admitted_ids, reverse_Permutation.
    apply NoDup_app. split; [apply NoDup_seq|].
    split.
    + intros k Hk Hk'. apply elem_of_seq in Hk.
      apply elem_of_app in Hk' as [Hk'|Hk'].
      * destruct rejected; [inversion Hk'|].
        apply list_elem_of_singleton in Hk'. simpl in Hk'. lia.
      * apply list_elem_of_fmap in Hk' as (j & -> & Hj).
        apply Hdrawn in Hj. lia.
    + apply NoDup_app. split; [destruct rejected; [constructor|apply NoDup_singleton]|].
      split; [|exact Hnd].
      intros k Hk Hk'. destruct rejected; [inversion Hk|].
      apply list_elem_of_singleton in Hk. simpl in Hk. subst k.
      apply list_elem_of_fmap in Hk' as (j & Heq & Hj).
      apply Hdrawn in Hj. lia.
  - intros job Hjob. rewrite Hjobs' in Hjob. rewrite Hdraws.
    apply elem_of_app in Hjob as [Hjob|Hjob].
    + apply elem_of_reverse, admitted_elem in Hjob as (i & file & Hi & ->).
      apply lookup_lt_Some in Hi. simpl. rewrite Hd1.
      fold accepted. destruct rejected; lia.
    + apply elem_of_app in Hjob as [Hjob|Hjob].
      * destruct rejected; [inversion Hjob|].
        apply list_elem_of_singleton in Hjob. subst job. simpl. lia.
      * apply Hdrawn in Hjob. lia.
  - intros k Hk. rewrite Hdraws in Hk. fold accepted in Hk.
    unfold st2. apply enqueue_fresh.
    + rewrite Hd1. destruct rejected; lia.
    + rewrite Hmap1. apply Hfresh. lia.
  - intros job Hjob Hpending. rewrite Hjobs' in Hjob.
    apply elem_of_app in Hjob as [Hjob|Hjob].
    + apply elem_of_reverse, admitted_elem in Hjob as (i & file & Hi & ->).
      simpl. rewrite (Hheld2 i file Hi). eauto.
    + apply elem_of_app in Hjob as [Hjob|Hjob].
      * destruct rejected; [inversion Hjob|].
        apply list_elem_of_singleton in Hjob. subst job. discriminate.
      * rewrite Hold by (apply Hdrawn; exact Hjob). apply Hheld; assumption.
Qed.

Lemma jobAfter_elsewhere acts : forall job jobId,
  Forall (fun a => targetOf a = jobId) acts ->
  id job <> jobId -> jobAfter acts job = job.
Proof.
  induction acts as [|a acts IH]; intros job jobId Hall Hne; [reflexivity|].
  apply Forall_cons in Hall as [Ha Hall]. rewrite jobAfter_cons.
  assert (Hsame : applyToJob a job = job).
  { destruct a as [i partial|i seg|i]; simpl in *; subst i;
      try (destruct (decide (id job = jobId)); [contradiction|]); reflexivity. }
  rewrite Hsame. apply (IH job jobId Hall Hne).
Qed.

Lemma writes_only_release acts : forall st i,
  fileMap (finalState acts st) !! i = None
  \/ fileMap (finalState acts st) !! i = fileMap st !! i.
Proof.
  induction acts as [|a acts IH]; intros st i; [right; reflexivity|].
  change (finalState (a :: acts) st) with (finalState acts (applyAction a st)).
  destruct (IH (applyAction a st) i) as [H|H]; [left; exact H|].
  rewrite H. destruct a as [j partial|j seg|j]; simpl; try (right; reflexivity).
  destruct (decide (j = i)) as [->|Hne].
  - left. apply lookup_delete_eq.
  - right. apply lookup_delete_ne. exact Hne.
Qed.

Lemma run_consistent env st now jobId k :
  consistent st -> consistent (finalState (take k (run env st now jobId)) st).
Proof.
  intros (Hnd & Hdrawn & Hfresh & Hheld).
  assert (Htargets : Forall (fun a => targetOf a = jobId)
                       (take k (run env st now jobId)))
    by apply Forall_take, run_targets.
  destruct (writes_elsewhere _ st jobId Htargets)
    as (Hids & _ & Hfiles & _ & _ & Hdraw).
  set (acts := take k (run env st now jobId)) in *.
  assert (Hfrom : forall job, job ∈ jobs (finalState acts st) ->
                    exists job0, job0 ∈ jobs st /\ job = jobAfter acts job0).
  { intros job Hjob. rewrite jobs_finalState in Hjob.
    apply list_elem_of_fmap in Hjob as (job0 & -> & Hjob0). eauto. }
  repeat split.
  - rewrite Hids. exact Hnd.
  - intros job Hjob. destruct (Hfrom job Hjob) as (job0 & Hjob0 & ->).
    rewrite id_jobAfter, Hdraw. apply Hdrawn. exact Hjob0.
  - intros i Hi. rewrite Hdraw in Hi.
    destruct (writes_only_release acts st i) as [H|H]; [exact H|].
    rewrite H. apply Hfresh. exact Hi.
  - intros job Hjob Hpending. destruct (Hfrom job Hjob) as (job0 & Hjob0 & ->).
    rewrite id_jobAfter.
    destruct (decide (id job0 = jobId)) as [Hid|Hne].
    + destruct acts as [|a acts'] eqn:Hacts.
      { simpl. apply Hheld; [exact Hjob0|exact Hpending]. }
      exfalso.
      assert (Hget : getJob jobId st = Some job0).
      { unfold getJob. rewrite <- Hid. apply findJob_unique; assumption. }
      destruct (fileMap st !! jobId) as [file|] eqn:Hfile.
      * destruct (run_shape env st now jobId job0 file Hget Hfile)
          as (middle & Hrun & Hkeep).
        unfold acts in Hacts. rewrite Hrun in Hacts.
        destruct k as [|k]; [discriminate|]. cbn [take] in Hacts.
        injection Hacts as <- <-. rewrite jobAfter_cons in Hpending.
        revert Hpending. apply keepsStarted_status.
        -- apply Forall_take, Forall_app. split; [exact Hkeep|].
           constructor; [exact I|constructor].
        -- simpl. destruct (decide (id job0 = jobId)); [|congruence].
           simpl. discriminate.
      * unfold acts, run, processFile in Hacts. unfold getJob in Hget.
        rewrite Hget, Hfile in Hacts. destruct k; discriminate.
    + rewrite (jobAfter_elsewhere acts job0 jobId Htargets Hne) in Hpending.
      rewrite Hfiles by exact Hne. apply Hheld; assumption.
Qed.

Lemma initialState_consistent builtInLanguages :
  consistent (initialState builtInLanguages).
Proof.
  split; [|split; [|split]]; simpl.
  - constructor.
  - intros job H. inversion H.
  - intros k _. apply lookup_empty.
  - intros job H. inversion H.
Qed.

(** The bookkeeping of ids is kept by everything the component does:
    dropping files, every write of every run, toggling and importing a
    language.  So job ids stay distinct, and a job that is [pending]
    always has its file. *)
Theorem consistent_is_kept env st :
  consistent st ->
  (forall files now, consistent (handleFiles st files now))
  /\ (forall now jobId k,
        consistent (finalState (take k (run env st now jobId)) st))
  /\ (forall c, consistent (toggleLanguage c st))
  /\ consistent (handleLanguageImport env st).
Proof.
  intros Hst. split; [|split; [|split]].
  - intros [files|] now; [apply handleFiles_consistent; exact Hst|exact Hst].
  - intros now jobId k. apply run_consistent. exact Hst.
  - intros c. exact Hst.
  - unfold handleLanguageImport.
    destruct (languageFile st) as [file|]; [|exact Hst].
    destruct (bool_decide _); [exact Hst|].
    destruct (importLanguageFromFile env _ file) as [[c p]|e]; exact Hst.
Qed.

Lemma consistent_is_kept_witness :
  let st := handleFiles Samples.importingJpn (Some [Samples.twoPages]) 1000 in
  (forall files now, consistent (handleFiles st files now))
  /\ (forall now jobId k,
        consistent (finalState (take k (run Samples.collaborators st now jobId)) st))
  /\ (forall c, consistent (toggleLanguage c st))
  /\ consistent (handleLanguageImport Samples.collaborators st).
Proof.
  apply (consistent_is_kept Samples.collaborators
           (handleFiles Samples.importingJpn (Some [Samples.twoPages]) 1000)).
  apply handleFiles_consistent.
  split; [constructor|]. split; [intros job Hjob; inversion Hjob|].
  split; [intros k _; apply lookup_empty|intros job Hjob; inversion Hjob].
Defined.

(** No accepted file is lost and no pending job is stuck: the effect
    dispatches every job that is [pending], the driver finds that very job
    and its file, and its first write puts the job in [processing] with
    progress 0 and no error. *)
Theorem pending_jobs_are_started env st now job :
  consistent st ->
  job ∈ jobs st ->
  status job = pending ->
  (id job, run env st now (id job)) ∈ dispatchPending env st now
  /\ getJob (id job) st = Some job
  /\ exists file rest,
       fileMap st !! id job = Some file
       /\ run env st now (id job) = UpdateJob (id job) started :: rest
       /\ exists job',
            getJob (id job) (applyAction (UpdateJob (id job) started) st)
            = Some job'
            /\ status job' = processing
            /\ progress job' = 0%Q
            /\ error_ job' = None
            /\ segments job' = segments job.
Proof.
  intros (Hnd & _ & _ & Hheld) Hjob Hpending.
  assert (Hget : getJob (id job) st = Some job)
    by (apply findJob_unique; assumption).
  split; [|split; [exact Hget|]].
  - unfold dispatchPending, pendingJobs.
    apply list_elem_of_fmap. exists job. split; [reflexivity|].
    apply list_elem_of_filter. split; assumption.
  - destruct (Hheld job Hjob Hpending) as [file Hfile].
    destruct (run_shape env st now (id job) job file Hget Hfile)
      as (middle & Hrun & _).
    exists file, (middle ++ [ReleaseFile (id job)]).
    split; [exact Hfile|]. split; [exact Hrun|].
    rewrite getJob_applyAction, Hget. eexists. split; [reflexivity|].
    simpl. destruct (decide (id job = id job)); [|congruence]. simpl.
    repeat split.
Qed.

Lemma pending_jobs_are_started_witness :
  let st := Samples.dropped Samples.twoPages in
  let job := pendingJob 0 ["eng"] Samples.twoPages 1000 in
  (id job, run Samples.collaborators st 5 (id job))
  ∈ dispatchPending Samples.collaborators st 5
  /\ getJob (id job) st = Some job
  /\ exists file rest,
       fileMap st !! id job = Some file
       /\ run Samples.collaborators st 5 (id job)
          = UpdateJob (id job) started :: rest
       /\ exists job',
            getJob (id job) (applyAction (UpdateJob (id job) started) st)
            = Some job'
            /\ status job' = processing
            /\ progress job' = 0%Q
            /\ error_ job' = None
            /\ segments job' = segments job.
Proof.
  apply (pending_jobs_are_started Samples.collaborators
           (Samples.dropped Samples.twoPages) 5
           (pendingJob 0 ["eng"] Samples.twoPages 1000)).
  - apply (handleFiles_consistent (initialState [Samples.eng])
             [Samples.twoPages] 1000).
    apply initialState_consistent.
  - left.
  - reflexivity.
Defined.

(** Every accepted file gets a job of its own: it is [pending], carries
    the current selection of languages, the name, size and type label of
    the file and the time of the intake, has no progress, segment, text,
    warning or error yet, and its file is held under its id; the ids are
    drawn in the order of the files, after the one for the rejected files
    if there is one. *)
Theorem every_accepted_file_gets_a_job st files now i file :
  consistent st ->
  List.filter acceptable files !! i = Some file ->
  let st' := handleFiles st (Some files) now in
  let jobId :=
    uuidDraws st
    + match List.filter (fun file => negb (acceptable file)) files with
      | [] => 0
      | _ => 1
      end
    + i in
  fileMap st' !! jobId = Some file
  /\ exists job,
       getJob jobId st' = Some job
       /\ id job = jobId
       /\ status job = pending
       /\ languages job = selectedLanguages st
       /\ name job = fileName file
       /\ size job = fileSize file
       /\ type job = readableFileType (fileType file) (fileName file)
       /\ startedAt job = now
       /\ progress job = 0%Q
       /\ completedAt job = None
       /\ error_ job = None
       /\ segments job = []
       /\ extractedText job = ""
       /\ warnings job = [].
Proof.
  intros Hst Hi. cbv zeta. apply and_comm.
  cut (getJob
         (uuidDraws st
          + match List.filter (fun file => negb (acceptable file)) files with
            | [] => 0
            | _ => 1
            end + i) (handleFiles st (Some files) now)
       = Some (pendingJob
                 (uuidDraws st
                  + match List.filter (fun file => negb (acceptable file)) files with
                    | [] => 0
                    | _ => 1
                    end + i) (selectedLanguages st) file now)
       /\ fileMap (handleFiles st (Some files) now)
            !! (uuidDraws st
                + match List.filter (fun file => negb (acceptable file)) files with
                  | [] => 0
                  | _ => 1
                  end + i) = Some file).
  { intros [Hget Hheld]. split; [|exact Hheld].
    eexists. split; [exact Hget|]. repeat split. }
  pose proof (handleFiles_consistent st files now Hst) as (Hnd & _).
  destruct (handleFiles_shape st files now) as (Hjobs & _). cbv zeta in Hjobs.
  set (jobId := uuidDraws st
                + match List.filter (fun file => negb (acceptable file)) files with
                  | [] => 0
                  | _ => 1
                  end + i).
  assert (Hin : pendingJob jobId (selectedLanguages st) file now
                ∈ jobs (handleFiles st (Some files) now)).
  { rewrite Hjobs. unfold jobId.
    destruct (List.filter (fun file => negb (acceptable file)) files) as [|r rs];
      simpl; apply elem_of_app; left; apply elem_of_reverse;
      apply list_elem_of_lookup; exists i; unfold admitted;
      rewrite list_lookup_imap, Hi; simpl; do 2 f_equal; lia. }
  split.
  - apply (findJob_unique _ _ Hnd Hin).
  - unfold handleFiles.
    destruct (enqueue_all (selectedLanguages st) now (List.filter acceptable files)
                (reportRejected (selectedLanguages st) now
                   (map fileName
                      (List.filter (fun file => negb (acceptable file)) files))
                   st))
      as (_ & _ & _ & Hheld & _).
    specialize (Hheld i file Hi).
    replace jobId
      with (uuidDraws
              (reportRejected (selectedLanguages st) now
                 (map fileName
                    (List.filter (fun file => negb (acceptable file)) files))
                 st) + i); [exact Hheld|].
    unfold jobId, reportRejected.
    destruct (List.filter (fun file => negb (acceptable file)) files); simpl; lia.
Qed.

Lemma every_accepted_file_gets_a_job_witness :
  let st' := handleFiles (initialState [Samples.eng])
               (Some [Samples.notes; Samples.twoPages; Samples.blank]) 1000 in
  fileMap st' !! 2 = Some Samples.blank
  /\ exists job,
       getJob 2 st' = Some job
       /\ id job = 2
       /\ status job = pending
       /\ languages job = ["eng"]
       /\ name job = "blank.pdf"
       /\ size job = 128
       /\ type job = "PDF"
       /\ startedAt job = 1000
       /\ progress job = 0%Q
       /\ completedAt job = None
       /\ error_ job = None
       /\ segments job = []
       /\ extractedText job = ""
       /\ warnings job = [].
Proof.
  apply (every_accepted_file_gets_a_job (initialState [Samples.eng])
           [Samples.notes; Samples.twoPages; Samples.blank] 1000 1 Samples.blank).
  - apply initialState_consistent.
  - reflexivity.
Defined.

(** ** Languages of a job *)

Lemma findLanguage_some c available lang :
  findLanguage c available = Some lang -> lang ∈ available /\ code lang = c.
Proof.
  unfold findLanguage. intros H. apply find_some in H as [Hin Hc].
  apply bool_decide_eq_true in Hc. rewrite list_elem_of_In. tauto.
Qed.

Lemma findLanguage_none c available :
  c ∉ map code available -> findLanguage c available = None.
Proof.
  unfold findLanguage. induction available as [|l ls IH]; intros Hc; [reflexivity|].
  simpl in *. apply not_elem_of_cons in Hc as [Hne Hc].
  rewrite bool_decide_eq_false_2 by congruence. apply IH. exact Hc.
Qed.

(** The cache step of a run concerns the languages of the job that are in
    the registry, each through the first entry with its code; a code that
    is not registered is passed over without an error, so a job none of
    whose languages is registered goes on to its document whatever the
    state of the cache. *)
Theorem unregistered_languages_are_passed_over available job :
  (forall lang,
     lang ∈ languageEntries available job ->
     lang ∈ available /\ code lang ∈ languages job
     /\ findLanguage (code lang) available = Some lang)
  /\ (forall c,
        c ∈ languages job -> c ∈ map code available ->
        exists lang, lang ∈ languageEntries available job /\ code lang = c)
  /\ ((forall c, c ∈ languages job -> c ∉ map code available) ->
      languageEntries available job = []
      /\ forall env, languagesCached env available job).
Proof.
  unfold languageEntries. split; [|split].
  - intros lang H. apply list_elem_of_omap in H as (c & Hc & Hfind).
    destruct (findLanguage_some _ _ _ Hfind) as [Hin Hcode].
    subst c. tauto.
  - intros c Hc Hreg.
    destruct (findLanguage c available) as [lang|] eqn:Hfind.
    + exists lang. split; [|apply (findLanguage_some _ _ _ Hfind)].
      apply list_elem_of_omap. eauto.
    + exfalso. apply list_elem_of_fmap in Hreg as (lang & -> & Hlang).
      unfold findLanguage in Hfind.
      assert (Hno : bool_decide (code lang = code lang) = false).
      { apply (find_none _ _ Hfind lang). apply list_elem_of_In. exact Hlang. }
      rewrite bool_decide_eq_true_2 in Hno by reflexivity. discriminate.
  - intros Hnone.
    assert (Hempty : omap (fun c => findLanguage c available) (languages job) = []).
    { induction (languages job) as [|c cs IH]; [reflexivity|].
      cbn [omap list_omap].
      rewrite findLanguage_none by (apply Hnone; left).
      apply IH. intros c' Hc'. apply Hnone. right. exact Hc'. }
    split; [exact Hempty|].
    intros env. unfold languagesCached, languageEntries. rewrite Hempty.
    reflexivity.
Qed.

(** ** Progress stays a fraction *)

Lemma ascending_le_last jobId acts : forall lo,
  ascending jobId lo acts -> (lo <= lastProgress jobId lo acts)%Q.
Proof.
  induction acts as [|a acts IH]; intros lo Hasc; simpl in *; [apply Qle_refl|].
  destruct (progressSet jobId a) as [q|].
  - destruct Hasc as [Hlo Hasc]. eapply Qle_trans; [exact Hlo|]. apply IH, Hasc.
  - apply IH, Hasc.
Qed.

Lemma ascending_history_bounded jobId acts : forall st job (hi : Q),
  getJob jobId st = Some job ->
  ascending jobId (progress job) acts ->
  (lastProgress jobId (progress job) acts <= hi)%Q ->
  Forall (fun q => (progress job <= q /\ q <= hi)%Q)
    (progressHistory jobId (snapshots acts st)).
Proof.
  induction acts as [|a acts IH]; intros st job hi Hjob Hasc Hlast.
  - unfold progressHistory. simpl. rewrite Hjob. simpl.
    constructor; [|constructor]. split; [apply Qle_refl|exact Hlast].
  - unfold progressHistory. cbn [snapshots omap list_omap]. rewrite Hjob.
    cbn [fmap option_fmap option_map]. fold (progressHistory jobId).
    pose proof (findJob_id _ _ _ Hjob) as Hid.
    assert (Hjob' : getJob jobId (applyAction a st) = Some (applyToJob a job))
      by (rewrite getJob_applyAction, Hjob; reflexivity).
    pose proof (progress_applyToJob jobId a job Hid) as Hp.
    pose proof (ascending_le_last jobId (a :: acts) (progress job) Hasc) as Hle.
    simpl in Hasc, Hlast.
    assert (Hstep : (progress job <= progress (applyToJob a job))%Q
                    /\ ascending jobId (progress (applyToJob a job)) acts
                    /\ (lastProgress jobId (progress (applyToJob a job)) acts
                        <= hi)%Q).
    { rewrite Hp. destruct (progressSet jobId a) as [q|]; simpl.
      - destruct Hasc as [H1 H2]. repeat split; assumption.
      - repeat split; [apply Qle_refl|exact Hasc|exact Hlast]. }
    destruct Hstep as (Hup & Hasc' & Hlast').
    constructor.
    + split; [apply Qle_refl|]. eapply Qle_trans; [exact Hle|].
      simpl. destruct (progressSet jobId a); exact Hlast.
    + eapply Forall_impl;
        [apply (IH (applyAction a st) (applyToJob a job) hi Hjob' Hasc' Hlast')|].
      simpl. intros q [Hq1 Hq2]. split; [|exact Hq2].
      eapply Qle_trans; eassumption.
Qed.

(** When the engine reports fractions between 0 and 1 in non-decreasing
    order, the progress of a job that starts at 0 is between 0 and 1 in
    every state of its run: the bar never overflows. *)
Theorem progress_stays_a_fraction env st now jobId job :
  getJob jobId st = Some job ->
  progress job = 0%Q ->
  (forall file canvases extracted ws0,
     fileMap st !! jobId = Some file ->
     documentPages env file = Some (canvases, extracted, ws0) ->
     reportsFractions env (languages job) canvases) ->
  Forall (fun q => (0 <= q /\ q <= 1)%Q)
    (progressHistory jobId (snapshots (run env st now jobId) st)).
Proof.
  intros Hjob Hzero Hrep.
  assert (Hgoal : ascending jobId 0 (run env st now jobId)
                  /\ (lastProgress jobId 0 (run env st now jobId) <= 1)%Q).
  { unfold run, processFile.
    pose proof Hjob as Hjob'. unfold getJob in Hjob'. rewrite Hjob'.
    pose proof (findJob_id _ _ _ Hjob) as Hid.
    destruct (fileMap st !! jobId) as [file|] eqn:Hfile;
      [|split; [exact I|simpl; discriminate]].
    simpl. destruct (decide (jobId = jobId)) as [_|Hne]; [|congruence]. simpl.
    unfold tryCatchFinally.
    destruct (tryBlock_cases env (availableLanguages st) job file now)
      as [[e ->]|(canvases & extracted & ws0 & acts & r & Hdoc & Hrec & ->)].
    - simpl. destruct (decide (jobId = jobId)) as [_|Hne]; [|congruence].
      simpl. split; [split; [apply Qle_refl|exact I]|discriminate].
    - rewrite Hid in *.
      destruct (recognizePages_ascending env jobId (languages job)
                  (length canvases) canvases 0
                  (noteEmptyContent canvases extracted ws0) 0%Q)
        as [Hasc Hlast].
      + eapply Hrep; [reflexivity|exact Hdoc].
      + reflexivity.
      + unfold Qdiv. change (ofNat 0) with 0%Q. rewrite Qmult_0_l. apply Qle_refl.
      + rewrite Hrec in Hasc, Hlast. simpl in Hasc, Hlast.
        destruct r as [ws|e].
        * rewrite <- app_assoc. split; [split; [apply Qle_refl|]|].
          -- apply ascending_app; [exact Hasc|]. simpl.
             destruct (decide (jobId = jobId)) as [_|Hne]; [|congruence]. simpl.
             split; [exact Hlast|exact I].
          -- rewrite lastProgress_app. simpl.
             destruct (decide (jobId = jobId)) as [_|Hne]; [|congruence]. simpl.
             apply Qle_refl.
        * split; [split; [apply Qle_refl|]|].
          -- apply ascending_app; [exact Hasc|]. simpl.
             destruct (decide (jobId = jobId)) as [_|Hne]; [|congruence]. simpl.
             exact I.
          -- rewrite lastProgress_app. simpl.
             destruct (decide (jobId = jobId)) as [_|Hne]; [|congruence]. simpl.
             exact Hlast. }
  destruct Hgoal as [Hasc Hlast].
  pose proof (ascending_history_bounded jobId (run env st now jobId) st job 1%Q Hjob)
    as H.
  rewrite Hzero in H. apply H; assumption.
Qed.

Lemma progress_stays_a_fraction_witness :
  Forall (fun q => (0 <= q /\ q <= 1)%Q)
    (progressHistory 0
       (snapshots
          (run Samples.collaborators (Samples.dropped Samples.threePages) 5 0)
          (Samples.dropped Samples.threePages))).
Proof.
  apply (progress_stays_a_fraction Samples.collaborators
           (Samples.dropped Samples.threePages) 5 0
           (pendingJob 0 ["eng"] Samples.threePages 1000)).
  - reflexivity.
  - reflexivity.
  - intros file canvases extracted ws0 Hfile Hdoc.
    vm_compute in Hfile. injection Hfile as <-.
    vm_compute in Hdoc. injection Hdoc as <- _ _.
    unfold reportsFractions.
    repeat (constructor; simpl); unfold Qle; simpl; lia.
Defined.

(** ** The count of running jobs *)

Lemma run_final_status env st now jobId job file :
  getJob jobId st = Some job ->
  fileMap st !! jobId = Some file ->
  status (jobAfter (run env st now jobId) job) = completed
  \/ status (jobAfter (run env st now jobId) job) = error.
Proof.
  intros Hjob Hfile. unfold run, processFile.
  pose proof (findJob_id _ _ _ Hjob) as Hid.
  unfold getJob in Hjob. rewrite Hjob, Hfile. unfold tryCatchFinally.
  rewrite jobAfter_cons.
  set (job0 := applyToJob _ job).
  assert (Hid0 : id job0 = jobId) by (unfold job0; rewrite id_applyToJob; exact Hid).
  clearbody job0.
  destruct (tryBlock_cases env (availableLanguages st) job file now)
    as [[e ->]|(canvases & extracted & ws0 & acts & r & Hdoc & Hrec & ->)].
  - right. simpl. destruct (decide (id job0 = jobId)); [reflexivity|congruence].
  - destruct r as [ws|e].
    + left. rewrite <- app_assoc, jobAfter_app. simpl.
      rewrite id_jobAfter, Hid.
      destruct (decide (id job0 = jobId)); [reflexivity|congruence].
    + right. rewrite jobAfter_app. simpl. rewrite id_jobAfter.
      destruct (decide (id job0 = jobId)); [reflexivity|congruence].
Qed.

Lemma count_one_changed (f : OcrJob -> OcrJob) (js : list OcrJob) job :
  NoDup (map id js) -> job ∈ js ->
  (forall j, id j <> id job -> f j = j) ->
  totalPending (map f js)
  + (if decide (status job = processing) then 1 else 0)
  = totalPending js
    + (if decide (status (f job) = processing) then 1 else 0).
Proof.
  unfold totalPending. intros Hnd Hin Hf.
  induction js as [|j rest IH]; [inversion Hin|].
  simpl in Hnd. apply NoDup_cons in Hnd as [Hj Hnd].
  cbn [map]. rewrite !filter_cons.
  apply elem_of_cons in Hin as [<-|Hin].
  - assert (Hrest : map f rest = rest).
    { clear IH Hnd. induction rest as [|x rest IH]; [reflexivity|].
      simpl. rewrite Hf, IH; [reflexivity| |].
      - intros H. apply Hj. right. exact H.
      - intros Heq. apply Hj. rewrite <- Heq. left. }
    rewrite Hrest.
    destruct (decide (status (f job) = processing));
      destruct (decide (status job = processing)); simpl; lia.
  - assert (Hne : id j <> id job).
    { intros Heq. apply Hj. rewrite Heq. apply list_elem_of_fmap. eauto. }
    rewrite (Hf j Hne). specialize (IH Hnd Hin).
    destruct (decide (status j = processing)); simpl; lia.
Qed.

(** The number shown as "Processing n items" counts a job from the first
    write of its run to the end of the run, and only then: starting a
    pending job raises the count by one, and when its run has ended the
    count is what it was before. *)
Theorem running_jobs_are_counted env st now job :
  consistent st ->
  job ∈ jobs st ->
  status job = pending ->
  totalPending (jobs (applyAction (UpdateJob (id job) started) st))
  = S (totalPending (jobs st))
  /\ totalPending (jobs (finalState (run env st now (id job)) st))
     = totalPending (jobs st).
Proof.
  intros (Hnd & _ & _ & Hheld) Hjob Hpending.
  assert (Hget : getJob (id job) st = Some job)
    by (apply findJob_unique; assumption).
  destruct (Hheld job Hjob Hpending) as [file Hfile].
  split.
  - rewrite jobs_applyAction.
    pose proof (count_one_changed (applyToJob (UpdateJob (id job) started))
                  (jobs st) job Hnd Hjob) as H.
    rewrite Hpending in H. simpl in H.
    destruct (decide (id job = id job)) as [_|Hne]; [|congruence]. simpl in H.
    destruct (decide (pending = processing)); [discriminate|].
    destruct (decide (processing = processing)); [|congruence].
    assert (Hother : forall j, id j <> id job ->
              applyToJob (UpdateJob (id job) started) j = j).
    { intros j Hj. simpl.
      destruct (decide (id j = id job)); [contradiction|reflexivity]. }
    specialize (H Hother). lia.
  - rewrite jobs_finalState.
    pose proof (count_one_changed (jobAfter (run env st now (id job)))
                  (jobs st) job Hnd Hjob) as H.
    rewrite Hpending in H.
    destruct (decide (pending = processing)); [discriminate|].
    destruct (run_final_status env st now (id job) job file Hget Hfile) as [Hs|Hs];
      rewrite Hs in H;
      (destruct (decide (_ = processing)); [discriminate|]);
      (assert (Hother : forall j, id j <> id job ->
                 jobAfter (run env st now (id job)) j = j)
         by (intros j Hj; apply (jobAfter_elsewhere _ j (id job));
             [apply run_targets|exact Hj]));
      specialize (H Hother); lia.
Qed.

Lemma running_jobs_are_counted_witness :
  let st := Samples.dropped Samples.twoPages in
  let job := pendingJob 0 ["eng"] Samples.twoPages 1000 in
  totalPending (jobs (applyAction (UpdateJob (id job) started) st))
  = S (totalPending (jobs st))
  /\ totalPending (jobs (finalState (run Samples.collaborators st 5 (id job)) st))
     = totalPending (jobs st).
Proof.
  apply (running_jobs_are_counted Samples.collaborators
           (Samples.dropped Samples.twoPages) 5
           (pendingJob 0 ["eng"] Samples.twoPages 1000)).
  - apply (handleFiles_consistent (initialState [Samples.eng])
             [Samples.twoPages] 1000).
    apply initialState_consistent.
  - left.
  - reflexivity.
Defined.

End JobExtras.

(** * Further properties of the service worker *)

Module WorkerExtras.

Import Home ServiceWorker WorkerFacts.

(** A handler that has returned has returned for good: what it does
    later, if anything, is to see its [cache.put] through. *)
Lemma step_observed ev w k r :
  observed k w = Some r -> observed k (step ev w) = Some r.
Proof.
  unfold observed. intros Hobs.
  destruct (handlers w !! k) as [h|] eqn:Hk; [|discriminate].
  assert (Hset : forall j hold hnew,
            handlers w !! j = Some hold ->
            (returned hold = Some r -> returned hnew = Some r) ->
            match <[j := hnew]> (handlers w) !! k with
            | Some h' => returned h'
            | None => None
            end = Some r).
  { intros j hold hnew Hj Hsame. destruct (decide (j = k)) as [->|Hne].
    - rewrite list_lookup_insert_eq by (eapply lookup_lt_Some; exact Hk).
      rewrite Hk in Hj. injection Hj as <-. apply Hsame. exact Hobs.
    - rewrite list_lookup_insert_ne by exact Hne. rewrite Hk. exact Hobs. }
  destruct ev as [request|j|j o|j|j]; simpl.
  - rewrite lookup_app_l by (eapply lookup_lt_Some; exact Hk). rewrite Hk. exact Hobs.
  - destruct (handlers w !! j) as [h'|] eqn:Hj; [|rewrite Hk; exact Hobs].
    destruct h'; try (rewrite Hk; exact Hobs).
    destruct (cache w !! url request); simpl;
      (eapply Hset; [exact Hj|discriminate]).
  - destruct (handlers w !! j) as [h'|] eqn:Hj; [|rewrite Hk; exact Hobs].
    destruct h'; try (rewrite Hk; exact Hobs).
    destruct o; simpl; (eapply Hset; [exact Hj|discriminate]).
  - destruct (handlers w !! j) as [h'|] eqn:Hj; [|rewrite Hk; exact Hobs].
    destruct h'; try (rewrite Hk; exact Hobs).
    destruct (statusCode response =? 206)%nat; simpl;
      (eapply Hset; [exact Hj|intros H; exact H]).
  - destruct (handlers w !! j) as [h'|] eqn:Hj; [|rewrite Hk; exact Hobs].
    destruct h'; try (rewrite Hk; exact Hobs).
    simpl. eapply Hset; [exact Hj|intros H; exact H].
Qed.

Lemma step_cache_grows ev w u :
  is_Some (cache w !! u) -> is_Some (cache (step ev w) !! u).
Proof.
  intros Hu. destruct ev as [request|j|j o|j|j]; simpl; try exact Hu.
  - destruct (handlers w !! j) as [[]|]; try exact Hu.
    destruct (cache w !! url request); exact Hu.
  - destruct (handlers w !! j) as [[]|]; try exact Hu.
    destruct o; exact Hu.
  - destruct (handlers w !! j) as [[]|]; try exact Hu.
    destruct (statusCode response =? 206)%nat; simpl; [exact Hu|].
    destruct (decide (url request = u)) as [->|Hne].
    + rewrite lookup_insert_eq. eauto.
    + rewrite lookup_insert_ne by exact Hne. exact Hu.
  - destruct (handlers w !! j) as [[]|]; exact Hu.
Qed.

(** What a caller has received does not change afterwards, whatever the
    other handlers do, and the worker never removes an entry from the
    cache: a key that is cached stays cached. *)
Theorem answers_and_entries_stay events w k r :
  observed k w = Some r ->
  observed k (exec events w) = Some r
  /\ (forall u, is_Some (cache w !! u) -> is_Some (cache (exec events w) !! u)).
Proof.
  intros Hobs. split.
  - apply (exec_invariant (fun w' => observed k w' = Some r)); [|exact Hobs].
    intros ev w'. apply step_observed.
  - intros u Hu.
    apply (exec_invariant (fun w' => is_Some (cache w' !! u))); [|exact Hu].
    intros ev w'. apply step_cache_grows.
Qed.

Lemma answers_and_entries_stay_witness :
  let w := exec [ Arrive Samples.engRequest; Lookup 0;
                  Settle 0 (Resolved Samples.engPack) ] (idle ∅) in
  let events := [ Arrive Samples.engRequest; Lookup 1; Store 0; Lookup 0;
                  Settle 1 (Rejected OtherValue); Settle 0 (Rejected OtherValue) ] in
  observed 0 (exec events w) = Some (Replied Samples.engPack)
  /\ (forall u, is_Some (cache w !! u) -> is_Some (cache (exec events w) !! u)).
Proof.
  apply (answers_and_entries_stay
           [ Arrive Samples.engRequest; Lookup 1; Store 0; Lookup 0;
             Settle 1 (Rejected OtherValue); Settle 0 (Rejected OtherValue) ]
           (exec [ Arrive Samples.engRequest; Lookup 0;
                   Settle 0 (Resolved Samples.engPack) ] (idle ∅))
           0 (Replied Samples.engPack)).
  reflexivity.
Defined.

(** Store, then serve.  A request for a key that is not cached is fetched;
    when the fetch is resolved the response is returned at once and its
    [cache.put] is started.  Once the put has completed, the response is
    the entry of the key, and the next request for the key is answered
    with it from the cache, without a second fetch.  A request that looks
    the key up before the put has completed misses, and is fetched as
    well. *)
Theorem fetched_once_then_served_from_cache w request response :
  Js.startsWith (pathname request) "/tesseract/" = true ->
  cache w !! url request = None ->
  statusCode response <> 206 ->
  let k := length (handlers w) in
  let fetched := exec [Arrive request; Lookup k; Settle k (Resolved response)] w in
  let stored := exec [Store k; Arrive request; Lookup (S k)] fetched in
  let early := exec [Arrive request; Lookup (S k); Store k] fetched in
  observed k fetched = Some (Replied response)
  /\ cache fetched = cache w
  /\ fetches fetched = fetches w ++ [url request]
  /\ observed k stored = Some (Replied response)
  /\ handlers stored !! S k = Some (ReturnedCached request response)
  /\ cache stored !! url request = Some response
  /\ fetches stored = fetches w ++ [url request]
  /\ handlers early !! S k = Some (Fetching request)
  /\ cache early !! url request = Some response
  /\ fetches early = fetches w ++ [url request; url request].
Proof.
  intros Hpath Hmiss Hstatus. cbv zeta.
  apply Nat.eqb_neq in Hstatus.
  set (k := length (handlers w)).
  assert (Hk : (handlers w ++ [Matching request]) !! k = Some (Matching request)).
  { unfold k. rewrite lookup_app_r by lia. rewrite Nat.sub_diag. reflexivity. }
  assert (Hfetched :
            exec [Arrive request; Lookup k; Settle k (Resolved response)] w
            = {| cache := cache w;
                 handlers := handlers w ++ [Storing request response];
                 fetches := fetches w ++ [url request] |}).
  { unfold exec. simpl foldl. unfold arrive. rewrite Hpath. simpl.
    rewrite Hk, Hmiss. simpl.
    rewrite list_lookup_insert_eq by (rewrite length_app; simpl; unfold k; lia).
    simpl. rewrite list_insert_insert_eq. f_equal.
    unfold k. rewrite insert_app_r_alt by lia. rewrite Nat.sub_diag. reflexivity. }
  rewrite Hfetched.
  set (hs := handlers w ++ [Storing request response]).
  assert (Hlen : length hs = S k)
    by (unfold hs; rewrite length_app; simpl; unfold k; lia).
  assert (Hat : hs !! k = Some (Storing request response)).
  { unfold hs, k. rewrite lookup_app_r by lia. rewrite Nat.sub_diag. reflexivity. }
  split; [unfold observed; cbn [handlers]; fold hs; rewrite Hat; reflexivity|].
  split; [reflexivity|]. split; [reflexivity|].
  assert (Hstored :
            exec [Store k; Arrive request; Lookup (S k)]
              {| cache := cache w; handlers := hs;
                 fetches := fetches w ++ [url request] |}
            = {| cache := <[url request := response]> (cache w);
                 handlers := <[k := ReturnedFetched request response]> hs
                             ++ [ReturnedCached request response];
                 fetches := fetches w ++ [url request] |}).
  { unfold exec. simpl foldl. cbn [handlers cache fetches]. rewrite Hat.
    rewrite Hstatus. cbn [handlers cache fetches].
    unfold arrive. rewrite Hpath.
    rewrite lookup_app_r by (rewrite length_insert; lia).
    rewrite length_insert, Hlen, Nat.sub_diag. cbn [lookup list_lookup].
    rewrite lookup_insert_eq. f_equal.
    rewrite insert_app_r_alt by (rewrite length_insert; lia).
    rewrite length_insert, Hlen, Nat.sub_diag. reflexivity. }
  assert (Hearly :
            exec [Arrive request; Lookup (S k); Store k]
              {| cache := cache w; handlers := hs;
                 fetches := fetches w ++ [url request] |}
            = {| cache := <[url request := response]> (cache w);
                 handlers := <[k := ReturnedFetched request response]>
                               (hs ++ [Fetching request]);
                 fetches := (fetches w ++ [url request]) ++ [url request] |}).
  { unfold exec. simpl foldl. cbn [handlers cache fetches].
    unfold arrive. rewrite Hpath.
    rewrite lookup_app_r by lia. rewrite Hlen, Nat.sub_diag.
    cbn [lookup list_lookup]. rewrite Hmiss. cbn [handlers cache fetches].
    rewrite insert_app_r_alt by lia. rewrite Hlen, Nat.sub_diag.
    cbn [insert list_insert].
    rewrite lookup_app_l by lia. rewrite Hat, Hstatus. reflexivity. }
  rewrite Hstored, Hearly. cbn [cache handlers fetches].
  split.
  { unfold observed. cbn [handlers].
    rewrite lookup_app_l by (rewrite length_insert; lia).
    rewrite list_lookup_insert_eq by lia. reflexivity. }
  split.
  { rewrite lookup_app_r by (rewrite length_insert; lia).
    rewrite length_insert, Hlen, Nat.sub_diag. reflexivity. }
  split; [apply lookup_insert_eq|]. split; [reflexivity|].
  split.
  { rewrite list_lookup_insert_ne by lia.
    rewrite lookup_app_r by lia. rewrite Hlen, Nat.sub_diag. reflexivity. }
  split; [apply lookup_insert_eq|].
  rewrite <- app_assoc. reflexivity.
Qed.

Lemma fetched_once_then_served_from_cache_witness :
  let fetched := exec [ Arrive Samples.engRequest; Lookup 0;
                        Settle 0 (Resolved Samples.engPack) ] (idle ∅) in
  let stored := exec [Store 0; Arrive Samples.engRequest; Lookup 1] fetched in
  let early := exec [Arrive Samples.engRequest; Lookup 1; Store 0] fetched in
  observed 0 fetched = Some (Replied Samples.engPack)
  /\ cache fetched = ∅
  /\ fetches fetched = [] ++ [url Samples.engRequest]
  /\ observed 0 stored = Some (Replied Samples.engPack)
  /\ handlers stored !! 1
     = Some (ReturnedCached Samples.engRequest Samples.engPack)
  /\ cache stored !! url Samples.engRequest = Some Samples.engPack
  /\ fetches stored = [] ++ [url Samples.engRequest]
  /\ handlers early !! 1 = Some (Fetching Samples.engRequest)
  /\ cache early !! url Samples.engRequest = Some Samples.engPack
  /\ fetches early = [] ++ [url Samples.engRequest; url Samples.engRequest].
Proof.
  apply (fetched_once_then_served_from_cache (idle ∅) Samples.engRequest
           Samples.engPack).
  - reflexivity.
  - reflexivity.
  - simpl. lia.
Defined.

Lemma step_withinScope c ev w : withinScope c w -> withinScope c (step ev w).
Proof.
  intros (HA & HB & HC).
  assert (Hother : forall j k h0 h h',
            handlers w !! j = Some h0 -> handlers w !! k = Some h ->
            h <> h0 -> <[j := h']> (handlers w) !! k = Some h).
  { intros j k h0 h h' Hj Hk Hne. rewrite list_lookup_insert_ne; [exact Hk|].
    intros ->. rewrite Hj in Hk. congruence. }
  assert (HB' : forall j h0 h',
            handlers w !! j = Some h0 ->
            hasFetched h0 = true -> hasFetched h' = true ->
            requestOf h' = requestOf h0 ->
            forall u, u ∈ fetches w ->
            exists k h, <[j := h']> (handlers w) !! k = Some h
                        /\ hasFetched h = true /\ url (requestOf h) = u).
  { intros j h0 h' Hj Hf0 Hf' Hq' u Hu.
    destruct (HB u Hu) as (k & h & Hk & Hf & Hurl).
    destruct (decide (j = k)) as [->|Hne].
    - rewrite Hj in Hk. injection Hk as <-. exists k, h'.
      rewrite list_lookup_insert_eq by (eapply lookup_lt_Some; exact Hj).
      rewrite Hq'. repeat split; assumption.
    - exists k, h. rewrite list_lookup_insert_ne by exact Hne. repeat split;
        assumption. }
  assert (HC' : forall j h0 h',
            handlers w !! j = Some h0 ->
            (forall q r, h0 <> ReturnedFetched q r) ->
            forall u,
              cache w !! u = c !! u
              \/ exists k request response,
                   <[j := h']> (handlers w) !! k
                   = Some (ReturnedFetched request response)
                   /\ url request = u).
  { intros j h0 h' Hj Hne u.
    destruct (HC u) as [H|(k & q' & r & Hk & Hurl)]; [left; exact H|].
    right. exists k, q', r. split; [|exact Hurl].
    apply (Hother j k h0); try assumption. intros <-. exact (Hne q' r eq_refl). }
  unfold withinScope. destruct ev as [request|j|j o|j|j]; simpl.
  - split; [|split].
    + apply Forall_app. split; [exact HA|]. constructor; [|constructor].
      unfold arrive. fold (concerned request).
      destruct (concerned request) eqn:Hc; simpl; (exact Hc || reflexivity).
    + intros u Hu. destruct (HB u Hu) as (k & h & Hk & Hf & Hurl).
      exists k, h. rewrite lookup_app_l by (eapply lookup_lt_Some; exact Hk). eauto.
    + intros u. destruct (HC u) as [H|(k & q & r & Hk & Hurl)]; [left; exact H|].
      right. exists k, q, r.
      rewrite lookup_app_l by (eapply lookup_lt_Some; exact Hk). eauto.
  - destruct (handlers w !! j) as [h0|] eqn:Hj; [|repeat split; assumption].
    destruct h0 as [q|q|q|q r0|q r0|q r0|q r0|q e0];
      try (repeat split; assumption).
    assert (Hq : concerned q = true).
    { rewrite Forall_forall in HA.
      apply (HA (Matching q)). eapply list_elem_of_lookup_2. exact Hj. }
    pose proof (lookup_lt_Some _ _ _ Hj) as Hlt.
    destruct (cache w !! url q) as [cached|] eqn:Hcache; simpl.
    + split; [|split].
      * apply Forall_insert; [exact HA|exact Hq].
      * intros u Hu. destruct (HB u Hu) as (k & h & Hk & Hf & Hurl).
        exists k, h. split; [|split; assumption].
        apply (Hother j k (Matching q)); try assumption.
        intros ->. discriminate.
      * apply (HC' j (Matching q)); [exact Hj|discriminate].
    + split; [|split].
      * apply Forall_insert; [exact HA|exact Hq].
      * intros u Hu. apply elem_of_app in Hu as [Hu|Hu].
        -- destruct (HB u Hu) as (k & h & Hk & Hf & Hurl).
           exists k, h. split; [|split; assumption].
           apply (Hother j k (Matching q)); try assumption.
           intros ->. discriminate.
        -- apply list_elem_of_singleton in Hu. subst u.
           exists j, (Fetching q).
           rewrite list_lookup_insert_eq by exact Hlt. repeat split.
      * apply (HC' j (Matching q)); [exact Hj|discriminate].
  - destruct (handlers w !! j) as [h0|] eqn:Hj; [|repeat split; assumption].
    destruct h0 as [q|q|q|q r0|q r0|q r0|q r0|q e0];
      try (repeat split; assumption).
    assert (Hq : concerned q = true).
    { rewrite Forall_forall in HA.
      apply (HA (Fetching q)). eapply list_elem_of_lookup_2. exact Hj. }
    destruct o as [response|e]; simpl.
    + split; [|split].
      * apply Forall_insert; [exact HA|exact Hq].
      * apply (HB' j (Fetching q)); try reflexivity. exact Hj.
      * apply (HC' j (Fetching q)); [exact Hj|discriminate].
    + split; [|split].
      * apply Forall_insert; [exact HA|exact Hq].
      * apply (HB' j (Fetching q)); try reflexivity. exact Hj.
      * apply (HC' j (Fetching q)); [exact Hj|discriminate].
  - destruct (handlers w !! j) as [h0|] eqn:Hj; [|repeat split; assumption].
    destruct h0 as [q|q|q|q r0|q r0|q r0|q r0|q e0];
      try (repeat split; assumption).
    assert (Hq : concerned q = true).
    { rewrite Forall_forall in HA.
      apply (HA (Storing q r0)). eapply list_elem_of_lookup_2. exact Hj. }
    pose proof (lookup_lt_Some _ _ _ Hj) as Hlt.
    destruct (statusCode r0 =? 206)%nat; simpl.
    + split; [|split].
      * apply Forall_insert; [exact HA|exact Hq].
      * apply (HB' j (Storing q r0)); try reflexivity. exact Hj.
      * apply (HC' j (Storing q r0)); [exact Hj|discriminate].
    + split; [|split].
      * apply Forall_insert; [exact HA|exact Hq].
      * apply (HB' j (Storing q r0)); try reflexivity. exact Hj.
      * intros u. destruct (decide (url q = u)) as [<-|Hne].
        -- right. exists j, q, r0.
           rewrite list_lookup_insert_eq by exact Hlt. split; reflexivity.
        -- rewrite lookup_insert_ne by exact Hne.
           apply (HC' j (Storing q r0)); [exact Hj|discriminate].
  - destruct (handlers w !! j) as [h0|] eqn:Hj; [|repeat split; assumption].
    destruct h0 as [q|q|q|q r0|q r0|q r0|q r0|q e0];
      try (repeat split; assumption).
    assert (Hq : concerned q = true).
    { rewrite Forall_forall in HA.
      apply (HA (Storing q r0)). eapply list_elem_of_lookup_2. exact Hj. }
    simpl. split; [|split].
    + apply Forall_insert; [exact HA|exact Hq].
    + apply (HB' j (Storing q r0)); try reflexivity. exact Hj.
    + apply (HC' j (Storing q r0)); [exact Hj|discriminate].
Qed.

(** The worker keeps to the language packs.  Under every schedule, a
    request whose path is not under [/tesseract/] is never answered by the
    listener; every fetch the worker issues is for a request under
    [/tesseract/]; and an entry of the cache is changed or added only by a
    handler of such a request storing the response it fetched. *)
Theorem worker_keeps_to_language_packs events (c : gmap string Response) :
  let w := exec events (idle c) in
  (forall k h,
     handlers w !! k = Some h ->
     concerned (requestOf h) = false ->
     h = Ignored (requestOf h) /\ observed k w = None)
  /\ (forall u,
        u ∈ fetches w ->
        exists k h,
          handlers w !! k = Some h /\ url (requestOf h) = u
          /\ concerned (requestOf h) = true)
  /\ (forall u,
        cache w !! u <> c !! u ->
        exists k request response,
          handlers w !! k = Some (ReturnedFetched request response)
          /\ url request = u /\ concerned request = true).
Proof.
  cbv zeta.
  assert (Hscope : withinScope c (exec events (idle c))).
  { apply (exec_invariant (withinScope c)).
    - intros ev w. apply step_withinScope.
    - split; [constructor|]. split; [intros u Hu; inversion Hu|].
      intros u. left. reflexivity. }
  destruct Hscope as (HA & HB & HC). rewrite Forall_forall in HA.
  split; [|split].
  - intros k h Hk Hc. pose proof (HA h (list_elem_of_lookup_2 _ _ _ Hk)) as Hh.
    unfold observed. rewrite Hk.
    destruct h; simpl in *; try congruence. split; reflexivity.
  - intros u Hu. destruct (HB u Hu) as (k & h & Hk & Hf & Hurl).
    exists k, h. split; [exact Hk|]. split; [exact Hurl|].
    pose proof (HA h (list_elem_of_lookup_2 _ _ _ Hk)) as Hh.
    destruct h; simpl in *; try discriminate; exact Hh.
  - intros u Hu. destruct (HC u) as [H|(k & q & r & Hk & Hurl)]; [contradiction|].
    exists k, q, r. split; [exact Hk|]. split; [exact Hurl|].
    apply (HA _ (list_elem_of_lookup_2 _ _ _ Hk)).
Qed.

End WorkerExtras.
